(** * gitma_canspin: the annotation export pipeline

    A shallow embedding of [gitma_canspin/_export_annotations.py]
    (token tables, IOB2 alignment, TEI reconstruction, punctuation
    correction) and of the text-window selection of
    [gitma_canspin/canspin.py], with the properties of the design
    specification stated against it; then of further parts of
    [canspin.py] and [_helper.py] (the project helpers, the statistics
    and the bar chart of the analyzer, the loading of annotation files,
    the chapter sampling, the dict helpers, the matches of the gold
    standard), with properties read off the code.

    Conventions.
    - A Python [str] is a list of code points ([PyStr.str]); [len] is the
      list length, so a non-ASCII character counts once, as in Python.
    - pandas integers and character offsets are [Z].
    - A raised exception is a value of [exn] in the error monad [result].
    - A table read by [pd.read_csv] is the list of its rows, with the
      cells as the file holds them.  A Token cell that pandas reads as a
      missing value is a NaN ([Align.read_as_nan]), on which the tests of
      the token raise TypeError; the cells Tag and Annotation_ID are
      taken as the [str] of the file, and a column that pandas reads as
      numbers is not modelled.
    - A dict is the list of its items where the order of the items is
      read, and a [gmap] where it is not.
    - lxml elements live in a store (a list indexed by element id), so that
      the references held by [_paragraph_list] and [_last_sibling_element]
      alias the elements of the tree. *)

From Stdlib Require Import Strings.String Strings.Ascii.
From stdpp Require Import prelude gmap.

Local Open Scope Z_scope.

(* ===================================================================== *)
(** ** Python strings *)
(* ===================================================================== *)

Module PyStr.

Definition char := N.
Definition str := list char.

(** An ASCII literal of the source, as code points. *)
Definition lit (s : string) : str :=
  (λ a, N_of_ascii a) <$> list_ascii_of_string s.
Arguments lit s%_string.

(** [s.startswith(p)] *)
Fixpoint startswith (p s : str) : bool :=
  match p, s with
  | [], _ => true
  | _ :: _, [] => false
  | a :: p', b :: s' => bool_decide (a = b) && startswith p' s'
  end.

(** [p in s] *)
Fixpoint contains (p s : str) : bool :=
  startswith p s ||
  match s with
  | [] => false
  | _ :: s' => contains p s'
  end.

(** [s.replace(old, new)] for a non-empty [old]: the occurrences of [old]
    are found from the left and do not overlap.  [skip] is the number of
    characters of the current occurrence still to be dropped. *)
Fixpoint replace_from (old new : str) (skip : nat) (s : str) : str :=
  match s with
  | [] => []
  | c :: s' =>
      match skip with
      | S k => replace_from old new k s'
      | O =>
          if startswith old s
          then new ++ replace_from old new (pred (length old)) s'
          else c :: replace_from old new 0 s'
      end
  end.

Definition replace (old new s : str) : str := replace_from old new 0 s.

(** [s.split(sep)[-1]] for a one-character separator: what follows the
    last separator, the whole string when there is none. *)
Definition last_field (sep : char) (s : str) : str :=
  foldl (λ acc c, if decide (c = sep) then [] else acc ++ [c]) [] s.

Definition newline : char := 10%N.
Definition backslash : char := 92%N.
Definition space : char := 32%N.

End PyStr.

Import PyStr.

(** Python's [s[lo:hi]] (step 1) on a sequence of length [L]: a negative
    bound counts from the end, then both bounds are cut to [0, L]. *)
Module PySlice.

Definition adjust (L i : Z) : Z :=
  if decide (i < 0)
  then (if decide (i + L < 0) then 0 else i + L)
  else (if decide (L ≤ i) then L else i).

Definition bound (L : Z) (dflt : Z) (o : option Z) : Z :=
  match o with
  | Some i => adjust L i
  | None => dflt
  end.

Definition slice {A} (s : list A) (lo hi : option Z) : list A :=
  let L := Z.of_nat (length s) in
  let a := bound L 0 lo in
  let b := bound L L hi in
  take (Z.to_nat (b - a)) (drop (Z.to_nat a) s).

End PySlice.

(* ===================================================================== *)
(** ** Exceptions *)
(* ===================================================================== *)

Inductive exn :=
| IndexError | AttributeError | KeyError | ValueError | TypeError | ReError.

Inductive result (A : Type) :=
| Ok (a : A)
| Raise (e : exn).
Arguments Ok {A} a.
Arguments Raise {A} e.

Definition bind {A B} (m : result A) (k : A → result B) : result B :=
  match m with
  | Ok a => k a
  | Raise e => Raise e
  end.

Notation "x <- m ; k" := (bind m (λ x, k))
  (at level 20, m at level 100, k at level 200, only parsing).

Definition is_Ok {A} (m : result A) : Prop := ∃ a, m = Ok a.

(** The marker a line-break token carries in the token tables: the two
    characters backslash and n (the source writes ['\\n']). *)
Definition linebreak_marker : str := [backslash; 110%N].

Definition is_linebreak (token : str) : bool := contains linebreak_marker token.

(* ===================================================================== *)
(** ** The alignment: [create_annotated_token_tsv] *)
(* ===================================================================== *)

Module Align.

(** One item of [annotation.data['target']['items']]. *)
Record selector := { sel_start : Z; sel_end : Z }.

(** Modelled from the spec: the class [Annotation] and the frame [ac.df]
    of the [AnnotationCollection] are not among the sources at hand; the
    specification's Annotation [{id, tagClass, segments}] is given here
    the fields that [create_annotated_token_tsv] reads.  An annotation
    comes with its row of [ac.df]: row [i] of the frame describes
    [ac.annotations[i]].  [data_id] is [annotation.data['id']],
    [data_items] the selectors of [annotation.data['target']['items']],
    and [df_tag], [df_start_point], [df_end_point] the columns [tag],
    [start_point] and [end_point] of its row. *)
Record Annotation := {
  data_id : str;
  data_items : list selector;
  df_tag : str;
  df_start_point : Z;
  df_end_point : Z
}.

(** A row of [ac_data_df]: [name] is its index label, the position of its
    annotation in [annotation_list]; a bound is [None] for the NaN that
    [explode] writes for an empty list. *)
Record ac_row := {
  name : nat;
  start_point : option Z;
  end_point : option Z;
  tag : str
}.

(** A row of the basic token table, as the file holds it. *)
Record token_row := {
  Token_ID : Z;
  Text_Pointer : Z;
  Token : str
}.

(** The texts that [pd.read_csv] (lines 165 and 252) takes for a missing
    value, its default list: a cell of the column Token that holds one of
    them is read as NaN, a float and no str, and every other cell as the
    str in the file.  (A column that holds nothing but numbers or truth
    values, which [pd.read_csv] reads as such, is not told apart here.) *)
Definition na_values : list str :=
  [ []; lit "#N/A"; lit "#N/A N/A"; lit "#NA"; lit "-1.#IND"; lit "-1.#QNAN";
    lit "-NaN"; lit "-nan"; lit "1.#IND"; lit "1.#QNAN"; lit "<NA>";
    lit "N/A"; lit "NA"; lit "NULL"; lit "NaN"; lit "None"; lit "n/a";
    lit "nan"; lit "null" ].

Definition read_as_nan (text : str) : bool := bool_decide (text ∈ na_values).

(** A row of the annotated token table. *)
Record tagged_row := {
  basic : token_row;
  Tag : str;
  Annotation_ID : str;
  Multi_Token_Annotation : Z
}.

(** [ac_data_df.explode(['start_point', 'end_point'])] for one row. *)
Definition explode (index : nat) (a : Annotation) : list ac_row :=
  match data_items a with
  | [] => [ {| name := index; start_point := None; end_point := None;
               tag := df_tag a |} ]
  | items =>
      (λ it, {| name := index; start_point := Some (sel_start it);
                end_point := Some (sel_end it); tag := df_tag a |}) <$> items
  end.

(** [ac_data_df] as the tag loops see it (lines 166-182). *)
Definition ac_data_df (use_all_text_selection_segments : bool)
    (annotation_list : list Annotation) : list ac_row :=
  if use_all_text_selection_segments
  then mjoin (imap explode annotation_list)
  else imap (λ index a,
               {| name := index; start_point := Some (df_start_point a);
                  end_point := Some (df_end_point a); tag := df_tag a |})
            annotation_list.

(** [text_borders[0] if text_borders else 0] *)
Definition border_shift (text_borders : option (Z * Z)) : Z :=
  match text_borders with
  | Some (b, _) => b
  | None => 0
  end.

(** Comparisons of a column that may hold NaN: all false on NaN. *)
Definition col_eq (o : option Z) (x : Z) : bool :=
  match o with Some v => bool_decide (v = x) | None => false end.
Definition col_lt (o : option Z) (x : Z) : bool :=
  match o with Some v => bool_decide (v < x) | None => false end.
Definition col_gt (o : option Z) (x : Z) : bool :=
  match o with Some v => bool_decide (v > x) | None => false end.
Definition col_le (o : option Z) (x : Z) : bool :=
  match o with Some v => bool_decide (v ≤ x) | None => false end.
Definition col_sub (o : option Z) (x : Z) : option Z :=
  (λ v, v - x) <$> o.

(** The boolean masks of lines 186-195 and 214-217. *)
Definition mask_beginning (text_borders : option (Z * Z)) (row : token_row)
    (r : ac_row) : bool :=
  col_eq (start_point r) (Text_Pointer row + border_shift text_borders)
  && negb (is_linebreak (Token row)).

Definition mask_inner (text_borders : option (Z * Z)) (row : token_row)
    (r : ac_row) : bool :=
  col_lt (start_point r) (Text_Pointer row + border_shift text_borders)
  && col_gt (end_point r) (Text_Pointer row + border_shift text_borders)
  && negb (is_linebreak (Token row)).

Definition mask_covering (text_borders : option (Z * Z)) (row : token_row)
    (r : ac_row) : bool :=
  col_le (col_sub (start_point r) (border_shift text_borders)) (Text_Pointer row)
  && col_gt (col_sub (end_point r) (border_shift text_borders)) (Text_Pointer row).

(** Lines 101-110 of [to_stanford_tsv], the other tagger of the module:
    the tag of the first annotation whose range from [start_point] up to,
    not including, [end_point] holds the token, O when there is none. *)
Definition to_stanford_tsv_tag (filtered_ac_df : list ac_row) (row : token_row)
    : str :=
  let l_df :=
    filter (λ r, col_le (start_point r) (Text_Pointer row)
                 && col_gt (end_point r) (Text_Pointer row)) filtered_ac_df in
  match l_df with
  | r :: _ => tag r
  | [] => lit "O"
  end.

Definition tag_B : str := lit "B-".
Definition tag_I : str := lit "I-".
Definition tag_O : str := lit "O".
Definition id_none : str := lit "none".

(** The first loop (lines 184-202): the IOB2 tag of one token. *)
Definition new_iob2_tag (df : list ac_row) (text_borders : option (Z * Z))
    (row : token_row) : str :=
  let filtered_row_df_beginning := filter (λ r, mask_beginning text_borders row r) df in
  let filtered_row_df_inner := filter (λ r, mask_inner text_borders row r) df in
  match filtered_row_df_beginning with
  | r :: _ => tag_B ++ tag r
  | [] =>
      match filtered_row_df_inner with
      | r :: _ => tag_I ++ tag r
      | [] => tag_O
      end
  end.

Definition new_iob2_tags (df : list ac_row) (text_borders : option (Z * Z))
    (tsv_data_df : list token_row) : list str :=
  new_iob2_tag df text_borders <$> tsv_data_df.

(** The first loop as it runs: the test ['\\n' not in row['Token']] of
    line 188 raises TypeError on a NaN, at the first row that holds one. *)
Fixpoint first_loop (df : list ac_row) (text_borders : option (Z * Z))
    (tsv_data_df : list token_row) : result (list str) :=
  match tsv_data_df with
  | [] => Ok []
  | row :: rest =>
      if read_as_nan (Token row) then Raise TypeError
      else
        tags <- first_loop df text_borders rest;
        Ok (new_iob2_tag df text_borders row :: tags)
  end.

(** [annotation.data['id'].split('/')[-1].split('_')[-1]] *)
Definition short_id (a : Annotation) : str :=
  last_field 95%N (last_field 47%N (data_id a)).

(** The state of the second loop: the two lists it grows. *)
Record id_state := {
  annotation_ids : list str;
  multi_token_annotation : list Z
}.

(** [[i for i, e in enumerate(annotation_ids) if e == annotation_id]] *)
Definition found_token_indices (ids : list str) (annotation_id : str) : list nat :=
  omap (λ ie, if decide (ie.2 = annotation_id) then Some ie.1 else None)
       (imap (λ i e, (i, e)) ids).

(** Lines 214-219: the annotation of the first row of [ac_data_df] whose
    range holds the token; [iloc[0]] raises on an empty selection. *)
Definition first_covering_annotation (df : list ac_row)
    (annotation_list : list Annotation) (text_borders : option (Z * Z))
    (row : token_row) : result Annotation :=
  let filtered_row_df := filter (λ r, mask_covering text_borders row r) df in
  first <- match filtered_row_df with
           | r :: _ => Ok r
           | [] => Raise IndexError
           end;
  match annotation_list !! name first with
  | Some a => Ok a
  | None => Raise IndexError
  end.

(** One iteration of the second loop (lines 209-228). *)
Definition id_step (df : list ac_row) (annotation_list : list Annotation)
    (text_borders : option (Z * Z)) (st : id_state)
    (row : token_row) (row_tag : str) : result id_state :=
  if bool_decide (row_tag = tag_O) || is_linebreak (Token row)
  then Ok {| annotation_ids := annotation_ids st ++ [id_none];
             multi_token_annotation := multi_token_annotation st ++ [0] |}
  else
    annotation <- first_covering_annotation df annotation_list text_borders row;
    let annotation_id := short_id annotation in
    let found := found_token_indices (annotation_ids st) annotation_id in
    let amount_of_found_token := Z.of_nat (length found) in
    let multi := imap (λ i e, if decide (i ∈ found) then e + 1 else e)
                      (multi_token_annotation st) in
    Ok {| annotation_ids := annotation_ids st ++ [annotation_id];
          multi_token_annotation := multi ++ [amount_of_found_token + 1] |}.

Fixpoint id_loop (df : list ac_row) (annotation_list : list Annotation)
    (text_borders : option (Z * Z)) (st : id_state)
    (rows : list (token_row * str)) : result id_state :=
  match rows with
  | [] => Ok st
  | (row, row_tag) :: rest =>
      st' <- id_step df annotation_list text_borders st row row_tag;
      id_loop df annotation_list text_borders st' rest
  end.

(** The table that [create_annotated_token_tsv] hands to [to_csv], from the
    rows read from the basic token table. *)
Definition create_annotated_token_tsv (annotation_list : list Annotation)
    (tsv_data_df : list token_row) (text_borders : option (Z * Z))
    (use_all_text_selection_segments : bool) : result (list tagged_row) :=
  let df := ac_data_df use_all_text_selection_segments annotation_list in
  tags <- first_loop df text_borders tsv_data_df;
  st <- id_loop df annotation_list text_borders
             {| annotation_ids := []; multi_token_annotation := [] |}
             (zip tsv_data_df tags);
  Ok (zip_with (λ rt im, {| basic := rt.1; Tag := rt.2;
                            Annotation_ID := im.1;
                            Multi_Token_Annotation := im.2 |})
        (zip tsv_data_df tags)
        (zip (annotation_ids st) (multi_token_annotation st))).

(** What the second loop writes in [annotation_ids] for one row. *)
Definition row_annotation_id (df : list ac_row) (annotation_list : list Annotation)
    (text_borders : option (Z * Z)) (row : token_row) (row_tag : str) : result str :=
  if bool_decide (row_tag = tag_O) || is_linebreak (Token row)
  then Ok id_none
  else annotation <- first_covering_annotation df annotation_list text_borders row;
       Ok (short_id annotation).

(** The number of entries of [ids] equal to [a]. *)
Definition count_id (a : str) (ids : list str) : Z :=
  Z.of_nat (length (filter (λ e, e = a) ids)).

(** The invariant of the second loop: an entry of [multi_token_annotation]
    whose id is not the sentinel ['none'] is the number of entries of
    [annotation_ids] so far that carry the same id. *)
Definition id_inv (st : id_state) : Prop :=
  length (annotation_ids st) = length (multi_token_annotation st) ∧
  ∀ (i : nat) (a : str), annotation_ids st !! i = Some a → a ≠ id_none →
    multi_token_annotation st !! i = Some (count_id a (annotation_ids st)).

(** The entries under the sentinel are 0. *)
Definition none_inv (st : id_state) : Prop :=
  ∀ i : nat, annotation_ids st !! i = Some id_none →
    multi_token_annotation st !! i = Some 0.

(** No annotation's short id is the sentinel ['none'] that marks an
    unannotated token. *)
Definition ids_distinct_from_none (annotation_list : list Annotation) : Prop :=
  ∀ a, a ∈ annotation_list → short_id a ≠ id_none.

End Align.

(* ===================================================================== *)
(** ** The text window: [text_borders] *)
(* ===================================================================== *)

Module Window.

(** Line 135 of [create_basic_token_tsv]:
    [ac.text.plain_text[text_borders[0]:text_borders[1]] if text_borders
     else ac.text.plain_text]. *)
Definition select_text (plain_text : str) (text_borders : option (Z * Z)) : str :=
  match text_borders with
  | Some (lo, hi) => PySlice.slice plain_text (Some lo) (Some hi)
  | None => plain_text
  end.

(** [CanspinProject.test_text_borders] for a loaded project and a given
    collection (canspin.py, lines 301-309). *)
Definition test_text_borders (plain_text : str) (text_borders : option (Z * Z))
    (text_snippet_length : Z) : result str :=
  match text_borders with
  | None => Raise ValueError
  | Some (lo, hi) =>
      let text := PySlice.slice plain_text (Some lo) (Some hi) in
      let shown :=
        if decide (text_snippet_length * 2 ≤ Z.of_nat (length text))
        then PySlice.slice text None (Some text_snippet_length)
             ++ lit "..."
             ++ PySlice.slice text (Some (- Z.abs text_snippet_length)) None
        else text in
      Ok ([34%N] ++ shown ++ [34%N])
  end.

(** Cutting a bound to [0, L], as the specification words it. *)
Definition clamp (L v : Z) : Z := Z.max 0 (Z.min v L).

(** What Python does with a negative bound first: it counts from the end. *)
Definition from_end (L v : Z) : Z := if decide (v < 0) then v + L else v.

End Window.

(* ===================================================================== *)
(** ** The token tables: what is written and what is read *)
(* ===================================================================== *)

Module Table.
Import Align.

(** Line 142: [x.replace('\n', '\\n')]. *)
Definition escape_linebreaks (x : str) : str :=
  replace [newline] linebreak_marker x.

(** The frame [create_basic_token_tsv] hands to [to_csv]: the tokenizer's
    table with the Token column escaped. *)
Definition basic_token_frame (lemma_df : list token_row) : list token_row :=
  (λ r, {| Token_ID := Token_ID r; Text_Pointer := Text_Pointer r;
           Token := escape_linebreaks (Token r) |}) <$> lemma_df.

Section CsvLayer.

(** The tokenizer [get_spacy_df], and pandas' [DataFrame.to_csv] and
    [read_csv] for the two tables. *)
Context {file : Type}.
Variable get_spacy_df : str → list token_row.
Variable to_csv : list token_row → file.
Variable read_csv : file → list token_row.
Variable to_csv_annotated : list tagged_row → file.
Variable read_csv_annotated : file → list tagged_row.

(** Lines 141-148. *)
Definition write_basic_table (lemma_df : list token_row) : file :=
  to_csv (basic_token_frame lemma_df).

(** [create_basic_token_tsv] (lines 135-148). *)
Definition create_basic_token_tsv (plain_text : str)
    (text_borders : option (Z * Z)) : file :=
  let text := Window.select_text plain_text text_borders in
  let lemma_df := get_spacy_df text in
  write_basic_table lemma_df.

(** Line 165. *)
Definition read_basic_table (f : file) : list token_row := read_csv f.

(** Lines 233-237: the annotated frame is written as it is. *)
Definition write_annotated_table (tsv_data_df : list tagged_row) : file :=
  to_csv_annotated tsv_data_df.

(** Line 252. *)
Definition read_annotated_table (f : file) : list tagged_row :=
  read_csv_annotated f.

End CsvLayer.

(** A token whose text is one newline, and one whose text is a backslash
    followed by n. *)
Definition newline_token : token_row :=
  {| Token_ID := 0; Text_Pointer := 0; Token := [newline] |}.
Definition backslash_n_token : token_row :=
  {| Token_ID := 0; Text_Pointer := 0; Token := linebreak_marker |}.

(** A lossless CSV layer: the file is the table of cells. *)
Definition cells_of_rows (rows : list token_row) : list (Z * Z * str) :=
  (λ r, (Token_ID r, Text_Pointer r, Token r)) <$> rows.
Definition rows_of_cells (cells : list (Z * Z * str)) : list token_row :=
  (λ c, {| Token_ID := c.1.1; Text_Pointer := c.1.2; Token := c.2 |}) <$> cells.

End Table.

(* ===================================================================== *)
(** ** The punctuation correction: [_fix_punctuation] *)
(* ===================================================================== *)

(** The part of Python's regular expressions that the correction table is
    written in: literal characters, a backslash before a punctuation
    character, and the dot.  Anything else is refused with [ReError]. *)
Module Re.

Inductive atom :=
| Lit (c : char)
| AnyChar.

Definition is_alnum (c : char) : bool :=
  (bool_decide (48 ≤ c)%N && bool_decide (c ≤ 57)%N)
  || (bool_decide (65 ≤ c)%N && bool_decide (c ≤ 90)%N)
  || (bool_decide (97 ≤ c)%N && bool_decide (c ≤ 122)%N).

(** The characters [. ^ $ * + ? { } [ ] ( ) |] and the backslash. *)
Definition is_special (c : char) : bool :=
  bool_decide (c ∈ lit ".^$*+?{}[]()|" ++ [backslash]).

Fixpoint parse (pattern : str) : result (list atom) :=
  match pattern with
  | [] => Ok []
  | c :: rest =>
      if bool_decide (c = backslash) then
        match rest with
        | d :: rest' =>
            if is_alnum d then Raise ReError
            else atoms <- parse rest'; Ok (Lit d :: atoms)
        | [] => Raise ReError
        end
      else if bool_decide (c = 46%N) then
        atoms <- parse rest; Ok (AnyChar :: atoms)
      else if is_special c then Raise ReError
      else atoms <- parse rest; Ok (Lit c :: atoms)
  end.

(** The pattern matches at the head of [s]. *)
Fixpoint match_here (atoms : list atom) (s : str) : bool :=
  match atoms, s with
  | [], _ => true
  | _ :: _, [] => false
  | Lit c :: atoms', d :: s' => bool_decide (c = d) && match_here atoms' s'
  | AnyChar :: atoms', d :: s' =>
      negb (bool_decide (d = newline)) && match_here atoms' s'
  end.

(** The scan of [re.sub]: matches are taken from the left and do not
    overlap; [skip] counts the characters of the current match still to be
    dropped. *)
Fixpoint sub_from (atoms : list atom) (repl : str) (skip : nat) (s : str) : str :=
  match s with
  | [] => []
  | c :: s' =>
      match skip with
      | S k => sub_from atoms repl k s'
      | O =>
          if match_here atoms s
          then repl ++ sub_from atoms repl (pred (length atoms)) s'
          else c :: sub_from atoms repl 0 s'
      end
  end.

(** [re.sub(pattern, repl, string)] for a pattern that cannot match the
    empty string and a replacement without backslash. *)
Definition sub (pattern repl string : str) : result str :=
  atoms <- parse pattern;
  match atoms with
  | [] => Raise ReError
  | _ :: _ =>
      if bool_decide (backslash ∈ repl) then Raise ReError
      else Ok (sub_from atoms repl 0 string)
  end.

End Re.

Module Punctuation.

(** The table of lines 293-303; [187] is the character », [171] is «. *)
Definition corrections : list (str * str) :=
  [ (lit " \.", lit ".");
    (lit " ,", lit ",");
    (lit " :", lit ":");
    (lit " ;", lit ";");
    ([187%N; space], [187%N]);
    ([space; 171%N], [171%N]);
    (lit " \?", lit "?");
    (lit " \!", lit "!");
    (lit " <\/p>", lit "</p>") ].

(** Lines 305-308. *)
Fixpoint apply_corrections (cs : list (str * str)) (xml_string : str) : result str :=
  match cs with
  | [] => Ok xml_string
  | correction :: cs' =>
      xml_string' <- Re.sub correction.1 correction.2 xml_string;
      apply_corrections cs' xml_string'
  end.

Definition _fix_punctuation (xml_string : str) : result str :=
  apply_corrections corrections xml_string.

(** The table as the specification words it: literal find and replace
    rules, in order. *)
Definition literal_rules : list (str * str) :=
  [ (lit " .", lit ".");
    (lit " ,", lit ",");
    (lit " :", lit ":");
    (lit " ;", lit ";");
    ([187%N; space], [187%N]);
    ([space; 171%N], [171%N]);
    (lit " ?", lit "?");
    (lit " !", lit "!");
    (lit " </p>", lit "</p>") ].

Definition apply_literal_rules (s : str) : str :=
  foldl (λ acc rule, replace rule.1 rule.2 acc) s literal_rules.

(** The rule deletes one space, before or after its mark. *)
Definition deletes_one_space (rule : str * str) : Prop :=
  rule.1 = space :: rule.2 ∨ rule.1 = rule.2 ++ [space].

(** A correction of the source and a literal rule say the same: the
    pattern is the rule's text with its marks quoted. *)
Definition same_rule (correction rule : str * str) : Prop :=
  Re.parse correction.1 = Ok (Re.Lit <$> rule.1) ∧ rule.1 ≠ [] ∧
  (backslash ∉ correction.2) ∧ correction.2 = rule.2.

End Punctuation.

(* ===================================================================== *)
(** ** The document: [create_annotated_tei] *)
(* ===================================================================== *)

Module Tei.
Import Align Punctuation.

(** An lxml element; [el_children] holds the ids of its children. *)
Record element := {
  el_tag : str;
  el_attrib : list (str * str);
  el_text : option str;
  el_tail : option str;
  el_children : list nat
}.

(** The elements by id, with the two variables that the traversal keeps
    (lines 267-268). *)
Record state := {
  store : list element;
  _paragraph_list : list nat;
  _last_sibling_element : option nat
}.

Definition TEI_NS : str := lit "http://www.tei-c.org/ns/1.0".
Definition TEI : str := lit "{" ++ TEI_NS ++ lit "}".
Definition CS1_NS : str := lit "https://www.canspin.uni-rostock.de/ns/CS1/110".
Definition CS1 : str := lit "{" ++ CS1_NS ++ lit "}".

(** [etree.Element(tag)] *)
Definition Element (tag : str) (attrib : list (str * str)) : element :=
  {| el_tag := tag; el_attrib := attrib; el_text := None; el_tail := None;
     el_children := [] |}.

Definition add_child (child : nat) (e : element) : element :=
  {| el_tag := el_tag e; el_attrib := el_attrib e; el_text := el_text e;
     el_tail := el_tail e; el_children := el_children e ++ [child] |}.

(** What lxml accepts as a text, a tail or the value of an attribute: a
    str of XML characters.  A control character other than tab, newline
    and carriage return, a surrogate, U+FFFE or U+FFFF is refused with
    ValueError (a surrogate with its subclass UnicodeEncodeError). *)
Definition xml_char (c : char) : bool :=
  bool_decide (c = 9)%N || bool_decide (c = 10)%N || bool_decide (c = 13)%N
  || (bool_decide (32 ≤ c)%N
      && negb (bool_decide (55296 ≤ c)%N && bool_decide (c ≤ 57343)%N)
      && negb (bool_decide (c = 65534)%N)
      && negb (bool_decide (c = 65535)%N)).

Definition xml_text (s : str) : bool := forallb xml_char s.

(** What lxml accepts as the name of an element or an attribute: a Name
    of XML 1.0 (fifth edition) without a colon; [name_start_char] are the
    letters A-Z and a-z, the underscore and the ranges of the production
    NameStartChar above ASCII, [name_char] adds the hyphen, the dot, the
    digits and the ranges of NameChar. *)
Definition in_ranges (c : char) (ranges : list (N * N)) : bool :=
  existsb (λ r : N * N, bool_decide (r.1 ≤ c)%N && bool_decide (c ≤ r.2)%N) ranges.

Definition name_start_char (c : char) : bool :=
  in_ranges c
    [ (65, 90); (95, 95); (97, 122); (192, 214); (216, 246); (248, 767);
      (880, 893); (895, 8191); (8204, 8205); (8304, 8591); (11264, 12271);
      (12289, 55295); (63744, 64975); (65008, 65533); (65536, 983039) ]%N.

Definition name_char (c : char) : bool :=
  name_start_char c
  || in_ranges c [ (45, 46); (48, 57); (183, 183); (768, 879); (8255, 8256) ]%N.

Definition xml_name (s : str) : bool :=
  match s with
  | [] => false
  | c :: rest => name_start_char c && forallb name_char rest
  end.

(** The name of a tag [{namespace}name] or [name]; [None] when the brace
    is not closed. *)
Fixpoint after_brace (s : str) : option str :=
  match s with
  | [] => None
  | c :: rest => if bool_decide (c = 125)%N then Some rest else after_brace rest
  end.

Definition local_name (tag : str) : option str :=
  match tag with
  | c :: rest => if bool_decide (c = 123)%N then after_brace rest else Some tag
  | [] => Some []
  end.

Definition valid_tag (tag : str) : bool :=
  match local_name tag with
  | Some name => xml_name name
  | None => false
  end.

(** The store with a new element under [parent], and the new element's
    id. *)
Definition with_child (parent : nat) (tag : str) (attrib : list (str * str))
    (s : list element) : nat * list element :=
  (length s, alter (add_child (length s)) parent s ++ [Element tag attrib]).

(** [etree.SubElement(parent, tag, attrib)]: the new element's id and the
    store that holds it; ValueError for a tag or an attribute name that
    is no XML name (a class with a space in it, an empty class) and for
    an attribute value that is no XML text. *)
Definition SubElement (parent : nat) (tag : str) (attrib : list (str * str))
    (s : list element) : result (nat * list element) :=
  if valid_tag tag
     && forallb (λ kv : str * str, valid_tag kv.1 && xml_text kv.2) attrib
  then Ok (with_child parent tag attrib s)
  else Raise ValueError.

(** [x = t if x is None else x + t] *)
Definition appended (x : option str) (t : str) : option str :=
  Some (match x with None => t | Some old => old ++ t end).

(** [e.text = t if e.text is None else e.text + t] *)
Definition append_text (e : nat) (t : str) (s : list element) : list element :=
  alter (λ el, {| el_tag := el_tag el; el_attrib := el_attrib el;
                  el_text := appended (el_text el) t; el_tail := el_tail el;
                  el_children := el_children el |}) e s.

(** [e.tail = t if e.tail is None else e.tail + t] *)
Definition append_tail (e : nat) (t : str) (s : list element) : list element :=
  alter (λ el, {| el_tag := el_tag el; el_attrib := el_attrib el;
                  el_text := el_text el; el_tail := appended (el_tail el) t;
                  el_children := el_children el |}) e s.

(** Lines 262-265 and 333-335: the root, the header with its three
    children, the text and the body; their names are XML names. *)
Definition tei_el : nat := 0%nat.
Definition initial_store : list element :=
  let s := [Element (TEI ++ lit "TEI") []] in
  let s := (with_child tei_el (TEI ++ lit "teiHeader") [] s).2 in
  let s := (with_child tei_el (TEI ++ lit "text") [] s).2 in
  let s := (with_child 2 (TEI ++ lit "body") [] s).2 in
  let s := (with_child 1 (TEI ++ lit "fileDesc") [] s).2 in
  let s := (with_child 1 (TEI ++ lit "profileDesc") [] s).2 in
  (with_child 1 (TEI ++ lit "revisionDesc") [] s).2.
Definition body_el : nat := 3%nat.

Definition initial_state : state :=
  {| store := initial_store; _paragraph_list := [];
     _last_sibling_element := None |}.

(** [l.insert(i, x)] for [i >= 0], and [l[-1]]. *)
Definition py_insert {A} (i : nat) (x : A) (l : list A) : list A :=
  take i l ++ x :: drop i l.
Definition py_last {A} (l : list A) : result A :=
  match last l with
  | Some x => Ok x
  | None => Raise IndexError
  end.

Definition eltec_deu : str := lit "eltec-deu".

(** Lines 310-330. *)
Definition _paragraph_recognition (token text_class : str) : result bool :=
  let patterns :=
    [ (eltec_deu, is_linebreak token && bool_decide (length token < 10)%nat) ] in
  match list_find (λ kv, kv.1 = text_class) patterns with
  | Some (_, kv) => Ok kv.2
  | None => Raise KeyError
  end.

(** Lines 339-342. *)
Definition open_paragraph (insert_paragraphs : bool) (text_class : str)
    (idx : nat) (row : tagged_row) (st : state) : result state :=
  if insert_paragraphs then
    boundary <- (if bool_decide (idx = 0%nat) then Ok true
                 else _paragraph_recognition (Token (basic row)) text_class);
    if (boundary : bool) then
      pe <- SubElement body_el (TEI ++ lit "p") [] (store st);
      Ok {| store := pe.2;
            _paragraph_list := py_insert idx pe.1 (_paragraph_list st);
            _last_sibling_element := None |}
    else Ok st
  else Ok st.

(** Lines 348-356, the same as 358-366: the token goes to the text of the
    span [e]; the space after it goes to the text when the next row is an
    I- row, to the tail otherwise.  A token that is no XML text is refused
    with ValueError when it is written. *)
Definition span_token (rows : list tagged_row) (idx : nat) (row : tagged_row)
    (e : nat) (s : list element) : result (list element) :=
  if xml_text (Token (basic row)) then
    if bool_decide (Z.of_nat idx < Z.of_nat (length rows) - 1) then
      next <- match rows !! S idx with
              | Some r => Ok r
              | None => Raise IndexError
              end;
      if startswith tag_I (Tag next)
      then Ok (append_text e (Token (basic row) ++ [space]) s)
      else Ok (append_tail e [space] (append_text e (Token (basic row)) s))
    else Ok (append_tail e [space] (append_text e (Token (basic row)) s))
  else Raise ValueError.

(** Lines 343-374; a token that is no XML text is refused with
    ValueError when it is written as a text or a tail. *)
Definition place_token (insert_paragraphs : bool) (rows : list tagged_row)
    (idx : nat) (row : tagged_row) (st : state) : result state :=
  if is_linebreak (Token (basic row)) then Ok st
  else if negb (bool_decide (Tag row = tag_O)) then
    if startswith tag_B (Tag row) then
      parent <- (if insert_paragraphs then py_last (_paragraph_list st)
                 else Ok body_el);
      se <- SubElement parent (CS1 ++ drop 2 (Tag row))
              [(CS1 ++ lit "annotation", Annotation_ID row)] (store st);
      s <- span_token rows idx row se.1 se.2;
      Ok {| store := s; _paragraph_list := _paragraph_list st;
            _last_sibling_element := Some se.1 |}
    else
      match _last_sibling_element st with
      | None => Raise AttributeError
      | Some e =>
          s <- span_token rows idx row e (store st);
          Ok {| store := s; _paragraph_list := _paragraph_list st;
                _last_sibling_element := Some e |}
      end
  else
    match _last_sibling_element st with
    | Some e =>
        if xml_text (Token (basic row)) then
          Ok {| store := append_tail e (Token (basic row) ++ [space]) (store st);
                _paragraph_list := _paragraph_list st;
                _last_sibling_element := Some e |}
        else Raise ValueError
    | None =>
        target <- (if insert_paragraphs then py_last (_paragraph_list st)
                   else Ok body_el);
        if xml_text (Token (basic row)) then
          Ok {| store := append_text target (Token (basic row) ++ [space]) (store st);
                _paragraph_list := _paragraph_list st;
                _last_sibling_element := None |}
        else Raise ValueError
    end.

(** One iteration of the loop of lines 338-374.  On a Token cell that
    [pd.read_csv] (line 252) read as NaN the tests ['\\n' in token] of
    lines 327 and 343 raise TypeError; nothing else of the iteration can
    fail before them. *)
Definition tei_step (insert_paragraphs : bool) (text_class : str)
    (rows : list tagged_row) (idx : nat) (row : tagged_row) (st : state)
    : result state :=
  if read_as_nan (Token (basic row)) then Raise TypeError
  else
    st1 <- open_paragraph insert_paragraphs text_class idx row st;
    place_token insert_paragraphs rows idx row st1.

Fixpoint tei_loop (insert_paragraphs : bool) (text_class : str)
    (rows : list tagged_row) (idx : nat) (rest : list tagged_row) (st : state)
    : result state :=
  match rest with
  | [] => Ok st
  | row :: rest' =>
      st' <- tei_step insert_paragraphs text_class rows idx row st;
      tei_loop insert_paragraphs text_class rows (S idx) rest' st'
  end.

(** The traversal over the whole table. *)
Definition build_body (insert_paragraphs : bool) (text_class : str)
    (rows : list tagged_row) : result state :=
  tei_loop insert_paragraphs text_class rows 0 rows initial_state.

Section Serializer.

(** [etree.tostring(tree, pretty_print=True, xml_declaration=True,
    encoding='utf-8').decode()], lxml's serializer, on the store. *)
Variable tostring : list element → str.

(** The string that [create_annotated_tei] writes (lines 338-381). *)
Definition create_annotated_tei (tsv_data_df : list tagged_row)
    (insert_paragraphs : bool) (paragraph_recognition_text_class : str)
    : result str :=
  st <- build_body insert_paragraphs paragraph_recognition_text_class tsv_data_df;
  _fix_punctuation (tostring (store st)).

End Serializer.

End Tei.
(* ===================================================================== *)
(** ** The project helpers of [canspin.py] *)
(* ===================================================================== *)

Module Project.
Import Align.

(** What [get_annotation_collection_index_by_ac_name_and_text_title]
    reads of an annotation collection: [ac.name] and [ac.text.title]. *)
Record collection := {
  ac_name : str;
  text_title : str
}.

(** [[index for index, ac in enumerate(acs) if p(ac)]] *)
Definition indices_where {A} (p : A → bool) (acs : list A) : list nat :=
  omap (λ ie : nat * A, if p ie.2 then Some ie.1 else None)
       (imap (λ index ac, (index, ac)) acs).

(** [get_annotation_collection_index_by_ac_name_and_text_title]
    (canspin.py, lines 259-271); [project] is [None] when no project is
    loaded, and the method then returns [None]. *)
Definition get_annotation_collection_index_by_ac_name_and_text_title
    (project : option (list collection)) (name title : str)
    : result (option nat) :=
  match project with
  | None => Ok None
  | Some annotation_collections =>
      let indices :=
        indices_where (λ ac, bool_decide (ac_name ac = name)
                             && bool_decide (text_title ac = title))
                      annotation_collections in
      if decide (length indices ≠ 1%nat) then Raise ValueError
      else match indices with
           | index :: _ => Ok (Some index)
           | [] => Raise IndexError
           end
  end.

(** The result of [get_text_border_values_by_string_search]: a pair of
    positions, or the two lists of positions. *)
Inductive border_values :=
| Borders (start_value end_value : Z)
| Occurences (occurences_start occurences_end : list Z).

(** The scan of [re.finditer]: the matches are taken from the left and do
    not overlap; a match of the empty pattern is found at every position,
    the end of the text included.  [pos] is the position of the head of
    [s] in the text and [skip] the number of characters of the current
    match still to be passed. *)
Fixpoint finditer_from (atoms : list Re.atom) (pos skip : nat) (s : str)
    : list (nat * nat) :=
  match s with
  | [] =>
      match skip with
      | O => if Re.match_here atoms [] then [(pos, (pos + length atoms)%nat)] else []
      | S _ => []
      end
  | c :: s' =>
      match skip with
      | S k => finditer_from atoms (S pos) k s'
      | O =>
          if Re.match_here atoms s
          then (pos, (pos + length atoms)%nat)
               :: finditer_from atoms (S pos) (pred (length atoms)) s'
          else finditer_from atoms (S pos) 0 s'
      end
  end.

(** [[(m.start(), m.end()) for m in re.finditer(pattern, string)]] *)
Definition finditer (pattern string : str) : result (list (nat * nat)) :=
  atoms <- Re.parse pattern;
  Ok (finditer_from atoms 0 0 string).

(** [get_text_border_values_by_string_search] for a loaded project and a
    given collection (canspin.py, lines 341-350); [substrings] is [None]
    for a missing or empty argument. *)
Definition get_text_border_values_by_string_search (plain_text : str)
    (substrings : option (str * str)) : result border_values :=
  match substrings with
  | None => Raise ValueError
  | Some (substring_0, substring_1) =>
      matches_start <- finditer substring_0 plain_text;
      matches_end <- finditer substring_1 plain_text;
      let occurences_start := (λ m : nat * nat, Z.of_nat m.1) <$> matches_start in
      let occurences_end := (λ m : nat * nat, Z.of_nat m.2) <$> matches_end in
      match occurences_start, occurences_end with
      | [start_value], [end_value] => Ok (Borders start_value end_value)
      | _, _ => Ok (Occurences occurences_start occurences_end)
      end
  end.

End Project.
(* ===================================================================== *)
(** ** The analyzer: statistics and charts of [canspin.py] *)
(* ===================================================================== *)

Module Analyzer.
Import Align.

(** The exceptions met in the analyzer: those of the export module and
    three more. *)
Inductive error :=
| Exn (e : exn)
| ZeroDivisionError
| FileNotFoundError
| NotImplementedError.

Inductive outcome (A : Type) :=
| Returns (a : A)
| Raises (e : error).
Arguments Returns {A} a.
Arguments Raises {A} e.

Definition and_then {A B} (m : outcome A) (k : A → outcome B) : outcome B :=
  match m with
  | Returns a => k a
  | Raises e => Raises e
  end.

(** *** The token window of the statistics *)

(** [_get_df_with_text_borders] (canspin.py, lines 1190-1210). *)
Definition _get_df_with_text_borders {A} (input : list A)
    (text_borders : option (Z * Z)) : list A :=
  match text_borders with
  | None => input
  | Some (text_borders_0, text_borders_1) =>
      let input_length := Z.of_nat (length input) in
      let start_value :=
        if decide (text_borders_0 >= 0 ∧ text_borders_0 < input_length)
        then text_borders_0 else 0 in
      let end_value :=
        if decide (text_borders_1 > start_value ∧ text_borders_1 < input_length)
        then text_borders_1 else input_length in
      PySlice.slice input (Some start_value) (Some end_value)
  end.

(** *** The statistics of one file *)

(** [df.drop_duplicates(subset=['Annotation_ID'])]: of the rows with the
    same Annotation_ID the first one is kept; [seen] holds the ids met. *)
Fixpoint drop_duplicates_from (seen : list str) (df : list tagged_row)
    : list tagged_row :=
  match df with
  | [] => []
  | row :: rest =>
      if decide (Annotation_ID row ∈ seen)
      then drop_duplicates_from seen rest
      else row :: drop_duplicates_from (Annotation_ID row :: seen) rest
  end.

Definition drop_duplicates (df : list tagged_row) : list tagged_row :=
  drop_duplicates_from [] df.

(** Lines 1305-1307:
    [file_df[file_df['Tag'].str.startswith('B-')].drop_duplicates(subset=['Annotation_ID'])]
    and its length. *)
Definition filtered_df_with_annotations (file_df : list tagged_row)
    : list tagged_row :=
  drop_duplicates (filter (λ row, startswith tag_B (Tag row)) file_df).

Definition amount_of_annotations (input : list tagged_row)
    (text_borders : option (Z * Z)) : Z :=
  let file_df := _get_df_with_text_borders input text_borders in
  Z.of_nat (length (filtered_df_with_annotations file_df)).

(** Lines 1628-1629: [len(file_df.index)]. *)
Definition amount_of_token (input : list tagged_row)
    (text_borders : option (Z * Z)) : Z :=
  let file_df := _get_df_with_text_borders input text_borders in
  Z.of_nat (length file_df).

(** Lines 1733-1734: [int((file_df.Multi_Token_Annotation.values > 0).sum())]. *)
Definition amount_of_annotated_token (input : list tagged_row)
    (text_borders : option (Z * Z)) : Z :=
  let file_df := _get_df_with_text_borders input text_borders in
  Z.of_nat (length (filter (λ row, Multi_Token_Annotation row > 0) file_df)).

(** *** The progression bar chart *)

(** [d[key]] and [d[key] = value] on a dict kept as the list of its
    items. *)
Fixpoint dict_get {V} (key : str) (d : list (str * V)) : option V :=
  match d with
  | [] => None
  | (k, v) :: d' => if decide (k = key) then Some v else dict_get key d'
  end.

Fixpoint dict_set {V} (key : str) (value : V) (d : list (str * V))
    : list (str * V) :=
  match d with
  | [] => [(key, value)]
  | (k, v) :: d' =>
      if decide (k = key) then (k, value) :: d'
      else (k, v) :: dict_set key value d'
  end.

(** [lst[i] += 1]: a negative index counts from the end. *)
Definition increment_at (i : Z) (lst : list Z) : outcome (list Z) :=
  let L := Z.of_nat (length lst) in
  if decide (- L ≤ i ∧ i < L)
  then Returns (alter (λ v, v + 1)
                  (Z.to_nat (if decide (i < 0) then i + L else i)) lst)
  else Raises (Exn IndexError).

(** What the loop of [_transform_with_token_separation] changes:
    [_my_globals['text_units']], [_my_globals['class_instance_counter']]
    and [processed_annotations]. *)
Record counting := {
  text_units : list Z;
  class_instance_counter : list (str * list Z);
  processed_annotations : list str
}.

(** The test of lines 941-944. *)
Definition is_counted (processed : list str) (row : tagged_row) : bool :=
  startswith tag_B (Tag row)
  && (bool_decide (Multi_Token_Annotation row = 1)
      || (negb (bool_decide (Multi_Token_Annotation row = 1))
          && negb (bool_decide (Annotation_ID row ∈ processed)))).

(** One iteration of the loop (lines 935-948). *)
Definition count_row (separation_unit_amount : Z) (st : counting)
    (row_index : Z) (row : tagged_row) : outcome counting :=
  let current_text_unit := row_index `div` separation_unit_amount in
  let text_units' :=
    if decide (current_text_unit ∈ text_units st) then text_units st
    else text_units st ++ [current_text_unit] in
  if is_counted (processed_annotations st) row then
    let classname := drop 2 (Tag row) in
    match dict_get classname (class_instance_counter st) with
    | None => Raises (Exn KeyError)
    | Some lst =>
        and_then (increment_at current_text_unit lst) (λ lst',
        Returns {| text_units := text_units';
                   class_instance_counter :=
                     dict_set classname lst' (class_instance_counter st);
                   processed_annotations :=
                     processed_annotations st ++ [Annotation_ID row] |})
    end
  else
    Returns {| text_units := text_units';
               class_instance_counter := class_instance_counter st;
               processed_annotations := processed_annotations st |}.

(** The loop over [input.iterrows()]; [row_index] is the index label of
    the head of [rows], the frames at hand being indexed 0, 1, 2, ... *)
Fixpoint count_rows (separation_unit_amount : Z) (st : counting)
    (row_index : Z) (rows : list tagged_row) : outcome counting :=
  match rows with
  | [] => Returns st
  | row :: rest =>
      and_then (count_row separation_unit_amount st row_index row) (λ st',
      count_rows separation_unit_amount st' (row_index + 1) rest)
  end.

(** Line 925. *)
Definition text_units_count (input_length separation_unit_amount : Z) : Z :=
  input_length `div` separation_unit_amount
  + (if decide (input_length `mod` separation_unit_amount ≠ 0) then 1 else 0).

(** Line 926. *)
Definition last_text_unit_amount (input_length separation_unit_amount : Z) : Z :=
  if decide (input_length `mod` separation_unit_amount = 0)
  then separation_unit_amount
  else input_length `mod` separation_unit_amount.

(** [_transform_with_token_separation] up to the dict it hands to
    [pd.DataFrame] (lines 923-948): the text units and the counters per
    class.  [class_names] are the keys of [_my_globals['class_list']]. *)
Definition _transform_with_token_separation (class_names : list str)
    (input : list tagged_row) (separation_unit_amount : Z) : outcome counting :=
  if decide (separation_unit_amount = 0) then Raises ZeroDivisionError
  else
    let count :=
      text_units_count (Z.of_nat (length input)) separation_unit_amount in
    count_rows separation_unit_amount
      {| text_units := [];
         class_instance_counter :=
           (λ key, (key, replicate (Z.to_nat count) 0)) <$> class_names;
         processed_annotations := [] |}
      0 input.

(** The sum of all counters: the number of annotations the chart shows. *)
Definition counted_total (counter : list (str * list Z)) : Z :=
  foldr (λ kv acc, foldr Z.add 0 kv.2 + acc) 0 counter.

(** *** A chapter from the middle of a text *)

(** The characters [str.strip] removes: those for which [str.isspace]
    holds. *)
Definition isspace (c : char) : bool :=
  bool_decide (c ∈ [9; 10; 11; 12; 13; 28; 29; 30; 31; 32; 133; 160; 5760;
                    8192; 8193; 8194; 8195; 8196; 8197; 8198; 8199; 8200;
                    8201; 8202; 8232; 8233; 8239; 8287; 12288]%N).

Fixpoint lstrip (s : str) : str :=
  match s with
  | [] => []
  | c :: s' => if isspace c then lstrip s' else s
  end.

(** [s.strip()] *)
Definition strip (s : str) : str := reverse (lstrip (reverse (lstrip s))).

(** [s.endswith(p)] *)
Definition endswith (p s : str) : bool := startswith (reverse p) (reverse s).

(** Lines 1137-1146 for one chapter: [heads_in_chapter] holds the texts
    [head.get_text()] of its head elements. *)
Definition merged_heads (heads_in_chapter : list str) : str :=
  foldl (λ head_tags head, head_tags ++ strip head ++ [space]) [] heads_in_chapter.

Definition heads_content_of (text_chapters : list (list str)) : list str :=
  omap (λ heads_in_chapter,
          let head_tags := merged_heads heads_in_chapter in
          if decide (length head_tags ≠ 0%nat) then Some (strip head_tags)
          else None)
       text_chapters.

(** [extract_head_from_chapters] (lines 1116-1153), from the chapters
    that [find_all] returns. *)
Definition extract_head_from_chapters (text_chapters : list (list str))
    : outcome (list str) :=
  match text_chapters with
  | [] => Raises (Exn ValueError)
  | _ :: _ =>
      let heads_content := heads_content_of text_chapters in
      match heads_content with
      | [] => Raises (Exn ValueError)
      | _ :: _ =>
          if decide (length heads_content < 3)%nat then Raises (Exn ValueError)
          else Returns heads_content
      end
  end.

(** [np.array_split(ary, n)]: the first [len(ary) % n] parts hold
    [len(ary) // n + 1] elements, the others [len(ary) // n]. *)
Definition section_sizes (total sections : nat) : list nat :=
  replicate (total `mod` sections) (total `div` sections + 1)%nat
  ++ replicate (sections - total `mod` sections) (total `div` sections)%nat.

Fixpoint split_at_sizes {A} (sizes : list nat) (ary : list A) : list (list A) :=
  match sizes with
  | [] => []
  | size :: sizes' => take size ary :: split_at_sizes sizes' (drop size ary)
  end.

Definition array_split {A} (ary : list A) (sections : nat) : list (list A) :=
  split_at_sizes (section_sizes (length ary) sections) ary.

(** Line 1156. *)
Definition split_list {A} (list_data : list A) : list (list A) :=
  array_split list_data 3.

(** [random.choice(seq)]: the element at the position the generator
    draws below [len(seq)]. *)
Definition random_choice {A} (randbelow : nat → nat) (seq : list A)
    : outcome A :=
  match seq !! randbelow (length seq) with
  | Some x => Returns x
  | None => Raises (Exn IndexError)
  end.

(** [get_random_middle_chapter] (lines 1109-1170); [file_exists] is
    [os.path.exists(xml_file)] and [text_chapters] what the parser finds
    in the file. *)
Definition get_random_middle_chapter (file_exists : bool) (xml_file : str)
    (text_chapters : list (list str)) (randbelow : nat → nat) : outcome str :=
  if negb file_exists then Raises FileNotFoundError
  else if negb (endswith (lit ".xml") xml_file) then Raises (Exn ValueError)
  else
    and_then (extract_head_from_chapters text_chapters) (λ heads_content,
    match split_list heads_content with
    | [beginning_chapters_list; middle_chapters_list; ending_chapters_list] =>
        random_choice randbelow middle_chapters_list
    | _ => Raises (Exn ValueError)
    end).

(** *** Loading annotation files *)

(** A frame as [pd.read_csv] returns it: its column names and its rows,
    the cells of the column Tag being strings. *)
Record frame := {
  columns : list str;
  frame_rows : list tagged_row
}.

(** [canspin_annotation_tsv_columns] (_helper.py, lines 40-47). *)
Definition canspin_annotation_tsv_columns : list str :=
  [ lit "Token_ID"; lit "Text_Pointer"; lit "Token"; lit "Tag";
    lit "Annotation_ID"; lit "Multi_Token_Annotation" ].

(** The first loop of [_load_tsv_files] (canspin.py, lines 742-746): an
    item that is no string is [None]. *)
Fixpoint check_paths (path_exists : str → bool)
    (tsv_filepath_list : list (option str)) : outcome (list str) :=
  match tsv_filepath_list with
  | [] => Returns []
  | None :: _ => Raises (Exn ValueError)
  | Some tsv_filepath :: rest =>
      if negb (path_exists tsv_filepath) then Raises FileNotFoundError
      else and_then (check_paths path_exists rest) (λ paths,
           Returns (tsv_filepath :: paths))
  end.

(** [Series.unique()]: the values in the order of their first
    appearance. *)
Definition unique (values : list str) : list str :=
  foldl (λ met x, if decide (x ∈ met) then met else met ++ [x]) [] values.

(** Lines 752-764 for one frame; [classes] are the keys of the class
    system chosen in the render settings. *)
Definition check_frame (classes : list str) (df : frame) : outcome frame :=
  let missing_columns :=
    filter (λ column_name, column_name ∉ columns df)
           canspin_annotation_tsv_columns in
  if decide (missing_columns ≠ []) then Raises (Exn ValueError)
  else if decide (frame_rows df = []) then Raises (Exn ValueError)
  else
    let df_without_iob_prefixes_on_tags :=
      (λ row, if decide (Tag row ≠ tag_O) then drop 2 (Tag row) else tag_O)
        <$> frame_rows df in
    let all_tags := unique df_without_iob_prefixes_on_tags in
    let canspin_tags := filter (λ t, t ≠ tag_O) all_tags in
    let out_of_schema_tags := filter (λ t, t ∉ classes) canspin_tags in
    if decide (out_of_schema_tags ≠ []) then Raises (Exn ValueError)
    else Returns df.

(** The second loop (lines 749-766); [read_csv] is the frame that
    [pd.read_csv] parses from a file. *)
Fixpoint load_frames (read_csv : str → frame) (classes : list str)
    (paths : list str) : outcome (list frame) :=
  match paths with
  | [] => Returns []
  | tsv_filepath :: rest =>
      and_then (check_frame classes (read_csv tsv_filepath)) (λ df,
      and_then (load_frames read_csv classes rest) (λ dataframes,
      Returns (df :: dataframes)))
  end.

(** [_load_tsv_files] (lines 718-770): the rows of the frame it returns,
    which are indexed 0, 1, 2, ... *)
Definition _load_tsv_files (path_exists : str → bool) (read_csv : str → frame)
    (classes : list str) (tsv_filepath_list : list (option str))
    : outcome (list tagged_row) :=
  if decide (length tsv_filepath_list = 0%nat) then Raises (Exn ValueError)
  else
    and_then (check_paths path_exists tsv_filepath_list) (λ paths,
    and_then (load_frames read_csv classes paths) (λ dataframes,
    match dataframes with
    | [df] => Returns (frame_rows df)
    | _ => Returns (mjoin (frame_rows <$> dataframes))
    end)).

End Analyzer.

(* ===================================================================== *)
(** ** The other tagger: [to_stanford_tsv] *)
(* ===================================================================== *)

Module Stanford.
Import Align.


End Stanford.
(* ===================================================================== *)
(** ** The dict helpers of [_helper.py] *)
(* ===================================================================== *)

Module Helper.
Import Align Analyzer.

(** A Python value as [translate_dict] and [dict_travel_generator] tell
    them apart: a dict, kept as the list of its items in insertion order,
    or anything else. *)
#[warnings="-register-all"]
Inductive value (A : Type) :=
| Other (a : A)
| Dict (items : list (str * value A)).
Arguments Other {A} a.
Arguments Dict {A} items.

(** [dict(pairs)]: a key met again keeps its place and takes the later
    value. *)
Definition dict_of {V} (pairs : list (str * V)) : list (str * V) :=
  foldl (λ d kv, dict_set kv.1 kv.2 d) [] pairs.

(** [translation.get(k, k)] *)
Definition translated_key (translation : list (str * str)) (k : str) : str :=
  default k (dict_get k translation).

(** [translate_dict] (_helper.py, lines 126-131).  [depth] bounds the
    nesting of the calls as the recursion limit of the interpreter does;
    [None] is its RecursionError. *)
Fixpoint translate_dict {A} (depth : nat) (input : list (str * value A))
    (translation : list (str * str)) : option (list (str * value A)) :=
  match depth with
  | O => None
  | S depth' =>
      let translated :=
        dict_of ((λ kv : str * value A,
                    (translated_key translation kv.1, kv.2)) <$> input) in
      mapM (λ kv : str * value A,
              match kv.2 with
              | Dict items =>
                  d ← translate_dict depth' items translation;
                  Some (kv.1, Dict d)
              | Other _ => Some kv
              end) translated
  end.

(** [dict_travel_generator] (_helper.py, lines 112-117), as the list of
    the values it yields; [is_type] is [isinstance(value, type)]. *)
Fixpoint travel {A} (is_type : A → bool) (v : value A) : list A :=
  match v with
  | Other a => if is_type a then [a] else []
  | Dict items =>
      (fix values (l : list (str * value A)) : list A :=
         match l with
         | [] => []
         | kv :: l' => travel is_type kv.2 ++ values l'
         end) items
  end.

Definition dict_travel_generator {A} (d : list (str * value A))
    (is_type : A → bool) : list A :=
  travel is_type (Dict d).

End Helper.
(* ===================================================================== *)
(** ** The gold standard of [canspin.py]: the matches to be copied *)
(* ===================================================================== *)

Module Gold.
Import Align.

(** A row of the frames of [acs], as far as the comparison reads it: the
    lists of the start and end points of the segments of an annotation,
    and the uuid of the annotation. *)
Record row := {
  start_point : list Z;
  end_point : list Z;
  annotation_uuid : str
}.

Section Segmentation.

(** The comparison reads of an [Annotation] its [uuid] and nothing else. *)
Context {Annotation : Type} (uuid : Annotation → str).

(** A value of [acs]: [[ac.annotations, frame]]. *)
Definition collection : Type := list Annotation * list row.

(** A match: [(annotations, start_points, end_points)]. *)
Definition segmentation : Type := list Annotation * list Z * list Z.

(** [all_df[all_df['start_point'].map(lambda x: x == sp) &
    all_df['end_point'].map(lambda x: x == ep)]] *)
Definition filtered_all_df (all_df : list row) (sp ep : list Z) : list row :=
  filter (λ x, bool_decide (start_point x = sp) && bool_decide (end_point x = ep))
         all_df.

(** One pass of the inner loop of [_compare_for_strict_segmentation]
    (canspin.py, lines 2684-2689). *)
Definition compare_row (all_df : list row) (all_an : list Annotation)
    (output : list segmentation) (r : row) : list segmentation :=
  let filtered := filtered_all_df all_df (start_point r) (end_point r) in
  if decide (1 < length filtered)%nat then
    if decide (length output = 0%nat
               ∨ ¬ (start_point r ∈ (λ m : segmentation, m.1.2) <$> output
                    ∧ end_point r ∈ (λ m : segmentation, m.2) <$> output))
    then output
         ++ [(filter (λ an, bool_decide (uuid an ∈ annotation_uuid <$> filtered))
                     all_an,
              start_point r, end_point r)]
    else output
  else output.

(** The list of line 2677 for a single collection; [df.iloc[index]]
    raises IndexError past the end of the frame. *)
Fixpoint single_collection (df : list row) (index : nat)
    (annotations : list Annotation) : result (list segmentation) :=
  match annotations with
  | [] => Ok []
  | an :: rest =>
      match df !! index with
      | None => Raise IndexError
      | Some r =>
          rest' <- single_collection df (S index) rest;
          Ok (([an], start_point r, end_point r) :: rest')
      end
  end.

(** [_compare_for_strict_segmentation] (lines 2663-2692); [pd.concat]
    raises ValueError when it is given no frame. *)
Definition _compare_for_strict_segmentation
    (annotation_collections : list collection) : result (list segmentation) :=
  match annotation_collections with
  | [(annotations, df)] => single_collection df 0 annotations
  | [] => Raise ValueError
  | _ =>
      let all_df := mjoin (snd <$> annotation_collections) in
      let all_an := mjoin (fst <$> annotation_collections) in
      Ok (foldl (λ output (ac : collection),
                   foldl (compare_row all_df all_an) output ac.2)
                [] annotation_collections)
  end.

(** Line 2698: [[match for match in matches if len(match[0]) > (len(acs) / 2)]] *)
Definition majority (acs : list collection) (matches : list segmentation)
    : list segmentation :=
  filter (λ m : segmentation, (length acs < 2 * length m.1.1)%nat) matches.

(** The matches that [create_gold_standard_ac] hands to
    [_copy_matches_to_gold_ac] for the settings 'strict' (lines 2694-2721;
    the strict classification returns its argument). *)
Definition gold_matches (acs : list collection) : result (list segmentation) :=
  matches <- _compare_for_strict_segmentation acs;
  Ok (majority acs matches).

(** The annotations copied (line 2783): [match[0][0]] of every match. *)
Fixpoint copied (classification_result : list segmentation)
    : result (list Annotation) :=
  match classification_result with
  | [] => Ok []
  | m :: rest =>
      match m.1.1 with
      | [] => Raise IndexError
      | an :: _ => rest' <- copied rest; Ok (an :: rest')
      end
  end.

End Segmentation.

End Gold.
(* ===================================================================== *)
(** ** The statistics by class of [canspin.py] *)
(* ===================================================================== *)

Module ByClass.
Import Align Analyzer.

(** [Series.replace({r'^[BI]-': r''}, regex=True)] on one tag. *)
Definition without_iob_schema (tag : str) : str :=
  if startswith tag_B tag || startswith tag_I tag then drop 2 tag else tag.

(** [Series.value_counts().to_dict()]: how often each value occurs. *)
Definition value_counts (values : list str) : gmap str Z :=
  foldl (λ counts v, <[v := default 0 (counts !! v) + 1]> counts) ∅ values.

(** Lines 1505-1507: the classes of the class system without an instance
    are entered with 0. *)
Definition add_missing_classes (classes : list str) (file_summary : gmap str Z)
    : gmap str Z :=
  foldl (λ summary classname,
           match summary !! classname with
           | Some _ => summary
           | None => <[classname := 0]> summary
           end) file_summary classes.

(** The summary of one file in [get_amount_of_annotations_by_class]
    (lines 1477-1509).  [classes] is what lines 1483-1503 determine for
    the file: the classes of its class system, or [None] where the
    summary is left as it is. *)
Definition amount_of_annotations_by_class (classes : option (list str))
    (input : list tagged_row) (text_borders : option (Z * Z)) : gmap str Z :=
  let file_df := _get_df_with_text_borders input text_borders in
  let filtered_df := filtered_df_with_annotations file_df in
  let filtered_df_without_iob_schema :=
    (λ row, without_iob_schema (Tag row)) <$> filtered_df in
  let file_summary := value_counts filtered_df_without_iob_schema in
  match classes with
  | Some classes => add_missing_classes classes file_summary
  | None => file_summary
  end.

(** The summary of one file in [get_amount_of_annotated_token_by_class]
    (lines 1905-1939). *)
Definition amount_of_annotated_token_by_class (classes : option (list str))
    (input : list tagged_row) (text_borders : option (Z * Z)) : gmap str Z :=
  let file_df := _get_df_with_text_borders input text_borders in
  let df_without_iob_schema :=
    (λ row, without_iob_schema (Tag row)) <$> file_df in
  let file_summary := delete tag_O (value_counts df_without_iob_schema) in
  match classes with
  | Some classes => add_missing_classes classes file_summary
  | None => file_summary
  end.

End ByClass.

(* ===================================================================== *)
(** ** Vocabulary of the specification *)
(* ===================================================================== *)

Module Spec.
Import Align.

(** [x] is the first element of [l], in the order of [l], that satisfies
    [P]. *)
Definition first_match {A} (P : A → Prop) (l : list A) (x : A) : Prop :=
  ∃ l1 l2, l = l1 ++ x :: l2 ∧ P x ∧ ∀ y, y ∈ l1 → ¬ P y.

(** Rule 1: the segment starts at the token's offset. *)
Definition starts_at (off : Z) (r : ac_row) : Prop :=
  start_point r = Some off.

(** Rule 2: the offset lies strictly between the segment's bounds. *)
Definition strictly_inside (off : Z) (r : ac_row) : Prop :=
  ∃ s e, start_point r = Some s ∧ end_point r = Some e ∧ s < off ∧ off < e.

(** The half-open range [[start, end)] of the segment holds the offset. *)
Definition covers (off : Z) (r : ac_row) : Prop :=
  ∃ s e, start_point r = Some s ∧ end_point r = Some e ∧ s ≤ off ∧ off < e.

(** Every segment has a positive length. *)
Definition segments_nonempty (df : list ac_row) : Prop :=
  ∀ r s, r ∈ df → start_point r = Some s →
    ∃ e, end_point r = Some e ∧ s < e.

(** The multi-token values of the rows of annotation [a], in token order. *)
Definition multi_values_of (a : str) (rows : list tagged_row) : list Z :=
  Multi_Token_Annotation <$> filter (λ r, Annotation_ID r = a) rows.

(** The multi-token counting as the specification words it: per
    annotation the values run 1, 2, ..., n. *)
Definition dense_1_to_n (rows : list tagged_row) : Prop :=
  ∀ a, a ≠ id_none →
    multi_values_of a rows
    = Z.of_nat <$> seq 1 (length (filter (λ r, Annotation_ID r = a) rows)).

(** A token no annotation matched. *)
Definition unmatched (row : tagged_row) : Prop :=
  Tag row = tag_O ∨ is_linebreak (Token (basic row)) = true.



End Spec.

Module TeiSpec.
Import Align Tei.

(** The length below which a line-break token ends a paragraph. *)
Definition paragraph_threshold : nat := 10.

(** The rows for which a paragraph is opened: the first one, and a
    line-break token shorter than the threshold. *)
Definition starts_paragraph (idx : nat) (row : tagged_row) : bool :=
  bool_decide (idx = 0%nat)
  || (is_linebreak (Token (basic row))
      && bool_decide (length (Token (basic row)) < paragraph_threshold)%nat).

(** The state once a paragraph element is opened under the body. *)
Definition with_new_paragraph (idx : nat) (st : state) : state :=
  {| store := alter (add_child (length (store st))) body_el (store st)
              ++ [Element (TEI ++ lit "p") []];
     _paragraph_list := py_insert idx (length (store st)) (_paragraph_list st);
     _last_sibling_element := None |}.


(** A row that is written into the current span: no line-break token,
    and a tag that is neither O nor a B- tag. *)
Definition needs_span (row : tagged_row) : bool :=
  negb (is_linebreak (Token (basic row)))
  && negb (bool_decide (Tag row = tag_O))
  && negb (startswith tag_B (Tag row)).

(** A row that opens a span: no line-break token, and a B- tag. *)
Definition opens_span (row : tagged_row) : bool :=
  negb (is_linebreak (Token (basic row)))
  && negb (bool_decide (Tag row = tag_O))
  && startswith tag_B (Tag row).

Section Spans.

Variable insert_paragraphs : bool.
Variable rows : list tagged_row.

(** Row [k] opens a paragraph, which closes the current span. *)
Definition boundary_at (k : nat) : Prop :=
  ∃ r, rows !! k = Some r ∧ insert_paragraphs = true ∧ starts_paragraph k r = true.

Definition opener_at (j : nat) : Prop :=
  ∃ r, rows !! j = Some r ∧ opens_span r = true.

(** A span is open once the rows before [i] are done. *)
Definition open_before (i : nat) : Prop :=
  ∃ j, (j < i)%nat ∧ opener_at j ∧ ∀ k, (j < k < i)%nat → ¬ boundary_at k.

(** A span is open when row [i] is placed: some row before [i] opened one
    and no paragraph was opened since, at row [i] included. *)
Definition open_at (i : nat) : Prop :=
  ∃ j, (j < i)%nat ∧ opener_at j ∧ ∀ k, (j < k ≤ i)%nat → ¬ boundary_at k.

(** Every row that is written into the current span finds one open. *)
Definition spans_precede : Prop :=
  ∀ i r, rows !! i = Some r → needs_span r = true → open_at i.

(** The precondition as the specification words it: within its paragraph
    every I- row comes after some B- row. *)
Definition every_I_after_some_B : Prop :=
  ∀ i r, rows !! i = Some r → startswith tag_I (Tag r) = true →
    ∃ j r', (j < i)%nat ∧ rows !! j = Some r' ∧ startswith tag_B (Tag r') = true ∧
            ∀ k, (j < k ≤ i)%nat → ¬ boundary_at k.

(** Row [i] has a B- row before it in its paragraph. *)
Definition B_before (i : nat) : Prop :=
  ∃ j r', (j < i)%nat ∧ rows !! j = Some r' ∧ startswith tag_B (Tag r') = true ∧
          ∀ k, (j < k ≤ i)%nat → ¬ boundary_at k.

End Spans.

(** An annotated token table as the specification types it and as
    [create_annotated_token_tsv] writes it: a tag is O, a B- tag or an I-
    tag, and the row of a line-break token is O. *)
Definition annotated_token_table (rows : list tagged_row) : Prop :=
  (∀ r, r ∈ rows → is_linebreak (Token (basic r)) = true → Tag r = tag_O) ∧
  (∀ r, r ∈ rows → Tag r = tag_O ∨ startswith tag_B (Tag r) = true
                   ∨ startswith tag_I (Tag r) = true).

End TeiSpec.

(* ===================================================================== *)
(** ** Sample inputs *)
(* ===================================================================== *)

Module Examples.
Import Align.

(** The text ["The red fox"] of the specification, tokenized. *)
Definition the_red_fox : list token_row :=
  [ {| Token_ID := 0; Text_Pointer := 0; Token := lit "The" |};
    {| Token_ID := 1; Text_Pointer := 4; Token := lit "red" |};
    {| Token_ID := 2; Text_Pointer := 8; Token := lit "fox" |} ].

(** One annotation of two segments, (0,3) and (8,11). *)
Definition color_two_segments : Annotation :=
  {| data_id := lit "https://git.catma.de/annotations/CATMA_C0FFEE";
     data_items := [ {| sel_start := 0; sel_end := 3 |};
                     {| sel_start := 8; sel_end := 11 |} ];
     df_tag := lit "Color"; df_start_point := 0; df_end_point := 11 |}.

(** An annotation over (0,10) and a second one nested in it, over (4,7). *)
Definition outer_annotation : Annotation :=
  {| data_id := lit "https://git.catma.de/annotations/CATMA_A0";
     data_items := [ {| sel_start := 0; sel_end := 10 |} ];
     df_tag := lit "Phrase"; df_start_point := 0; df_end_point := 10 |}.

Definition nested_annotation : Annotation :=
  {| data_id := lit "https://git.catma.de/annotations/CATMA_A1";
     data_items := [ {| sel_start := 4; sel_end := 7 |} ];
     df_tag := lit "Color"; df_start_point := 4; df_end_point := 7 |}.

(** An annotation whose only segment (4,4) has length zero. *)
Definition zero_length_annotation : Annotation :=
  {| data_id := lit "https://git.catma.de/annotations/CATMA_A2";
     data_items := [ {| sel_start := 4; sel_end := 4 |} ];
     df_tag := lit "Color"; df_start_point := 4; df_end_point := 4 |}.

(** A token stream with a line break between two words; the annotation
    (0,9) spans all three tokens. *)
Definition two_lines : list token_row :=
  [ {| Token_ID := 0; Text_Pointer := 0; Token := lit "red" |};
    {| Token_ID := 1; Text_Pointer := 3; Token := lit "\n" |};
    {| Token_ID := 2; Text_Pointer := 4; Token := lit "fox" |} ].

Definition spanning_annotation : Annotation :=
  {| data_id := lit "https://git.catma.de/annotations/CATMA_A3";
     data_items := [ {| sel_start := 0; sel_end := 9 |} ];
     df_tag := lit "Animal"; df_start_point := 0; df_end_point := 9 |}.



(** A token stream whose second token is the word null, which
    [pd.read_csv] reads as a missing value. *)
Definition die_null_ist : list token_row :=
  [ {| Token_ID := 0; Text_Pointer := 0; Token := lit "Die" |};
    {| Token_ID := 1; Text_Pointer := 4; Token := lit "null" |};
    {| Token_ID := 2; Text_Pointer := 9; Token := lit "ist" |} ].

(** An annotated table whose B- row is a line-break token. *)
Definition linebreak_B_table : list tagged_row :=
  [ {| basic := {| Token_ID := 0; Text_Pointer := 0; Token := lit "\n" |};
       Tag := lit "B-Color"; Annotation_ID := lit "A1";
       Multi_Token_Annotation := 2 |};
    {| basic := {| Token_ID := 1; Text_Pointer := 1; Token := lit "fox" |};
       Tag := lit "I-Color"; Annotation_ID := lit "A1";
       Multi_Token_Annotation := 2 |} ].

(** An annotated table of a two-token span and a plain token, with a
    line break that ends the paragraph. *)
Definition red_fox_table : list tagged_row :=
  [ {| basic := {| Token_ID := 0; Text_Pointer := 0; Token := lit "red" |};
       Tag := lit "B-Animal"; Annotation_ID := lit "A3";
       Multi_Token_Annotation := 2 |};
    {| basic := {| Token_ID := 1; Text_Pointer := 4; Token := lit "fox" |};
       Tag := lit "I-Animal"; Annotation_ID := lit "A3";
       Multi_Token_Annotation := 2 |};
    {| basic := {| Token_ID := 2; Text_Pointer := 7; Token := lit "\n" |};
       Tag := lit "O"; Annotation_ID := lit "none";
       Multi_Token_Annotation := 0 |};
    {| basic := {| Token_ID := 3; Text_Pointer := 8; Token := lit "runs" |};
       Tag := lit "O"; Annotation_ID := lit "none";
       Multi_Token_Annotation := 0 |} ].

(** An annotated table in which the line break of a paragraph comes
    between the two tokens of an annotation: the I- row is the first
    token of the second paragraph. *)
Definition broken_span_table : list tagged_row :=
  [ {| basic := {| Token_ID := 0; Text_Pointer := 0; Token := lit "red" |};
       Tag := lit "B-Animal"; Annotation_ID := lit "A3";
       Multi_Token_Annotation := 2 |};
    {| basic := {| Token_ID := 1; Text_Pointer := 3; Token := lit "\n" |};
       Tag := lit "O"; Annotation_ID := lit "none";
       Multi_Token_Annotation := 0 |};
    {| basic := {| Token_ID := 2; Text_Pointer := 4; Token := lit "fox" |};
       Tag := lit "I-Animal"; Annotation_ID := lit "A3";
       Multi_Token_Annotation := 2 |} ].

End Examples.

(** Closes [ids_distinct_from_none] on a list of sample annotations. *)
Ltac solve_ids_distinct :=
  let a := fresh "a" in
  let Ha := fresh "Ha" in
  let E := fresh "E" in
  intros a Ha;
  repeat (apply elem_of_cons in Ha as [-> | Ha]);
  [ vm_compute; intros E; discriminate E .. | inversion Ha ].

(* ===================================================================== *)
(** ** Vocabulary for the project helpers and the analyzer *)
(* ===================================================================== *)

Module ProjectSpec.
Import Align Project.

(** The collection at position [i] has the name and the text title asked
    for. *)
Definition matches_at (acs : list collection) (name title : str) (i : nat) : Prop :=
  ∃ ac, acs !! i = Some ac ∧ ac_name ac = name ∧ text_title ac = title.

(** [i] is the only position whose collection matches. *)
Definition only_match (acs : list collection) (name title : str) (i : nat) : Prop :=
  matches_at acs name title i ∧ ∀ j, matches_at acs name title j → j = i.

(** The pattern matches the text at position [i] and nowhere else. *)
Definition occurs_only_at (atoms : list Re.atom) (text : str) (i : nat) : Prop :=
  Re.match_here atoms (drop i text) = true ∧
  ∀ k, Re.match_here atoms (drop k text) = true → k = i.

End ProjectSpec.

Module AnalyzerSpec.
Import Align Analyzer.

(** The rows that the loop of [_transform_with_token_separation] counts,
    given the ids processed so far. *)
Fixpoint counted_rows (processed : list str) (rows : list tagged_row)
    : list tagged_row :=
  match rows with
  | [] => []
  | row :: rest =>
      if is_counted processed row
      then row :: counted_rows (processed ++ [Annotation_ID row]) rest
      else counted_rows processed rest
  end.

(** A B- row whose multi-token value is 1 is the first B- row of its
    annotation: no id of [seen] and no earlier B- row carries its id. *)
Definition single_token_rows_fresh (seen : list str) (rows : list tagged_row) : Prop :=
  ∀ l1 r l2, rows = l1 ++ r :: l2 →
    startswith tag_B (Tag r) = true → Multi_Token_Annotation r = 1 →
    (Annotation_ID r ∉ seen) ∧
    ∀ r', r' ∈ l1 → startswith tag_B (Tag r') = true →
          Annotation_ID r' ≠ Annotation_ID r.

(** The class of every B- row is a class of the class system. *)
Definition classes_known (class_names : list str) (rows : list tagged_row) : Prop :=
  ∀ r, r ∈ rows → startswith tag_B (Tag r) = true → drop 2 (Tag r) ∈ class_names.

(** The chapters that hold at least one head element. *)
Definition chapters_with_head (text_chapters : list (list str)) : list (list str) :=
  filter (λ heads_in_chapter, heads_in_chapter ≠ []) text_chapters.

(** No whitespace at either end. *)
Definition stripped (s : str) : Prop :=
  lstrip s = s ∧ lstrip (reverse s) = reverse s.

End AnalyzerSpec.

Module AlignVocabulary.
Import Align.

(** The token row with its offset counted from the start of the whole
    text instead of the start of the window. *)
Definition with_offset (b : Z) (row : token_row) : token_row :=
  {| Token_ID := Token_ID row; Text_Pointer := Text_Pointer row + b;
     Token := Token row |}.

(** The three columns that the alignment adds to a row. *)
Definition added_columns (row : tagged_row) : str * str * Z :=
  (Tag row, Annotation_ID row, Multi_Token_Annotation row).

Definition result_map {A B} (f : A → B) (m : result A) : result B :=
  match m with
  | Ok a => Ok (f a)
  | Raise e => Raise e
  end.

(** The annotation is one continuous segment: its only selector is the
    range that its row of [ac.df] gives. *)
Definition one_segment (a : Annotation) : Prop :=
  data_items a = [ {| sel_start := df_start_point a; sel_end := df_end_point a |} ].

(** A token at the start of a segment that does not hold it, and held by
    no other segment. *)
Definition starts_uncovered (df : list ac_row) (text_borders : option (Z * Z))
    (row : token_row) : Prop :=
  is_linebreak (Token row) = false ∧
  (∃ r, r ∈ df ∧ Spec.starts_at (Text_Pointer row + border_shift text_borders) r) ∧
  ∀ r, r ∈ df → ¬ Spec.covers (Text_Pointer row + border_shift text_borders) r.

End AlignVocabulary.

(** *** Vocabulary of the theorems on the dict helpers *)

Module HelperSpec.
Import Align Analyzer Helper.

(** The dict with every key translated, at every depth; items and values
    stay as they are and where they are. *)
Fixpoint renamed {A} (translation : list (str * str)) (v : value A) : value A :=
  match v with
  | Other a => Other a
  | Dict items =>
      Dict ((fix go (l : list (str * value A)) : list (str * value A) :=
               match l with
               | [] => []
               | kv :: l' =>
                   (translated_key translation kv.1, renamed translation kv.2)
                   :: go l'
               end) items)
  end.

Definition renamed_items {A} (translation : list (str * str))
    (items : list (str * value A)) : list (str * value A) :=
  (λ kv, (translated_key translation kv.1, renamed translation kv.2)) <$> items.

(** No two keys of one dict are translated to the same key, at any
    depth. *)
Fixpoint collision_free {A} (translation : list (str * str)) (v : value A)
    : Prop :=
  match v with
  | Other _ => True
  | Dict items =>
      NoDup (translated_key translation <$> items.*1) ∧
      (fix all (l : list (str * value A)) : Prop :=
         match l with
         | [] => True
         | kv :: l' => collision_free translation kv.2 ∧ all l'
         end) items
  end.

(** The number of dicts nested in one another. *)
Fixpoint nesting {A} (v : value A) : nat :=
  match v with
  | Other _ => 0%nat
  | Dict items =>
      S ((fix deepest (l : list (str * value A)) : nat :=
            match l with
            | [] => 0%nat
            | kv :: l' => (nesting kv.2 `max` deepest l')%nat
            end) items)
  end.

End HelperSpec.

(** *** Vocabulary of the theorems on the gold standard *)

Module GoldSpec.
Import Align Gold.

Section Vocabulary.
Context {Annotation : Type} (uuid : Annotation → str).

(** The segments of a match. *)
Definition segments_of (m : @segmentation Annotation) : list Z * list Z :=
  (m.1.2, m.2).

(** The rows and the annotations of all collections, in their order. *)
Definition all_df (acs : list (@collection Annotation)) : list row :=
  mjoin (snd <$> acs).

Definition all_an (acs : list (@collection Annotation)) : list Annotation :=
  mjoin (fst <$> acs).

(** The rows with the segments [(sp, ep)], and the annotations whose uuid
    is that of such a row. *)
Definition rows_with (acs : list (@collection Annotation)) (sp ep : list Z)
    : list row :=
  filtered_all_df (all_df acs) sp ep.

Definition agreeing (acs : list (@collection Annotation)) (sp ep : list Z)
    : list Annotation :=
  filter (λ an, bool_decide (uuid an ∈ annotation_uuid <$> rows_with acs sp ep))
         (all_an acs).

(** No two rows start alike and end differently; no two rows end alike
    and start differently. *)
Definition starts_determine_ends (df : list row) : Prop :=
  ∀ r1 r2, r1 ∈ df → r2 ∈ df →
    start_point r1 = start_point r2 → end_point r1 = end_point r2.

Definition ends_determine_starts (df : list row) : Prop :=
  ∀ r1 r2, r1 ∈ df → r2 ∈ df →
    end_point r1 = end_point r2 → start_point r1 = start_point r2.

(** What holds of every match gathered by the loop. *)
Definition gathered (acs : list (@collection Annotation))
    (output : list (@segmentation Annotation)) : Prop :=
  NoDup (segments_of <$> output) ∧
  ∀ m, m ∈ output →
    (2 ≤ length (rows_with acs m.1.2 m.2))%nat ∧
    m.1.1 = agreeing acs m.1.2 m.2.

(** What the loop has found of the rows gone through. *)
Definition found (acs : list (@collection Annotation))
    (output : list (@segmentation Annotation)) (done_rows : list row) : Prop :=
  (∀ m, m ∈ output →
     ∃ r, r ∈ all_df acs ∧ segments_of m = (start_point r, end_point r)) ∧
  ∀ r, r ∈ done_rows →
    (2 ≤ length (rows_with acs (start_point r) (end_point r)))%nat →
    (start_point r, end_point r) ∈ segments_of <$> output.

End Vocabulary.

(** Two annotators who mark the same three passages, one of them
    reaching over the two others. *)
Definition nested_rows : list row :=
  [ {| start_point := [0]; end_point := [7]; annotation_uuid := lit "a" |};
    {| start_point := [8]; end_point := [11]; annotation_uuid := lit "b" |};
    {| start_point := [0]; end_point := [11]; annotation_uuid := lit "c" |} ].

Definition nested_collections : list (@collection str) :=
  [ ([lit "a"; lit "b"; lit "c"], nested_rows);
    ([lit "d"; lit "e"; lit "f"],
     [ {| start_point := [0]; end_point := [7]; annotation_uuid := lit "d" |};
       {| start_point := [8]; end_point := [11]; annotation_uuid := lit "e" |};
       {| start_point := [0]; end_point := [11]; annotation_uuid := lit "f" |} ]) ].

(** Two annotators who mark the same two passages, the second one a
    third passage as well. *)
Definition plain_collections : list (@collection str) :=
  [ ([lit "a"; lit "b"],
     [ {| start_point := [0]; end_point := [7]; annotation_uuid := lit "a" |};
       {| start_point := [8]; end_point := [11]; annotation_uuid := lit "b" |} ]);
    ([lit "d"; lit "e"; lit "f"],
     [ {| start_point := [0]; end_point := [7]; annotation_uuid := lit "d" |};
       {| start_point := [8]; end_point := [11]; annotation_uuid := lit "e" |};
       {| start_point := [20]; end_point := [25]; annotation_uuid := lit "f" |} ]) ].

End GoldSpec.

(** *** Vocabulary of the theorems on the statistics by class *)

Module ByClassSpec.
Import Align Analyzer ByClass.

(** The counts of a summary added up. *)
Definition sum_of_counts (summary : gmap str Z) : Z :=
  map_fold (λ _ n total, n + total) 0 summary.

(** The rows of a class. *)
Definition rows_of_class (class : str) (df : list tagged_row)
    : list tagged_row :=
  filter (λ row, without_iob_schema (Tag row) = class) df.

End ByClassSpec.

(* ===================================================================== *)
(** ** The text of the document *)
(* ===================================================================== *)

Module TeiText.
Import Align Tei TeiSpec.

(** The text of an attribute that may be [None], as characters. *)
Definition text_of (o : option str) : list char := default [] o.

(** [''.join(e.itertext())] for the element [id] of the store: its text,
    then for each child the child's text content and the child's tail.
    [fuel] bounds the depth of the descent. *)
Fixpoint itertext (fuel : nat) (s : list element) (id : nat) : list char :=
  match fuel with
  | O => []
  | S fuel' =>
      match s !! id with
      | None => []
      | Some el =>
          text_of (el_text el)
          ++ mjoin ((λ child, itertext fuel' s child
                              ++ match s !! child with
                                 | Some c => text_of (el_tail c)
                                 | None => []
                                 end) <$> el_children el)
      end
  end.

(** The text content of the body; no tree is deeper than the store is
    long. *)
Definition body_text (s : list element) : list char := itertext (length s) s body_el.

(** What a row contributes to the text: nothing for a line-break token,
    else its token and a space. *)
Definition token_piece (row : tagged_row) : list char :=
  if is_linebreak (Token (basic row)) then [] else Token (basic row) ++ [space].

Definition joined_tokens (rows : list tagged_row) : list char :=
  mjoin (token_piece <$> rows).

(** Every row that is written into the current span has an I- tag and
    comes directly after a row of an annotation: a token that is no line
    break and whose tag is not O. *)
Definition tight (rows : list tagged_row) : Prop :=
  ∀ i r, rows !! i = Some r → needs_span r = true →
    startswith tag_I (Tag r) = true ∧
    ∃ r', (0 < i)%nat ∧ rows !! (i - 1)%nat = Some r' ∧
          is_linebreak (Token (basic r')) = false ∧ Tag r' ≠ tag_O.

(** The children, the text and the tail of an element of the store. *)
Definition kids (s : list element) (x : nat) : list nat :=
  match s !! x with Some el => el_children el | None => [] end.
Definition txt (s : list element) (x : nat) : list char :=
  match s !! x with Some el => text_of (el_text el) | None => [] end.
Definition tl (s : list element) (x : nat) : list char :=
  match s !! x with Some el => text_of (el_tail el) | None => [] end.

(** The elements below the body in document order: each container (a
    paragraph, or the body itself when no paragraphs are inserted) and
    after it its spans.  A container is marked [true]. *)
Definition nodes (s : list element) (C : list nat) : list (bool * nat) :=
  mjoin ((λ c, (true, c) :: ((λ e, (false, e)) <$> kids s c)) <$> C).

Definition contribution (s : list element) (n : bool * nat) : list char :=
  if n.1 then txt s n.2 else txt s n.2 ++ tl s n.2.

Definition doc_text (s : list element) (C : list nat) : list char :=
  mjoin (contribution s <$> nodes s C).

Definition containers (insert_paragraphs : bool) (st : state) : list nat :=
  if insert_paragraphs then _paragraph_list st else [body_el].

(** The element that receives the next token: the last span of the last
    container, or that container when it has no span yet. *)
Definition cursor (sibling : option nat) (c : nat) : bool * nat :=
  match sibling with
  | Some e => (false, e)
  | None => (true, c)
  end.

(** The ids of a list grow strictly. *)
Definition increasing (l : list nat) : Prop :=
  ∀ i j x y, (i < j)%nat → l !! i = Some x → l !! j = Some y → (x < y)%nat.

(** The invariant of the traversal: the ids grow in document order, the
    cursor is the last node, and the text so far is [W]. *)
Record doc_inv (s : list element) (C : list nat) (sibling : option nat)
    (W : str) : Prop := {
  di_sorted : increasing (snd <$> nodes s C);
  di_bound : ∀ n, n ∈ nodes s C → (n.2 < length s)%nat;
  di_cursor : ∃ N0 c, last C = Some c ∧ nodes s C = N0 ++ [cursor sibling c];
  di_text : doc_text s C = W;
  di_leaf : ∀ n, n ∈ nodes s C → n.1 = false → kids s n.2 = [];
  di_cont : ∀ n, n ∈ nodes s C → n.1 = true → tl s n.2 = []
}.

(** With paragraphs, the containers are the children of the body. *)
Definition body_inv (s : list element) (C : list nat) : Prop :=
  (body_el < length s)%nat ∧ kids s body_el = C ∧ txt s body_el = [] ∧
  ∀ n, n ∈ nodes s C → (body_el < n.2)%nat.

(** The state before row [idx] is reached: nothing is built yet, or the
    document so far reads [W]; a row that is written into the current span
    finds one whose tail is still empty. *)
Definition text_inv (insert_paragraphs : bool) (rows : list tagged_row)
    (idx : nat) (st : state) (W : list char) : Prop :=
  (idx = 0%nat ∧ st = initial_state ∧ W = []) ∨
  (doc_inv (store st) (containers insert_paragraphs st)
     (_last_sibling_element st) W ∧
   (insert_paragraphs = true →
      body_inv (store st) (_paragraph_list st) ∧
      (length (_paragraph_list st) ≤ idx)%nat) ∧
   (∀ r, rows !! idx = Some r → needs_span r = true →
      ∃ e el, _last_sibling_element st = Some e ∧ store st !! e = Some el ∧
              el_tail el = None)).

(** A row that passes the checks of pandas and lxml: its Token cell is
    read as a str; a token that is no line break is an XML text, and the
    class and the id of a row that opens a span are an XML name and an
    XML text. *)
Definition writable (row : tagged_row) : Prop :=
  read_as_nan (Token (basic row)) = false ∧
  (is_linebreak (Token (basic row)) = false →
     xml_text (Token (basic row)) = true ∧
     (opens_span row = true →
        xml_name (drop 2 (Tag row)) = true ∧
        xml_text (Annotation_ID row) = true)).

(** The tag and the attributes of every element of the store, in the
    order in which the elements were created. *)
Definition labels (s : list element) : list (str * list (str * str)) :=
  (λ el, (el_tag el, el_attrib el)) <$> s.

(** The elements that row [idx] adds to the tree: a paragraph when the
    row opens one, and an element named after the class of the row, with
    its annotation id, when the row opens a span. *)
Definition created (insert_paragraphs : bool) (idx : nat) (row : tagged_row)
    : list (str * list (str * str)) :=
  (if insert_paragraphs && starts_paragraph idx row
   then [(TEI ++ lit "p", [])] else [])
  ++ (if opens_span row
      then [(CS1 ++ drop 2 (Tag row),
             [(CS1 ++ lit "annotation", Annotation_ID row)])]
      else []).

End TeiText.

Module AlignFacts.
Import Align Spec.

(** *** Selections of a frame *)

Lemma filter_nil_iff {A} (P : A → Prop) `{!∀ x, Decision (P x)} (l : list A) :
  filter P l = [] ↔ ∀ y, y ∈ l → ¬ P y.
Proof.
  induction l as [|x l IH].
  - split; [intros _ y Hy; inversion Hy | done].
  - rewrite filter_cons. destruct (decide (P x)) as [Hx|Hx].
    + split; [discriminate|]. intros Hall. exfalso. apply (Hall x); [left | done].
    + rewrite IH. split.
      * intros Hall y Hy. apply elem_of_cons in Hy as [->|Hy]; [done | by apply Hall].
      * intros Hall y Hy. apply Hall. by right.
Qed.

Lemma filter_head_first_match {A} (P : A → Prop) `{!∀ x, Decision (P x)}
    (l : list A) (x : A) (rest : list A) :
  filter P l = x :: rest → first_match P l x.
Proof.
  induction l as [|y l IH]; [discriminate|].
  rewrite filter_cons. destruct (decide (P y)) as [Hy|Hy].
  - intros [= -> _]. exists [], l. split; [done|]. split; [done|].
    intros z Hz. inversion Hz.
  - intros Hf. destruct (IH Hf) as (l1 & l2 & -> & Hx & Hl1).
    exists (y :: l1), l2. split; [done|]. split; [done|].
    intros z Hz. apply elem_of_cons in Hz as [->|Hz]; [done | by apply Hl1].
Qed.

Lemma first_match_elem {A} (P : A → Prop) (l : list A) (x : A) :
  first_match P l x → x ∈ l ∧ P x.
Proof.
  intros (l1 & l2 & -> & Hx & _). split; [|done].
  apply elem_of_app. right. left.
Qed.

Lemma first_match_unique {A} (P : A → Prop) (l : list A) (x y : A) :
  first_match P l x → first_match P l y → x = y.
Proof.
  intros (l1 & l2 & -> & Hx & H1) (k1 & k2 & E & Hy & H2).
  revert k1 E H2. induction l1 as [|z l1 IH]; intros [|w k1] E H2; simpl in E.
  - congruence.
  - injection E as <- E. exfalso. apply (H2 x); [left | done].
  - injection E as -> E. exfalso. apply (H1 y); [left | done].
  - injection E as <- E. apply (IH (λ u Hu, H1 u (list_elem_of_further _ _ _ Hu)) k1 E).
    intros u Hu. apply H2. by right.
Qed.

(** *** The masks of the source against the rules of the specification *)

Lemma mask_beginning_spec tb row r :
  is_linebreak (Token row) = false →
  mask_beginning tb row r ↔ starts_at (Text_Pointer row + border_shift tb) r.
Proof.
  intros Hl. unfold mask_beginning, starts_at, col_eq. rewrite Hl. simpl.
  rewrite andb_True. destruct (start_point r) as [s|].
  - rewrite bool_decide_spec. split; [intros [-> _]; done | intros [= ->]; done].
  - split; [intros [[] _] | discriminate].
Qed.

Lemma mask_inner_spec tb row r :
  is_linebreak (Token row) = false →
  mask_inner tb row r ↔ strictly_inside (Text_Pointer row + border_shift tb) r.
Proof.
  intros Hl. unfold mask_inner, strictly_inside, col_lt, col_gt. rewrite Hl. simpl.
  rewrite !andb_True. destruct (start_point r) as [s|], (end_point r) as [e|].
  - rewrite !bool_decide_spec. split.
    + intros [[H1 H2] _]. exists s, e. repeat split; [done | lia].
    + intros (s' & e' & [= <-] & [= <-] & H1 & H2). repeat split; [done | lia].
  - split; [intros [[_ []] _] | intros (s' & e' & _ & [=] & _)].
  - split; [intros [[[] _] _] | intros (s' & e' & [=] & _)].
  - split; [intros [[[] _] _] | intros (s' & e' & [=] & _)].
Qed.

Lemma mask_covering_spec tb row r :
  mask_covering tb row r ↔ covers (Text_Pointer row + border_shift tb) r.
Proof.
  unfold mask_covering, covers, col_le, col_gt, col_sub.
  rewrite andb_True. destruct (start_point r) as [s|], (end_point r) as [e|]; simpl.
  - rewrite !bool_decide_spec. split.
    + intros [H1 H2]. exists s, e. repeat split; lia.
    + intros (s' & e' & [= <-] & [= <-] & H1 & H2). split; lia.
  - split; [intros [_ []] | intros (s' & e' & _ & [=] & _)].
  - split; [intros [[] _] | intros (s' & e' & [=] & _)].
  - split; [intros [[] _] | intros (s' & e' & [=] & _)].
Qed.

Lemma mask_linebreak tb row r :
  is_linebreak (Token row) = true →
  ¬ mask_beginning tb row r ∧ ¬ mask_inner tb row r.
Proof.
  intros Hl. unfold mask_beginning, mask_inner. rewrite Hl. simpl.
  rewrite !andb_false_r. split; intros [].
Qed.

(** *** The three rules of the first loop *)

Lemma new_iob2_tag_B df tb row :
  is_linebreak (Token row) = false →
  (∃ r, r ∈ df ∧ starts_at (Text_Pointer row + border_shift tb) r) →
  ∃ r, first_match (starts_at (Text_Pointer row + border_shift tb)) df r ∧
       new_iob2_tag df tb row = tag_B ++ tag r.
Proof.
  intros Hl (r0 & Hin & Hr0). unfold new_iob2_tag.
  destruct (filter (λ r, mask_beginning tb row r) df) as [|r rest] eqn:E.
  - exfalso. eapply filter_nil_iff in E; [|exact Hin].
    apply E, mask_beginning_spec; done.
  - exists r. split; [|done].
    apply filter_head_first_match in E as (l1 & l2 & -> & Hx & Hl1).
    exists l1, l2. split; [done|]. split.
    + by apply mask_beginning_spec in Hx.
    + intros y Hy Hs. apply (Hl1 y Hy). by apply mask_beginning_spec.
Qed.

Lemma new_iob2_tag_I df tb row :
  is_linebreak (Token row) = false →
  (∀ r, r ∈ df → ¬ starts_at (Text_Pointer row + border_shift tb) r) →
  (∃ r, r ∈ df ∧ strictly_inside (Text_Pointer row + border_shift tb) r) →
  ∃ r, first_match (strictly_inside (Text_Pointer row + border_shift tb)) df r ∧
       new_iob2_tag df tb row = tag_I ++ tag r.
Proof.
  intros Hl Hno (r0 & Hin & Hr0). unfold new_iob2_tag.
  destruct (filter (λ r, mask_beginning tb row r) df) as [|rb restb] eqn:Eb.
  2:{ exfalso. apply filter_head_first_match, first_match_elem in Eb as [Hb1 Hb2].
      apply (Hno rb Hb1). by apply mask_beginning_spec in Hb2. }
  destruct (filter (λ r, mask_inner tb row r) df) as [|r rest] eqn:E.
  - exfalso. eapply filter_nil_iff in E; [|exact Hin].
    apply E, mask_inner_spec; done.
  - exists r. split; [|done].
    apply filter_head_first_match in E as (l1 & l2 & -> & Hx & Hl1).
    exists l1, l2. split; [done|]. split.
    + by apply mask_inner_spec in Hx.
    + intros y Hy Hs. apply (Hl1 y Hy). by apply mask_inner_spec.
Qed.


Lemma new_iob2_tag_linebreak df tb row :
  is_linebreak (Token row) = true → new_iob2_tag df tb row = tag_O.
Proof.
  intros Hl. unfold new_iob2_tag.
  assert (Eb : filter (λ r, mask_beginning tb row r) df = []).
  { apply filter_nil_iff. intros y _. by apply mask_linebreak. }
  assert (Ei : filter (λ r, mask_inner tb row r) df = []).
  { apply filter_nil_iff. intros y _. by apply mask_linebreak. }
  rewrite Eb, Ei. done.
Qed.

(** *** The first loop *)

Lemma first_loop_Ok df tb (tokens : list token_row) : ∀ tags,
  first_loop df tb tokens = Ok tags →
  tags = new_iob2_tags df tb tokens ∧
  ∀ tok, tok ∈ tokens → read_as_nan (Token tok) = false.
Proof.
  induction tokens as [|row rest IH]; intros tags; simpl.
  - intros [= <-]. split; [done|]. intros tok Htok. inversion Htok.
  - destruct (read_as_nan (Token row)) eqn:Hn; [discriminate|].
    destruct (first_loop df tb rest) as [tags'|e]; cbn [bind]; [|discriminate].
    intros [= <-]. destruct (IH tags' eq_refl) as [-> Hall]. split; [done|].
    intros tok [->|Htok]%elem_of_cons; [done | by apply Hall].
Qed.

Lemma first_loop_Raise df tb (tokens : list token_row) : ∀ e,
  first_loop df tb tokens = Raise e →
  e = TypeError ∧ ∃ tok, tok ∈ tokens ∧ read_as_nan (Token tok) = true.
Proof.
  induction tokens as [|row rest IH]; intros e; simpl; [discriminate|].
  destruct (read_as_nan (Token row)) eqn:Hn.
  - intros [= <-]. split; [done|]. exists row. split; [left | done].
  - destruct (first_loop df tb rest) as [tags'|e'] eqn:Hr; cbn [bind]; [discriminate|].
    intros [= <-]. destruct (IH e' eq_refl) as (-> & tok & Htok & Hnan).
    split; [done|]. exists tok. split; [by right | done].
Qed.

Lemma first_loop_text df tb (tokens : list token_row) :
  (∀ tok, tok ∈ tokens → read_as_nan (Token tok) = false) →
  first_loop df tb tokens = Ok (new_iob2_tags df tb tokens).
Proof.
  intros Hall. destruct (first_loop df tb tokens) as [tags|e] eqn:Hf.
  - by destruct (first_loop_Ok _ _ _ _ Hf) as [-> _].
  - destruct (first_loop_Raise _ _ _ _ Hf) as (_ & tok & Htok & Hnan).
    rewrite (Hall tok Htok) in Hnan. discriminate Hnan.
Qed.

(** *** The second loop *)

Lemma found_from_cons (a : str) (n : nat) (x : str) (l : list str) :
  omap (λ ie : nat * str, if decide (ie.2 = a) then Some ie.1 else None)
       (imap (λ i e, ((n + i)%nat, e)) (x :: l))
  = (if decide (x = a) then [n] else []) ++
    omap (λ ie : nat * str, if decide (ie.2 = a) then Some ie.1 else None)
         (imap (λ i e, ((S n + i)%nat, e)) l).
Proof.
  rewrite imap_cons. cbn [omap list_omap fst snd].
  replace (n + 0)%nat with n by lia.
  assert (E : imap ((λ i e, ((n + i)%nat, e)) ∘ S) l
              = imap (λ i (e : str), ((S n + i)%nat, e)) l).
  { apply imap_ext. intros i y _. simpl. f_equal. lia. }
  rewrite E. destruct (decide (x = a)); reflexivity.
Qed.

Lemma found_from_elem (a : str) (l : list str) : ∀ (n i : nat),
  i ∈ omap (λ ie : nat * str, if decide (ie.2 = a) then Some ie.1 else None)
           (imap (λ i e, ((n + i)%nat, e)) l)
  ↔ ∃ j, i = (n + j)%nat ∧ l !! j = Some a.
Proof.
  induction l as [|x l IH]; intros n i.
  - simpl. split; [intros H; inversion H | intros (j & _ & H); discriminate].
  - rewrite found_from_cons, elem_of_app, IH. split.
    + intros [H | (j & -> & H)].
      * destruct (decide (x = a)) as [->|]; [|inversion H].
        apply list_elem_of_singleton in H as ->. exists 0%nat. split; [lia | done].
      * exists (S j). split; [lia | done].
    + intros ([|j] & -> & H).
      * simpl in H. injection H as ->. left. rewrite decide_True by done.
        replace (n + 0)%nat with n by lia. apply list_elem_of_singleton. done.
      * right. exists j. split; [lia | done].
Qed.

Lemma found_from_length (a : str) (l : list str) : ∀ n : nat,
  length (omap (λ ie : nat * str, if decide (ie.2 = a) then Some ie.1 else None)
               (imap (λ i e, ((n + i)%nat, e)) l))
  = length (filter (λ e, e = a) l).
Proof.
  induction l as [|x l IH]; intros n; [done|].
  rewrite found_from_cons, length_app, IH, filter_cons.
  destruct (decide (x = a)); reflexivity.
Qed.

Lemma elem_of_found (ids : list str) (a : str) (i : nat) :
  i ∈ found_token_indices ids a ↔ ids !! i = Some a.
Proof.
  unfold found_token_indices.
  rewrite (found_from_elem a ids 0 i). split.
  - intros (j & -> & H). done.
  - intros H. exists i. done.
Qed.

Lemma length_found (ids : list str) (a : str) :
  length (found_token_indices ids a) = length (filter (λ e, e = a) ids).
Proof. apply (found_from_length a ids 0). Qed.

Lemma count_id_snoc (a b : str) (ids : list str) :
  count_id a (ids ++ [b]) = count_id a ids + (if decide (b = a) then 1 else 0).
Proof.
  unfold count_id. rewrite filter_app, length_app, filter_cons, filter_nil.
  destruct (decide (b = a)); simpl; lia.
Qed.

Lemma first_covering_annotation_elem df anns tb row ann :
  first_covering_annotation df anns tb row = Ok ann → ann ∈ anns.
Proof.
  unfold first_covering_annotation.
  destruct (filter _ df) as [|r rest]; simpl; [discriminate|].
  destruct (anns !! name r) as [a|] eqn:E; [|discriminate].
  intros [= <-]. eapply list_elem_of_lookup_2, E.
Qed.

Lemma id_step_Ok df anns tb st row t st' :
  id_inv st →
  id_step df anns tb st row t = Ok st' →
  id_inv st' ∧
  (ids_distinct_from_none anns → none_inv st → none_inv st') ∧
  ∃ a, row_annotation_id df anns tb row t = Ok a ∧
       annotation_ids st' = annotation_ids st ++ [a].
Proof.
  intros [Hlen Hinv]. unfold id_step, row_annotation_id.
  destruct (bool_decide (t = tag_O) || is_linebreak (Token row)).
  - intros [= <-].
    split; [|split; [|eexists; split; [reflexivity | reflexivity]]].
    + split; cbn [annotation_ids multi_token_annotation].
      * rewrite !length_app. simpl. lia.
      * intros i a Hi Ha. apply lookup_app_Some in Hi as [Hi | [Hge Hi]].
        -- rewrite lookup_app_l by (rewrite <- Hlen; eapply lookup_lt_Some, Hi).
           rewrite (Hinv i a Hi Ha). f_equal.
           rewrite count_id_snoc, decide_False by done. lia.
        -- apply list_lookup_singleton_Some in Hi as [_ <-]. done.
    + intros _ Hnone i. cbn [annotation_ids multi_token_annotation]. intros Hi.
      apply lookup_app_Some in Hi as [Hi | [Hge Hi]].
      * rewrite lookup_app_l by (rewrite <- Hlen; eapply lookup_lt_Some, Hi).
        by apply Hnone.
      * apply list_lookup_singleton_Some in Hi as [Hi _].
        rewrite lookup_app_r by lia.
        replace (i - length (multi_token_annotation st))%nat with 0%nat by lia.
        done.
  - destruct (first_covering_annotation df anns tb row) as [ann|e] eqn:Hc;
      simpl; [|discriminate].
    intros [= <-].
    split; [|split; [|eexists; split; [reflexivity | reflexivity]]].
    + split; cbn [annotation_ids multi_token_annotation].
      * rewrite !length_app, length_imap. simpl. lia.
      * intros i a Hi Ha. apply lookup_app_Some in Hi as [Hi | [Hge Hi]].
        -- pose proof (lookup_lt_Some _ _ _ Hi) as Hlt.
           rewrite lookup_app_l by (rewrite length_imap, <- Hlen; done).
           rewrite list_lookup_imap, (Hinv i a Hi Ha). simpl. f_equal.
           rewrite count_id_snoc.
           destruct (decide (i ∈ found_token_indices (annotation_ids st) (short_id ann)))
             as [Hin | Hnin].
           ++ apply elem_of_found in Hin. rewrite Hi in Hin. injection Hin as ->.
              rewrite decide_True by done. done.
           ++ assert (short_id ann ≠ a) as Hna.
              { intros <-. apply Hnin, elem_of_found, Hi. }
              rewrite decide_False by done. lia.
        -- apply list_lookup_singleton_Some in Hi as [Hi <-].
           rewrite lookup_app_r by (rewrite length_imap; lia).
           rewrite length_imap.
           replace (i - length (multi_token_annotation st))%nat with 0%nat by lia.
           simpl. f_equal. rewrite count_id_snoc, decide_True by done.
           unfold count_id. rewrite length_found. done.
    + intros Hdist Hnone i. cbn [annotation_ids multi_token_annotation]. intros Hi.
      pose proof (Hdist ann (first_covering_annotation_elem _ _ _ _ _ Hc)) as Hne.
      apply lookup_app_Some in Hi as [Hi | [Hge Hi]].
      * pose proof (lookup_lt_Some _ _ _ Hi) as Hlt.
        rewrite lookup_app_l by (rewrite length_imap, <- Hlen; done).
        rewrite list_lookup_imap, (Hnone i Hi). simpl. f_equal.
        rewrite decide_False; [done|].
        intros Hin%elem_of_found. rewrite Hi in Hin. by injection Hin as E.
      * apply list_lookup_singleton_Some in Hi as [_ E]. done.
Qed.

Lemma id_loop_Ok df anns tb rows : ∀ st st',
  id_inv st →
  id_loop df anns tb st rows = Ok st' →
  id_inv st' ∧
  (ids_distinct_from_none anns → none_inv st → none_inv st') ∧
  ∃ new, annotation_ids st' = annotation_ids st ++ new ∧
         Forall2 (λ rt a, row_annotation_id df anns tb rt.1 rt.2 = Ok a) rows new.
Proof.
  induction rows as [|[row t] rest IH]; intros st st' Hinv; simpl.
  - intros [= <-]. split; [done|]. split; [done|]. exists []. rewrite app_nil_r.
    split; [done | constructor].
  - destruct (id_step df anns tb st row t) as [st1|e] eqn:Hs; simpl; [|discriminate].
    intros Hl.
    destruct (id_step_Ok _ _ _ _ _ _ _ Hinv Hs) as (Hinv1 & Hnone1 & a & Ha & Hids).
    destruct (IH st1 st' Hinv1 Hl) as (Hinv' & Hnone' & new & Hnew & HF).
    split; [done|]. split; [auto|]. exists (a :: new).
    rewrite Hnew, Hids, <- app_assoc. split; [done|]. constructor; done.
Qed.

(** The four columns of the assembled table. *)
Lemma assemble_columns (tokens : list token_row) : ∀ (tags ids : list str) (multi : list Z),
  length tags = length tokens →
  length ids = length tokens →
  length multi = length tokens →
  let rows := zip_with (λ rt im, {| basic := rt.1; Tag := rt.2;
                                    Annotation_ID := im.1;
                                    Multi_Token_Annotation := im.2 |})
                (zip tokens tags) (zip ids multi) in
  basic <$> rows = tokens ∧ Tag <$> rows = tags ∧
  Annotation_ID <$> rows = ids ∧ Multi_Token_Annotation <$> rows = multi.
Proof.
  induction tokens as [|tok tokens IH]; intros [|t tags] [|a ids] [|m multi];
    simpl; intros H1 H2 H3; try discriminate; [done|].
  destruct (IH tags ids multi) as (E1 & E2 & E3 & E4); [lia..|].
  cbn zeta in E1, E2, E3, E4.
  repeat split; cbn [fmap list_fmap basic Tag Annotation_ID Multi_Token_Annotation fst snd];
    f_equal; assumption.
Qed.

(** What an emitted table looks like, row by row. *)
Lemma create_Ok_rows anns tokens tb mode rows :
  create_annotated_token_tsv anns tokens tb mode = Ok rows →
  basic <$> rows = tokens ∧
  ∀ row, row ∈ rows →
    Tag row = new_iob2_tag (ac_data_df mode anns) tb (basic row) ∧
    row_annotation_id (ac_data_df mode anns) anns tb (basic row) (Tag row)
      = Ok (Annotation_ID row) ∧
    (Annotation_ID row ≠ id_none →
       Multi_Token_Annotation row
       = count_id (Annotation_ID row) (Annotation_ID <$> rows)) ∧
    (ids_distinct_from_none anns → Annotation_ID row = id_none →
       Multi_Token_Annotation row = 0).
Proof.
  unfold create_annotated_token_tsv.
  set (df := ac_data_df mode anns).
  destruct (first_loop df tb tokens) as [tags0|e] eqn:Hf; cbn [bind];
    [|discriminate].
  apply first_loop_Ok in Hf as [-> _].
  set (tags := new_iob2_tags df tb tokens).
  destruct (id_loop df anns tb _ (zip tokens tags)) as [st|e] eqn:Hl;
    simpl; [|discriminate].
  intros [= <-].
  assert (Hinv0 : id_inv {| annotation_ids := []; multi_token_annotation := [] |}).
  { split; [done|]. intros i a Hi. discriminate. }
  assert (Hnone0 : none_inv {| annotation_ids := []; multi_token_annotation := [] |}).
  { intros i Hi. discriminate. }
  destruct (id_loop_Ok _ _ _ _ _ _ Hinv0 Hl) as ([Hlen Hinv] & Hnone & new & Hnew & HF).
  simpl in Hnew. subst new.
  assert (Htags : length tags = length tokens).
  { unfold tags, new_iob2_tags. apply length_fmap. }
  assert (Hids : length (annotation_ids st) = length tokens).
  { apply Forall2_length in HF. rewrite length_zip in HF. lia. }
  destruct (assemble_columns tokens tags (annotation_ids st)
              (multi_token_annotation st)) as (E1 & E2 & E3 & E4); [lia..|].
  split; [exact E1|].
  intros row Hrow. apply list_elem_of_lookup_1 in Hrow as [i Hi].
  assert (Hb : tokens !! i = Some (basic row)).
  { rewrite <- E1, list_lookup_fmap, Hi. done. }
  assert (Ht : tags !! i = Some (Tag row)).
  { rewrite <- E2, list_lookup_fmap, Hi. done. }
  assert (Ha : annotation_ids st !! i = Some (Annotation_ID row)).
  { rewrite <- E3, list_lookup_fmap, Hi. done. }
  assert (Hm : multi_token_annotation st !! i = Some (Multi_Token_Annotation row)).
  { rewrite <- E4, list_lookup_fmap, Hi. done. }
  assert (Htag : Tag row = new_iob2_tag df tb (basic row)).
  { unfold tags, new_iob2_tags in Ht. rewrite list_lookup_fmap, Hb in Ht.
    simpl in Ht. congruence. }
  split; [exact Htag|]. split; [|split].
  - assert (Hz : zip tokens tags !! i = Some (basic row, Tag row)).
    { apply lookup_zip_Some. done. }
    exact (Forall2_lookup_lr _ _ _ _ _ _ HF Hz Ha).
  - intros Hne. rewrite E3. rewrite (Hinv i _ Ha Hne) in Hm. congruence.
  - intros Hdist E. rewrite E in Ha. rewrite (Hnone Hdist Hnone0 i Ha) in Hm.
    congruence.
Qed.

(** *** The index labels of the frame *)

Lemma explode_name index a r : r ∈ explode index a → name r = index.
Proof.
  unfold explode. destruct (data_items a) as [|it items].
  - intros ->%list_elem_of_singleton. done.
  - intros (it' & -> & _)%list_elem_of_fmap. done.
Qed.

Lemma ac_data_df_name mode anns r :
  r ∈ ac_data_df mode anns → is_Some (anns !! name r).
Proof.
  unfold ac_data_df. destruct mode.
  - intros (l & Hr & Hl)%list_elem_of_join.
    apply elem_of_lookup_imap in Hl as (i & a & -> & Ha).
    rewrite (explode_name _ _ _ Hr), Ha. by eexists.
  - intros (i & a & -> & Ha)%elem_of_lookup_imap. simpl. rewrite Ha. by eexists.
Qed.

End AlignFacts.

(* ===================================================================== *)
(** ** Properties of the punctuation correction *)
(* ===================================================================== *)

Module PunctuationTheorems.
Import Re Punctuation Tei.

Lemma match_here_literal (l : str) : ∀ s, match_here (Lit <$> l) s = startswith l s.
Proof.
  induction l as [|c l IH]; intros [|d s]; simpl; try reflexivity.
  by rewrite IH.
Qed.

Lemma sub_from_literal (l repl : str) : ∀ s k,
  sub_from (Lit <$> l) repl k s = replace_from l repl k s.
Proof.
  induction s as [|c s IH]; intros k; [reflexivity|].
  cbn [sub_from replace_from]. destruct k as [|k]; [|apply IH].
  rewrite match_here_literal, length_fmap, !IH. reflexivity.
Qed.

(** A pattern of literal characters makes [re.sub] the literal
    [str.replace]. *)
Lemma sub_literal (pattern repl l s : str) :
  parse pattern = Ok (Lit <$> l) →
  l ≠ [] →
  backslash ∉ repl →
  Re.sub pattern repl s = Ok (replace l repl s).
Proof.
  intros Hp Hl Hr. unfold Re.sub. rewrite Hp. simpl.
  destruct l as [|c l]; [done|]. simpl.
  rewrite bool_decide_eq_false_2 by done.
  f_equal. apply (sub_from_literal (c :: l)).
Qed.

Lemma apply_corrections_literal (cs rules : list (str * str)) :
  Forall2 same_rule cs rules →
  ∀ s, apply_corrections cs s
       = Ok (foldl (λ acc rule, replace rule.1 rule.2 acc) s rules).
Proof.
  induction 1 as [|c r cs rules (Hp & Hl & Hb & Hr) _ IH]; intros s; [reflexivity|].
  cbn [apply_corrections foldl].
  rewrite (sub_literal _ _ _ _ Hp Hl Hb). simpl. rewrite IH, Hr. reflexivity.
Qed.

Lemma corrections_are_literal : Forall2 same_rule corrections literal_rules.
Proof.
  unfold corrections, literal_rules.
  repeat (apply Forall2_cons; split;
    [ split; [vm_compute; reflexivity|];
      split; [intros E; vm_compute in E; discriminate E|];
      split; [apply (proj1 (bool_decide_eq_false _)); vm_compute; reflexivity
             | reflexivity]
    | ]).
  apply Forall2_nil. done.
Qed.

Lemma fix_punctuation_literal (xml : str) :
  _fix_punctuation xml = Ok (apply_literal_rules xml).
Proof. apply apply_corrections_literal, corrections_are_literal. Qed.

Example fix_punctuation_sample :
  _fix_punctuation (lit "<p>Ja , sagte er : " ++ [187%N] ++ lit " Gut . " ++ [171%N]
                    ++ lit " </p>")
  = Ok (lit "<p>Ja, sagte er: " ++ [187%N] ++ lit "Gut." ++ [171%N] ++ lit "</p>").
Proof. vm_compute. reflexivity. Qed.

(** C8.  The correction is the table of nine literal find and replace
    rules, applied in the order of the table, each to every occurrence in
    the whole string: the space before [.], [,], [:], [;], [?], [!] and
    the closing paragraph tag, the space after » and the space before «;
    the backslashes of the source patterns only quote the marks.  What
    [create_annotated_tei] writes is the serialized tree with these rules
    applied. *)
Theorem punctuation_correction_table :
  (∀ xml, _fix_punctuation xml = Ok (apply_literal_rules xml)) ∧
  Forall deletes_one_space literal_rules ∧
  (∀ (tostring : list element → str) rows insert_paragraphs text_class,
     match build_body insert_paragraphs text_class rows with
     | Ok st =>
         create_annotated_tei tostring rows insert_paragraphs text_class
         = Ok (apply_literal_rules (tostring (store st)))
     | Raise e =>
         create_annotated_tei tostring rows insert_paragraphs text_class = Raise e
     end).
Proof.
  split; [exact fix_punctuation_literal|]. split.
  - unfold literal_rules, deletes_one_space.
    repeat (apply Forall_cons; split; [vm_compute; auto|]). apply Forall_nil. done.
  - intros tostring rows ip tc. unfold create_annotated_tei.
    destruct (build_body ip tc rows) as [st|e]; simpl; [|reflexivity].
    apply fix_punctuation_literal.
Qed.

End PunctuationTheorems.

(* ===================================================================== *)
(** ** Properties of the text window *)
(* ===================================================================== *)

Module WindowTheorems.
Import PySlice Window Align Table.

Lemma adjust_clamp (L v : Z) :
  0 ≤ L → adjust L v = clamp L (from_end L v).
Proof.
  intros HL. unfold adjust, clamp, from_end.
  repeat case_decide; lia.
Qed.

Lemma adjust_range (L v : Z) : 0 ≤ L → 0 ≤ adjust L v ≤ L.
Proof. intros HL. unfold adjust. repeat case_decide; lia. Qed.

Lemma adjust_fixed (L v : Z) : 0 ≤ v ≤ L → adjust L v = v.
Proof. intros Hv. unfold adjust. repeat case_decide; lia. Qed.

Lemma slice_adjusted {A} (s : list A) (lo hi : Z) :
  let L := Z.of_nat (length s) in
  slice s (Some lo) (Some hi) = slice s (Some (adjust L lo)) (Some (adjust L hi)).
Proof.
  intros L. unfold slice. cbn [bound]. fold L.
  assert (HL : 0 ≤ L) by (unfold L; lia).
  rewrite !(adjust_fixed L (adjust L _)) by (apply adjust_range; done).
  reflexivity.
Qed.

(** C9 (as the code has it).  The window is a Python slice: a bound that
    is negative counts from the end of the text (it is raised by the
    length L) and only then are both bounds cut to [0, L]; so bounds that
    are not negative behave as their values cut to [0, L], and the
    selected text is the characters from the lower to the upper cut
    bound.  [create_basic_token_tsv] tokenizes the text of that window and
    [test_text_borders] shows it. *)
Theorem window_is_python_slice (text : str) (lo hi : Z) :
  let L := Z.of_nat (length text) in
  let a := clamp L (from_end L lo) in
  let b := clamp L (from_end L hi) in
  select_text text (Some (lo, hi)) = select_text text (Some (a, b)) ∧
  select_text text (Some (lo, hi))
    = take (Z.to_nat (b - a)) (drop (Z.to_nat a) text) ∧
  (∀ n, test_text_borders text (Some (lo, hi)) n
        = test_text_borders text (Some (a, b)) n) ∧
  (∀ (file : Type) (get_spacy_df : str → list token_row)
     (to_csv : list token_row → file),
     create_basic_token_tsv get_spacy_df to_csv text (Some (lo, hi))
     = create_basic_token_tsv get_spacy_df to_csv text (Some (a, b))) ∧
  (0 ≤ lo → 0 ≤ hi →
     select_text text (Some (lo, hi))
     = select_text text (Some (clamp L lo, clamp L hi))).
Proof.
  intros L a b.
  assert (HL : 0 ≤ L) by (unfold L; lia).
  assert (Ha : adjust L lo = a) by (apply adjust_clamp; done).
  assert (Hb : adjust L hi = b) by (apply adjust_clamp; done).
  assert (E : slice text (Some lo) (Some hi) = slice text (Some a) (Some b)).
  { rewrite slice_adjusted. fold L. by rewrite Ha, Hb. }
  split; [exact E|]. split; [|split; [|split]].
  - unfold select_text, slice. cbn [bound]. fold L. by rewrite Ha, Hb.
  - intros n. unfold test_text_borders. by rewrite E.
  - intros file get_spacy_df to_csv. unfold create_basic_token_tsv, select_text.
    by rewrite E.
  - intros Hlo Hhi. unfold select_text. rewrite E. unfold a, b, from_end.
    by rewrite !decide_False by lia.
Qed.

Lemma window_is_python_slice_witness :
  0 ≤ 3 ∧ 0 ≤ 50 ∧
  select_text (lit "abcdefghij") (Some (3, 50))
  = select_text (lit "abcdefghij") (Some (clamp 10 3, clamp 10 50)).
Proof.
  split; [lia|]. split; [lia|].
  apply (window_is_python_slice (lit "abcdefghij") 3 50); lia.
Defined.

(** C9 (as the specification words it) fails: on a text of ten
    characters the window (-3, 5) selects nothing, where the bounds cut to
    [0, 10], that is (0, 5), select the first five characters. *)
Lemma negative_start_is_not_clamped :
  select_text (lit "abcdefghij") (Some (-3, 5)) = [] ∧
  select_text (lit "abcdefghij") (Some (clamp 10 (-3), clamp 10 5)) = lit "abcde" ∧
  select_text (lit "abcdefghij") (Some (-3, 5))
  ≠ select_text (lit "abcdefghij") (Some (clamp 10 (-3), clamp 10 5)).
Proof.
  split; [vm_compute; reflexivity|]. split; [vm_compute; reflexivity|].
  vm_compute. intros E. discriminate E.
Qed.

End WindowTheorems.

(* ===================================================================== *)
(** ** Properties of the token tables *)
(* ===================================================================== *)

Module TableTheorems.
Import Align Table.

Lemma escape_cons_newline (s : str) :
  escape_linebreaks (newline :: s) = linebreak_marker ++ escape_linebreaks s.
Proof. reflexivity. Qed.

Lemma escape_cons_other (c : char) (s : str) :
  c ≠ newline → escape_linebreaks (c :: s) = c :: escape_linebreaks s.
Proof.
  intros Hc. unfold escape_linebreaks, replace. cbn [replace_from startswith].
  rewrite bool_decide_eq_false_2 by congruence. reflexivity.
Qed.

(** The escaping leaves exactly the texts without a newline as they are. *)
Lemma escape_fixed_iff (s : str) : escape_linebreaks s = s ↔ newline ∉ s.
Proof.
  induction s as [|c s IH].
  - split; [intros _ H; inversion H | reflexivity].
  - destruct (decide (c = newline)) as [->|Hc].
    + rewrite escape_cons_newline. split.
      * intros E. vm_compute in E. discriminate E.
      * intros Hn. exfalso. apply Hn. left.
    + rewrite escape_cons_other by done. rewrite not_elem_of_cons. split.
      * intros [= E]. split; [congruence | by apply IH].
      * intros [_ Hs]. f_equal. by apply IH.
Qed.

(** No newline is left in an escaped text. *)
Lemma escape_no_newline (s : str) : newline ∉ escape_linebreaks s.
Proof.
  induction s as [|c s IH]; [intros H; inversion H|].
  destruct (decide (c = newline)) as [->|Hc].
  - rewrite escape_cons_newline. unfold linebreak_marker. simpl.
    rewrite !not_elem_of_cons. split; [vm_compute; intros E; discriminate E|].
    split; [vm_compute; intros E; discriminate E | done].
  - rewrite escape_cons_other by done. rewrite not_elem_of_cons. split; [congruence | done].
Qed.

Lemma basic_token_frame_fixed_iff (x : list token_row) :
  basic_token_frame x = x ↔ ∀ r, r ∈ x → newline ∉ Token r.
Proof.
  unfold basic_token_frame. induction x as [|r x IH].
  - split; [intros _ r H; inversion H | reflexivity].
  - rewrite fmap_cons. split.
    + intros [= E1 E2] r' Hr'. apply elem_of_cons in Hr' as [->|Hr'].
      * apply escape_fixed_iff. by rewrite <- E1 at 2.
      * by apply IH.
    + intros Hall. rewrite (proj2 IH) by (intros r' Hr'; apply Hall; by right).
      f_equal. destruct r as [i p t]. simpl. f_equal.
      apply escape_fixed_iff, (Hall _ (list_elem_of_here _ _)).
Qed.

(** C4 (as the code has it).  Given a CSV layer that returns the frame it
    was handed: reading a written basic table returns the tokens with
    every newline of a token text replaced by the two characters
    backslash and n, since no read step undoes the escaping; this is the
    token sequence itself exactly when no token text holds a newline.  The
    annotated table is written without escaping and read back as it was
    written. *)
Theorem token_tables_round_trip_up_to_escaping
    {file file' : Type}
    (to_csv : list token_row → file) (read_csv : file → list token_row)
    (to_csv_annotated : list tagged_row → file')
    (read_csv_annotated : file' → list tagged_row)
    (x : list token_row) (y : list tagged_row) :
  read_csv (to_csv (basic_token_frame x)) = basic_token_frame x →
  read_csv_annotated (to_csv_annotated y) = y →
  read_basic_table read_csv (write_basic_table to_csv x) = basic_token_frame x ∧
  (read_basic_table read_csv (write_basic_table to_csv x) = x
   ↔ ∀ r, r ∈ x → newline ∉ Token r) ∧
  (∀ r, r ∈ read_basic_table read_csv (write_basic_table to_csv x) →
        newline ∉ Token r) ∧
  read_annotated_table read_csv_annotated
    (write_annotated_table to_csv_annotated y) = y.
Proof.
  intros Hcsv Hcsv'. unfold read_basic_table, write_basic_table,
    read_annotated_table, write_annotated_table.
  rewrite Hcsv. split; [reflexivity|]. split; [apply basic_token_frame_fixed_iff|].
  split; [|exact Hcsv'].
  intros r (r0 & -> & _)%list_elem_of_fmap. simpl. apply escape_no_newline.
Qed.

Lemma token_tables_round_trip_witness :
  rows_of_cells (cells_of_rows (basic_token_frame Examples.two_lines))
    = basic_token_frame Examples.two_lines ∧
  read_basic_table rows_of_cells
    (write_basic_table cells_of_rows Examples.two_lines) = Examples.two_lines.
Proof.
  split; [reflexivity|].
  apply (token_tables_round_trip_up_to_escaping
           cells_of_rows rows_of_cells (λ y, y) (λ f, f) Examples.two_lines []);
    [reflexivity | reflexivity |].
  intros r Hr.
  repeat (apply elem_of_cons in Hr as [-> | Hr]);
    [ apply (proj1 (bool_decide_eq_false _)); vm_compute; reflexivity .. | inversion Hr ].
Defined.

(** C4 (as the specification words it) fails: a token whose text is a
    newline and a token whose text is a backslash followed by n are written
    as the same table, so no way of reading gives back both; with a layer
    that returns the cells as written, the newline token is read back as
    the backslash token. *)
Lemma newline_token_does_not_round_trip :
  [newline_token] ≠ [backslash_n_token] ∧
  basic_token_frame [newline_token] = basic_token_frame [backslash_n_token] ∧
  read_basic_table rows_of_cells (write_basic_table cells_of_rows [newline_token])
    = [backslash_n_token] ∧
  ¬ ∃ (file : Type) (to_csv : list token_row → file)
      (read_csv : file → list token_row),
      read_basic_table read_csv (write_basic_table to_csv [newline_token])
        = [newline_token] ∧
      read_basic_table read_csv (write_basic_table to_csv [backslash_n_token])
        = [backslash_n_token].
Proof.
  split; [vm_compute; intros E; discriminate E|].
  split; [vm_compute; reflexivity|].
  split; [vm_compute; reflexivity|].
  intros (file & to_csv & read_csv & H1 & H2).
  unfold read_basic_table, write_basic_table in H1, H2.
  assert (E : basic_token_frame [newline_token] = basic_token_frame [backslash_n_token])
    by (vm_compute; reflexivity).
  rewrite E, H2 in H1. vm_compute in H1. discriminate H1.
Qed.

End TableTheorems.

(* ===================================================================== *)
(** ** Properties of the document traversal *)
(* ===================================================================== *)

Module TeiFacts.
Import Align Tei TeiSpec.

Lemma paragraph_recognition_eltec (token : str) :
  _paragraph_recognition token eltec_deu
  = Ok (is_linebreak token && bool_decide (length token < paragraph_threshold)%nat).
Proof.
  unfold _paragraph_recognition. cbn [list_find].
  rewrite decide_True by reflexivity. reflexivity.
Qed.

(** The names that the traversal itself gives: the paragraph, and the
    attribute of a span. *)
Lemma SubElement_p parent (s : list element) :
  SubElement parent (TEI ++ lit "p") [] s
  = Ok (with_child parent (TEI ++ lit "p") [] s).
Proof. reflexivity. Qed.

Lemma local_name_CS1 (name : str) : local_name (CS1 ++ name) = Some name.
Proof. reflexivity. Qed.

Lemma SubElement_span parent (class id : str) (s : list element) :
  SubElement parent (CS1 ++ class) [(CS1 ++ lit "annotation", id)] s
  = if xml_name class && xml_text id
    then Ok (with_child parent (CS1 ++ class) [(CS1 ++ lit "annotation", id)] s)
    else Raise ValueError.
Proof.
  unfold SubElement, valid_tag. rewrite !local_name_CS1.
  cbn [forallb fst snd].
  replace (xml_name (lit "annotation")) with true by (vm_compute; reflexivity).
  cbn [andb]. by rewrite andb_true_r.
Qed.

Lemma open_paragraph_eltec ip idx row st :
  open_paragraph ip eltec_deu idx row st
  = Ok (if ip && starts_paragraph idx row then with_new_paragraph idx st else st).
Proof.
  unfold open_paragraph, starts_paragraph. destruct ip; [|reflexivity].
  rewrite paragraph_recognition_eltec.
  destruct (bool_decide (idx = 0%nat)); simpl; [reflexivity|].
  destruct (is_linebreak (Token (basic row))
            && bool_decide (length (Token (basic row)) < paragraph_threshold)%nat);
    reflexivity.
Qed.

Lemma py_insert_length {A} (i : nat) (x : A) (l : list A) :
  length (py_insert i x l) = S (length l).
Proof.
  unfold py_insert. rewrite length_app. simpl.
  rewrite length_take, length_drop. lia.
Qed.

Lemma py_insert_end {A} (i : nat) (x : A) (l : list A) :
  (length l ≤ i)%nat → py_insert i x l = l ++ [x].
Proof.
  intros Hi. unfold py_insert. rewrite take_ge, drop_ge by lia. reflexivity.
Qed.

Lemma py_last_Ok {A} (l : list A) : l ≠ [] → ∃ x, py_last l = Ok x.
Proof.
  intros Hl. unfold py_last. destruct (last l) as [x|] eqn:E; [by exists x|].
  apply last_None in E. done.
Qed.

Lemma span_token_Ok rows idx row e s :
  xml_text (Token (basic row)) = true →
  ∃ s', span_token rows idx row e s = Ok s'.
Proof.
  intros Hx. unfold span_token. rewrite Hx.
  destruct (bool_decide (Z.of_nat idx < Z.of_nat (length rows) - 1)) eqn:Hb;
    [|by eexists].
  apply bool_decide_eq_true in Hb.
  destruct (lookup_lt_is_Some_2 rows (S idx)) as [next Hn]; [lia|].
  rewrite Hn. cbn [bind]. destruct (startswith tag_I (Tag next)); eexists; reflexivity.
Qed.


(** What placing a token does to the two variables of the traversal:
    it fails with AttributeError when the row is written into the current
    span and none is open; else it places the token, or lxml refuses a
    name or a text with ValueError. *)
Lemma place_token_cases ip rows idx row st :
  (ip = true → _paragraph_list st ≠ []) →
  (needs_span row = true ∧ _last_sibling_element st = None ∧
   place_token ip rows idx row st = Raise AttributeError)
  ∨ (∃ st', place_token ip rows idx row st = Ok st' ∧
            _paragraph_list st' = _paragraph_list st ∧
            (needs_span row = true → is_Some (_last_sibling_element st)) ∧
            (is_Some (_last_sibling_element st')
             ↔ opens_span row = true ∨ is_Some (_last_sibling_element st)))
  ∨ (place_token ip rows idx row st = Raise ValueError ∧
     (needs_span row = true → is_Some (_last_sibling_element st))).
Proof.
  intros Hpl. unfold place_token, needs_span, opens_span.
  assert (Hparent : ∃ p, (if ip then py_last (_paragraph_list st) else Ok body_el) = Ok p).
  { destruct ip; [apply py_last_Ok; auto | by eexists]. }
  destruct Hparent as [p Hp].
  destruct (is_linebreak (Token (basic row))); cbn [negb andb].
  { right. left. eexists. split; [reflexivity|]. split; [reflexivity|].
    split; [discriminate|]. split; [by right | by intros [[=]|?]]. }
  destruct (bool_decide (Tag row = tag_O)); cbn [negb andb].
  { right. destruct (_last_sibling_element st) as [e|] eqn:El.
    - destruct (xml_text (Token (basic row))).
      + left. eexists. split; [reflexivity|]. split; [reflexivity|].
        split; [discriminate|]. cbn [_last_sibling_element].
        split; [by right | by intros _; eexists].
      + right. split; [reflexivity | discriminate].
    - rewrite Hp. cbn [bind]. destruct (xml_text (Token (basic row))).
      + left. eexists. split; [reflexivity|]. split; [reflexivity|].
        split; [discriminate|]. cbn [_last_sibling_element].
        split; [by right | by intros [[=]|?]].
      + right. split; [reflexivity | discriminate]. }
  destruct (startswith tag_B (Tag row)); cbn [negb andb].
  { right. rewrite Hp. cbn [bind]. rewrite SubElement_span.
    destruct (xml_name (drop 2 (Tag row)) && xml_text (Annotation_ID row));
      cbn [bind]; [|right; split; [reflexivity | discriminate]].
    unfold span_token.
    destruct (xml_text (Token (basic row))) eqn:Hx;
      [|right; split; [reflexivity | discriminate]].
    match goal with
    | |- context [with_child ?a ?b ?c ?d] => set (se := with_child a b c d)
    end.
    destruct (span_token_Ok rows idx row se.1 se.2 Hx) as [s' Hs].
    unfold span_token in Hs. rewrite Hx in Hs. rewrite Hs. cbn [bind].
    left. eexists. split; [reflexivity|]. split; [reflexivity|].
    split; [discriminate|]. cbn [_last_sibling_element].
    split; [by left | by intros _; eexists]. }
  destruct (_last_sibling_element st) as [e|] eqn:El.
  - right. destruct (xml_text (Token (basic row))) eqn:Hx.
    + destruct (span_token_Ok rows idx row e (store st) Hx) as [s' Hs].
      rewrite Hs. cbn [bind]. left. eexists. split; [reflexivity|].
      split; [reflexivity|].
      split; [by intros _; eexists|]. cbn [_last_sibling_element].
      split; [by right | by intros _; eexists].
    + right. unfold span_token. rewrite Hx. split; [reflexivity|].
      by intros _; eexists.
  - left. done.
Qed.

Lemma boundary_closes ip rows (i : nat) : boundary_at ip rows i → ¬ open_at ip rows i.
Proof.
  intros Hb (j & Hj & _ & Hno). apply (Hno i); [lia | done].
Qed.

Lemma open_at_before ip rows (i : nat) :
  ¬ boundary_at ip rows i → open_at ip rows i ↔ open_before ip rows i.
Proof.
  intros Hnb. split; intros (j & Hj & Ho & Hno); exists j; (split; [done|]);
    (split; [done|]); intros k Hk.
  - apply Hno. lia.
  - destruct (decide (k = i)) as [->|]; [done|]. apply Hno. lia.
Qed.

Lemma open_before_S ip rows (i : nat) :
  open_before ip rows (S i) ↔ opener_at rows i ∨ open_at ip rows i.
Proof.
  split.
  - intros (j & Hj & Ho & Hno). destruct (decide (j = i)) as [->|]; [by left|].
    right. exists j. split; [lia|]. split; [done|]. intros k Hk. apply Hno. lia.
  - intros [Ho | (j & Hj & Ho & Hno)].
    + exists i. split; [lia|]. split; [done|]. intros k Hk. lia.
    + exists j. split; [lia|]. split; [done|]. intros k Hk. apply Hno. lia.
Qed.

(** The traversal from row [idx] on: when it ends well, every row that is
    written into the current span found one open; it fails with
    AttributeError only at a row that found none. *)
Lemma tei_loop_spans ip rows (rest : list tagged_row) : ∀ idx st,
  drop idx rows = rest →
  (is_Some (_last_sibling_element st) ↔ open_before ip rows idx) →
  (ip = true → idx ≠ 0%nat → _paragraph_list st ≠ []) →
  match tei_loop ip eltec_deu rows idx rest st with
  | Ok st' =>
      ∀ i r, (idx ≤ i)%nat → rows !! i = Some r → needs_span r = true →
             open_at ip rows i
  | Raise e =>
      e = AttributeError →
      ∃ i r, (idx ≤ i)%nat ∧ rows !! i = Some r ∧ needs_span r = true ∧
             ¬ open_at ip rows i
  end.
Proof.
  induction rest as [|row rest IH]; intros idx st Hdrop Hopen Hpl.
  - simpl. intros i r Hi Hr. exfalso.
    apply lookup_lt_Some in Hr.
    assert (length (drop idx rows) = 0%nat) by (by rewrite Hdrop).
    rewrite length_drop in *. lia.
  - assert (Hrow : rows !! idx = Some row).
    { rewrite <- (Nat.add_0_r idx), <- lookup_drop, Hdrop. done. }
    assert (Hrest : drop (S idx) rows = rest).
    { rewrite (drop_S _ _ _ Hrow) in Hdrop. by injection Hdrop. }
    cbn [tei_loop]. unfold tei_step.
    destruct (read_as_nan (Token (basic row))); cbn [bind]; [discriminate|].
    rewrite open_paragraph_eltec. cbn [bind].
    set (st1 := if ip && starts_paragraph idx row
                then with_new_paragraph idx st else st).
    assert (Hb : ip && starts_paragraph idx row = true ↔ boundary_at ip rows idx).
    { rewrite andb_true_iff. split.
      - intros [-> Hs]. by exists row.
      - intros (r & Hr & -> & Hs). rewrite Hrow in Hr. injection Hr as <-. done. }
    assert (Hopen1 : is_Some (_last_sibling_element st1) ↔ open_at ip rows idx).
    { unfold st1. destruct (ip && starts_paragraph idx row) eqn:Eb.
      - simpl. split; [by intros [? [=]]|].
        intros Ho. exfalso. by apply (boundary_closes ip rows idx); [apply Hb|].
      - rewrite Hopen. symmetry. apply open_at_before.
        intros Hbd. apply Hb in Hbd. congruence. }
    assert (Hpl1 : ip = true → _paragraph_list st1 ≠ []).
    { intros Hip. unfold st1. destruct (ip && starts_paragraph idx row) eqn:Eb.
      - simpl. intros E. apply (f_equal length) in E.
        rewrite py_insert_length in E. discriminate E.
      - apply Hpl; [done|]. intros ->. subst ip. done. }
    destruct (place_token_cases ip rows idx row st1 Hpl1)
      as [(Hneed & Hnone & ->) | [(st' & -> & Hpl' & Hneed & Hlast) | [-> _]]];
      cbn [bind]; [| |discriminate].
    + intros _. exists idx, row. split; [lia|]. split; [done|].
      split; [done|]. intros Ho. apply Hopen1 in Ho. rewrite Hnone in Ho.
      by destruct Ho.
    + assert (Hopen' : is_Some (_last_sibling_element st')
                       ↔ open_before ip rows (S idx)).
      { rewrite Hlast, open_before_S, Hopen1. split.
        - intros [Ho | Ho]; [left; by exists row | by right].
        - intros [(r & Hr & Ho) | Ho]; [left | by right].
          rewrite Hrow in Hr. injection Hr as <-. done. }
      specialize (IH (S idx) st' Hrest Hopen').
      destruct (tei_loop ip eltec_deu rows (S idx) rest st') as [st''|e].
      * intros i r Hi Hr Hn. destruct (decide (i = idx)) as [->|Hne].
        -- rewrite Hrow in Hr. injection Hr as <-. by apply Hopen1, Hneed.
        -- apply (IH ltac:(intros; rewrite Hpl'; auto) i r); [lia | done | done].
      * intros He. destruct IH as (i & r & Hi & Hr & Hn & Hno); [|done|].
        { intros; rewrite Hpl'; auto. }
        exists i, r. split; [lia|]. done.
Qed.


End TeiFacts.

(* ===================================================================== *)
(** ** Properties of the alignment *)
(* ===================================================================== *)

Module AlignTheorems.
Import Align Spec Examples AlignFacts.

(** The examples of the specification. *)
Example short_id_of_catma_id :
  short_id {| data_id := lit "CATMA_ED4DC66A-AB87-11EF-946B-4E82A94C69C5";
              data_items := []; df_tag := []; df_start_point := 0;
              df_end_point := 0 |}
  = lit "ED4DC66A-AB87-11EF-946B-4E82A94C69C5".
Proof. vm_compute. reflexivity. Qed.

Example red_fox_one_segment :
  (λ r, (Tag r, Annotation_ID r, Multi_Token_Annotation r)) <$>
    match create_annotated_token_tsv [nested_annotation] the_red_fox None true with
    | Ok rows => rows
    | Raise _ => []
    end
  = [ (lit "O", lit "none", 0); (lit "B-Color", lit "A1", 1);
      (lit "O", lit "none", 0) ].
Proof. vm_compute. reflexivity. Qed.

Example red_fox_boundary_mode :
  Tag <$>
    match create_annotated_token_tsv [color_two_segments] the_red_fox None false with
    | Ok rows => rows
    | Raise _ => []
    end
  = [ lit "B-Color"; lit "I-Color"; lit "I-Color" ].
Proof. vm_compute. reflexivity. Qed.

Lemma rows_lookup_token (rows : list tagged_row) (tokens : list token_row) i tok :
  basic <$> rows = tokens →
  tokens !! i = Some tok →
  ∃ row, rows !! i = Some row ∧ basic row = tok.
Proof.
  intros <- Hi. rewrite list_lookup_fmap in Hi.
  destruct (rows !! i) as [row|]; [|discriminate].
  injection Hi as <-. by exists row.
Qed.

Lemma length_filter_fmap {A B} (f : A → B) (P : B → Prop)
    `{!∀ y, Decision (P y)} (l : list A) :
  length (filter P (f <$> l)) = length (filter (λ x, P (f x)) l).
Proof.
  induction l as [|x l IH]; [done|].
  rewrite fmap_cons, !filter_cons. destruct (decide (P (f x))); simpl; lia.
Qed.

Lemma filter_ext_elem {A} (P Q : A → Prop) `{!∀ x, Decision (P x)}
    `{!∀ x, Decision (Q x)} (l : list A) :
  (∀ x, x ∈ l → P x ↔ Q x) → filter P l = filter Q l.
Proof.
  induction l as [|x l IH]; intros Hpq; [done|].
  rewrite !filter_cons.
  assert (Hx : P x ↔ Q x) by (apply Hpq; left).
  rewrite IH by (intros y Hy; apply Hpq; by right).
  destruct (decide (P x)), (decide (Q x)); tauto.
Qed.

Lemma fmap_filter_const {A} (f : A → Z) (P : A → Prop)
    `{!∀ x, Decision (P x)} (l : list A) (v : Z) :
  (∀ x, x ∈ l → P x → f x = v) →
  f <$> filter P l = replicate (length (filter P l)) v.
Proof.
  induction l as [|x l IH]; intros Hv; [done|].
  rewrite filter_cons. destruct (decide (P x)) as [Hx|Hx].
  - simpl. rewrite (Hv x) by (done || left).
    f_equal. apply IH. intros y Hy. apply Hv. by right.
  - apply IH. intros y Hy. apply Hv. by right.
Qed.

(** An unmatched row is written with the sentinel, a matched one with the
    short id of an annotation. *)
Lemma row_annotation_id_unmatched df anns tb row a :
  unmatched row →
  row_annotation_id df anns tb (basic row) (Tag row) = Ok a → a = id_none.
Proof.
  unfold unmatched, row_annotation_id. intros [-> | ->].
  - rewrite bool_decide_eq_true_2 by done. simpl. congruence.
  - rewrite orb_true_r. congruence.
Qed.

Lemma row_annotation_id_matched df anns tb row a :
  ¬ unmatched row →
  row_annotation_id df anns tb (basic row) (Tag row) = Ok a →
  ∃ ann, ann ∈ anns ∧ a = short_id ann.
Proof.
  unfold unmatched, row_annotation_id. intros Hu.
  destruct (bool_decide (Tag row = tag_O)) eqn:Ht.
  { exfalso. apply Hu. left. by apply bool_decide_eq_true in Ht. }
  destruct (is_linebreak (Token (basic row))) eqn:Hl.
  { exfalso. apply Hu. by right. }
  simpl.
  destruct (first_covering_annotation df anns tb (basic row)) as [ann|] eqn:Hc;
    simpl; [|discriminate].
  intros [= <-]. exists ann. split; [|done].
  eapply first_covering_annotation_elem, Hc.
Qed.

(** C1 (as the code has it).  On a table that is emitted, every token of
    an annotation id other than the sentinel ['none'] that is realized by
    n tokens carries the value n, the number of tokens of the annotation:
    the values of such an annotation in token order are n, n, ..., n.  A
    token matched by no annotation carries the sentinel ['none'] and, as
    long as no annotation's short id is that sentinel, the value 0; a
    matched token carries the short id of an annotation. *)
Theorem multi_token_value_is_annotation_size anns tokens tb mode rows :
  create_annotated_token_tsv anns tokens tb mode = Ok rows →
  (∀ a, a ≠ id_none →
     let n := length (filter (λ r, Annotation_ID r = a) rows) in
     multi_values_of a rows = replicate n (Z.of_nat n)) ∧
  (∀ row, row ∈ rows →
     (unmatched row →
        Annotation_ID row = id_none ∧
        (ids_distinct_from_none anns → Multi_Token_Annotation row = 0)) ∧
     (¬ unmatched row →
        ∃ ann, ann ∈ anns ∧ Annotation_ID row = short_id ann)).
Proof.
  intros Hrun.
  destruct (create_Ok_rows _ _ _ _ _ Hrun) as [Hb Hrows].
  split.
  - intros a Ha n. unfold multi_values_of. apply fmap_filter_const.
    intros row Hrow <-. destruct (Hrows row Hrow) as (_ & _ & Hm & _).
    rewrite (Hm Ha). unfold count_id.
    by rewrite (length_filter_fmap Annotation_ID (λ e, e = Annotation_ID row)).
  - intros row Hrow. destruct (Hrows row Hrow) as (_ & Hid & _ & Hm0). split.
    + intros Hu. pose proof (row_annotation_id_unmatched _ _ _ _ _ Hu Hid) as E.
      split; [done|]. intros Hdist. by apply Hm0.
    + intros Hu. by apply (row_annotation_id_matched _ _ _ _ _ Hu Hid).
Qed.

Lemma multi_token_value_witness :
  ∃ rows,
    create_annotated_token_tsv [color_two_segments] the_red_fox None true = Ok rows ∧
    multi_values_of (lit "C0FFEE") rows = [2; 2].
Proof.
  eexists. split; [vm_compute; reflexivity|].
  refine (proj1 (multi_token_value_is_annotation_size
                   [color_two_segments] the_red_fox None true _ eq_refl)
            (lit "C0FFEE") _).
  vm_compute. intros E. discriminate E.
Defined.

(** C1 (as the specification words it) fails: the annotation of the
    specification's own example, two segments (0,3) and (8,11) over
    ["The red fox"], is realized by two tokens and both carry 2, where the
    specification expects 1 and 2. *)
Lemma multi_token_values_not_dense :
  ∃ rows,
    create_annotated_token_tsv [color_two_segments] the_red_fox None true = Ok rows ∧
    multi_values_of (lit "C0FFEE") rows = [2; 2] ∧
    ¬ dense_1_to_n rows.
Proof.
  eexists. split; [vm_compute; reflexivity|].
  split; [vm_compute; reflexivity|].
  intros Hd. specialize (Hd (lit "C0FFEE")).
  assert (Hne : lit "C0FFEE" ≠ id_none) by (vm_compute; intros E; discriminate E).
  specialize (Hd Hne). vm_compute in Hd. discriminate Hd.
Qed.







(** C2 (the code departs from it).  With an annotation over (0,10) and a
    second annotation over (4,7) nested in it, the token at offset 4 gets
    its tag from the second annotation, the first one whose segment starts
    at 4, and its Annotation_ID from the first: the id is looked up with
    the range test of lines 214-217, not with the row that gave the tag.
    [to_stanford_tsv], which tags with that range test, gives the token
    the class of the first annotation. *)
Theorem nested_annotation_tag_and_id_differ :
  ∃ r0 row r2,
    create_annotated_token_tsv [outer_annotation; nested_annotation]
      the_red_fox None true = Ok [r0; row; r2] ∧
    Text_Pointer (basic row) = 4 ∧
    first_match (starts_at 4) (ac_data_df true [outer_annotation; nested_annotation])
      {| name := 1; start_point := Some 4; end_point := Some 7;
         tag := df_tag nested_annotation |} ∧
    Tag row = tag_B ++ df_tag nested_annotation ∧
    Annotation_ID row = short_id outer_annotation ∧
    short_id outer_annotation ≠ short_id nested_annotation ∧
    to_stanford_tsv_tag (ac_data_df false [outer_annotation; nested_annotation])
      (basic row) = df_tag outer_annotation.
Proof.
  eexists _, _, _. split; [vm_compute; reflexivity|]. split; [reflexivity|].
  split; [|split; [vm_compute; reflexivity|split; [vm_compute; reflexivity|
    split; [|vm_compute; reflexivity]]]].
  - eexists [_], []. split; [vm_compute; reflexivity|]. split; [reflexivity|].
    intros y Hy. apply list_elem_of_singleton in Hy as ->.
    vm_compute. intros E. discriminate E.
  - vm_compute. intros E. discriminate E.
Qed.

(** C5 (the code departs from it).  A segment (4,4) of length zero gives
    the token at offset 4 the tag B- of its class: without it the token is
    I- of the annotation around it.  Alone, the zero-length segment makes
    the second loop raise IndexError, since its range test holds no
    offset; [to_stanford_tsv], which tags with that range test, leaves the
    token O. *)
Theorem zero_length_segment_tags_token :
  (∃ r0 row r2,
     create_annotated_token_tsv [outer_annotation; zero_length_annotation]
       the_red_fox None true = Ok [r0; row; r2] ∧
     Text_Pointer (basic row) = 4 ∧ Tag row = lit "B-Color") ∧
  (∃ r0 row r2,
     create_annotated_token_tsv [outer_annotation]
       the_red_fox None true = Ok [r0; row; r2] ∧
     Text_Pointer (basic row) = 4 ∧ Tag row = lit "I-Phrase") ∧
  create_annotated_token_tsv [zero_length_annotation] the_red_fox None true
    = Raise IndexError ∧
  to_stanford_tsv_tag (ac_data_df false [zero_length_annotation])
    {| Token_ID := 1; Text_Pointer := 4; Token := lit "red" |} = lit "O".
Proof.
  split; [|split; [|split]].
  - eexists _, _, _. split; [vm_compute; reflexivity|]. split; reflexivity.
  - eexists _, _, _. split; [vm_compute; reflexivity|]. split; reflexivity.
  - vm_compute. reflexivity.
  - vm_compute. reflexivity.
Qed.

(** A token that [pd.read_csv] reads as a missing value ends the
    alignment with TypeError in the first loop, whatever the segments
    are: no table is written for the tokens Die, null, ist. *)
Example null_token_ends_the_alignment :
  create_annotated_token_tsv [nested_annotation] die_null_ist None true
  = Raise TypeError.
Proof. vm_compute. reflexivity. Qed.

End AlignTheorems.

Module TeiTheorems.
Import Align Tei TeiSpec Examples TeiFacts PunctuationTheorems.



(** On an annotated token table the precondition of the specification
    says that every row that is written into the current span finds one
    open. *)
Lemma every_I_after_some_B_on_pipeline_tables ip (rows : list tagged_row) :
  annotated_token_table rows →
  every_I_after_some_B ip rows → spans_precede ip rows.
Proof.
  intros [Hlb Htags] Hpre i r Hr Hneed.
  unfold needs_span in Hneed.
  apply andb_true_iff in Hneed as [Hneed HnB].
  apply andb_true_iff in Hneed as [Hnl HnO].
  apply negb_true_iff in HnB, Hnl, HnO. apply bool_decide_eq_false in HnO.
  destruct (Htags r (list_elem_of_lookup_2 _ _ _ Hr)) as [HO | [HB | HI]];
    [done | congruence |].
  destruct (Hpre i r Hr HI) as (j & r' & Hj & Hr' & HB' & Hno).
  exists j. split; [done|]. split; [|done].
  exists r'. split; [done|]. unfold opens_span. rewrite HB', andb_true_r.
  assert (HnO' : Tag r' ≠ tag_O).
  { intros E. rewrite E in HB'. vm_compute in HB'. discriminate HB'. }
  rewrite (bool_decide_eq_false_2 _ HnO'), andb_true_r.
  destruct (is_linebreak (Token (basic r'))) eqn:El; [|done].
  exfalso. apply HnO', (Hlb r' (list_elem_of_lookup_2 _ _ _ Hr') El).
Qed.

Lemma tagged_I_not_B (t : str) :
  startswith tag_I t = true → startswith tag_B t = false ∧ t ≠ tag_O.
Proof.
  intros H. destruct t as [|c t]; [vm_compute in H; discriminate H|].
  assert (c = 73%N) as ->.
  { destruct (decide (c = 73%N)) as [|Hne]; [done|]. exfalso.
    change (startswith tag_I (c :: t))
      with (bool_decide (73%N = c) && startswith (lit "-") t) in H.
    rewrite bool_decide_eq_false_2 in H by done. discriminate H. }
  split; [reflexivity|]. intros E. vm_compute in E. discriminate E.
Qed.

(** On an annotated token table an I- row that has no B- row before it
    in its paragraph is written into the current span and finds none
    open. *)
Lemma lone_I_row_finds_no_span ip (rows : list tagged_row) (i : nat) r :
  annotated_token_table rows →
  rows !! i = Some r → startswith tag_I (Tag r) = true →
  ¬ B_before ip rows i →
  needs_span r = true ∧ ¬ open_at ip rows i.
Proof.
  intros [Hlb Htags] Hr HI Hno.
  destruct (tagged_I_not_B _ HI) as [HB HO]. split.
  - unfold needs_span. rewrite HB, (bool_decide_eq_false_2 _ HO).
    destruct (is_linebreak (Token (basic r))) eqn:El; [|done].
    by destruct (HO (Hlb r (list_elem_of_lookup_2 _ _ _ Hr) El)).
  - intros (j & Hj & (r' & Hr' & Hopen) & Hnob). apply Hno.
    exists j, r'. split; [done|]. split; [done|]. split; [|done].
    unfold opens_span in Hopen. by apply andb_prop in Hopen as [_ ?].
Qed.

(** C10.  On an annotated token table (tags O, B- and I-, the row of a
    line-break token O) in which every I- row has a B- row before it in
    its paragraph, the traversal never reads a current span that is
    missing: neither the traversal nor [create_annotated_tei] ends with
    the AttributeError of that access.  If an I- row has no B- row before
    it in its paragraph, no span is open for it and
    [create_annotated_tei] fails with an error; no document is emitted. *)
Theorem span_needed_before_inner_token (tostring : list element → str)
    (insert_paragraphs : bool) (rows : list tagged_row) :
  annotated_token_table rows →
  (every_I_after_some_B insert_paragraphs rows →
     build_body insert_paragraphs eltec_deu rows ≠ Raise AttributeError ∧
     create_annotated_tei tostring rows insert_paragraphs eltec_deu
     ≠ Raise AttributeError) ∧
  (∀ i r, rows !! i = Some r → startswith tag_I (Tag r) = true →
     ¬ B_before insert_paragraphs rows i →
     ¬ open_at insert_paragraphs rows i ∧
     ∃ e, create_annotated_tei tostring rows insert_paragraphs eltec_deu
          = Raise e).
Proof.
  intros Htable.
  pose proof (tei_loop_spans insert_paragraphs rows rows 0 initial_state) as Hl.
  assert (H0 : is_Some (_last_sibling_element initial_state)
               ↔ open_before insert_paragraphs rows 0).
  { split; [by intros [? [=]] | intros (j & Hj & _); lia]. }
  specialize (Hl eq_refl H0 ltac:(done)).
  unfold create_annotated_tei, build_body.
  destruct (tei_loop insert_paragraphs eltec_deu rows 0 rows initial_state)
    as [st|e]; cbn [bind].
  - split.
    + intros _. split; [discriminate|].
      rewrite fix_punctuation_literal. discriminate.
    + intros i r Hr HI Hno.
      destruct (lone_I_row_finds_no_span _ _ _ _ Htable Hr HI Hno) as [Hn Hclosed].
      exfalso. apply Hclosed, (Hl i r); [lia | done | done].
  - split.
    + intros Hpre.
      pose proof (every_I_after_some_B_on_pipeline_tables _ _ Htable Hpre) as Hall.
      assert (He : e ≠ AttributeError).
      { intros ->. destruct (Hl eq_refl) as (i & r & _ & Hr & Hn & Hno).
        apply Hno, (Hall i r); done. }
      split; intros [= ->]; done.
    + intros i r Hr HI Hno.
      destruct (lone_I_row_finds_no_span _ _ _ _ Htable Hr HI Hno) as [_ Hclosed].
      split; [done | by exists e].
Qed.

Lemma red_fox_table_is_annotated : annotated_token_table red_fox_table.
Proof.
  split; intros r Hr; unfold red_fox_table in Hr;
    repeat (apply elem_of_cons in Hr as [-> | Hr]); try (by inversion Hr).
  - vm_compute. discriminate.
  - vm_compute. discriminate.
  - reflexivity.
  - vm_compute. discriminate.
  - right. left. vm_compute. reflexivity.
  - right. right. vm_compute. reflexivity.
  - by left.
  - by left.
Qed.

Lemma red_fox_table_I_after_B : every_I_after_some_B true red_fox_table.
Proof.
  intros i r Hi HI.
  destruct i as [|[|[|[|i]]]]; simpl in Hi; try discriminate Hi;
    injection Hi as <-; vm_compute in HI; try discriminate HI.
  exists 0%nat. eexists. split; [lia|]. split; [reflexivity|].
  split; [vm_compute; reflexivity|].
  intros k Hk (r & Hr & _ & Hst). assert (k = 1%nat) as -> by lia.
  simpl in Hr. injection Hr as <-. vm_compute in Hst. discriminate Hst.
Qed.

Lemma broken_span_table_is_annotated : annotated_token_table broken_span_table.
Proof.
  split; intros r Hr; unfold broken_span_table in Hr;
    repeat (apply elem_of_cons in Hr as [-> | Hr]); try (by inversion Hr).
  - vm_compute. discriminate.
  - reflexivity.
  - vm_compute. discriminate.
  - right. left. vm_compute. reflexivity.
  - by left.
  - right. right. vm_compute. reflexivity.
Qed.

Lemma broken_span_table_no_B_before : ¬ B_before true broken_span_table 2.
Proof.
  intros (j & r' & Hj & Hr' & HB & Hno).
  destruct j as [|[|j]]; [| |lia].
  - apply (Hno 1%nat); [lia|]. eexists. split; [reflexivity|].
    split; [reflexivity | vm_compute; reflexivity].
  - simpl in Hr'. injection Hr' as <-. vm_compute in HB. discriminate HB.
Qed.

Lemma span_needed_before_inner_token_witness :
  (build_body true eltec_deu red_fox_table ≠ Raise AttributeError ∧
   create_annotated_tei (λ _, []) red_fox_table true eltec_deu
   ≠ Raise AttributeError) ∧
  (¬ open_at true broken_span_table 2 ∧
   ∃ e, create_annotated_tei (λ _, []) broken_span_table true eltec_deu
        = Raise e).
Proof.
  split.
  - exact (proj1 (span_needed_before_inner_token (λ _, []) true red_fox_table
                    red_fox_table_is_annotated) red_fox_table_I_after_B).
  - exact (proj2 (span_needed_before_inner_token (λ _, []) true
                    broken_span_table broken_span_table_is_annotated)
             2%nat _ eq_refl eq_refl broken_span_table_no_B_before).
Defined.

(** In that table the error is the AttributeError of the missing span. *)
Example broken_span_raises_AttributeError :
  create_annotated_tei (λ _, []) broken_span_table true eltec_deu
  = Raise AttributeError.
Proof. vm_compute. reflexivity. Qed.

(** Why the table has to be an annotated token table: in this one the
    I- row comes after a B- row of the same paragraph, but the B- row is
    a line-break token, which the traversal skips before it looks at the
    tag; no span is open at the I- row and the traversal fails. *)
Example linebreak_B_row_opens_no_span :
  every_I_after_some_B true linebreak_B_table ∧
  build_body true eltec_deu linebreak_B_table = Raise AttributeError ∧
  create_annotated_tei (λ _, []) linebreak_B_table true eltec_deu
  = Raise AttributeError.
Proof.
  split; [|split; vm_compute; reflexivity].
  intros i r Hi Ht.
  destruct i as [|[|i]]; simpl in Hi; try discriminate Hi;
    injection Hi as <-; vm_compute in Ht; try discriminate Ht.
  exists 0%nat. eexists. split; [lia|]. split; [reflexivity|].
  split; [vm_compute; reflexivity|].
  intros k Hk (r & Hr & _ & Hst). assert (k = 1%nat) as -> by lia.
  simpl in Hr. injection Hr as <-. vm_compute in Hst. discriminate Hst.
Qed.

(** A class that is no XML name: lxml refuses the element, and the
    traversal ends with ValueError at the B- row. *)
Example class_with_a_space_is_refused :
  build_body true eltec_deu
    [ {| basic := {| Token_ID := 0; Text_Pointer := 0; Token := lit "im" |};
         Tag := lit "O"; Annotation_ID := lit "none";
         Multi_Token_Annotation := 0 |};
      {| basic := {| Token_ID := 1; Text_Pointer := 3; Token := lit "Haus" |};
         Tag := lit "B-Ort Container"; Annotation_ID := lit "A1";
         Multi_Token_Annotation := 1 |} ]
  = Raise ValueError.
Proof. vm_compute. reflexivity. Qed.

End TeiTheorems.

(* ===================================================================== *)
(** ** Properties of the project helpers *)
(* ===================================================================== *)

Module ProjectTheorems.
Import PySlice Window Align Project ProjectSpec.

(** *** Positions selected from an enumeration *)

Lemma indices_from_cons {A} (p : A → bool) (n : nat) (x : A) (l : list A) :
  omap (λ ie : nat * A, if p ie.2 then Some ie.1 else None)
       (imap (λ i e, ((n + i)%nat, e)) (x :: l))
  = (if p x then [n] else []) ++
    omap (λ ie : nat * A, if p ie.2 then Some ie.1 else None)
         (imap (λ i e, ((S n + i)%nat, e)) l).
Proof.
  rewrite imap_cons. cbn [omap list_omap fst snd].
  replace (n + 0)%nat with n by lia.
  assert (E : imap ((λ i e, ((n + i)%nat, e)) ∘ S) l
              = imap (λ i (e : A), ((S n + i)%nat, e)) l).
  { apply imap_ext. intros i y _. simpl. f_equal. lia. }
  rewrite E. destruct (p x); reflexivity.
Qed.

Lemma indices_from_elem {A} (p : A → bool) (l : list A) : ∀ (n i : nat),
  i ∈ omap (λ ie : nat * A, if p ie.2 then Some ie.1 else None)
           (imap (λ i e, ((n + i)%nat, e)) l)
  ↔ ∃ j x, i = (n + j)%nat ∧ l !! j = Some x ∧ p x = true.
Proof.
  induction l as [|x l IH]; intros n i.
  - simpl. split; [intros H; inversion H | intros (j & y & _ & H & _); discriminate].
  - rewrite indices_from_cons, elem_of_app, IH. split.
    + intros [H | (j & y & -> & H & Hp)].
      * destruct (p x) eqn:Hp; [|inversion H].
        apply list_elem_of_singleton in H as ->.
        exists 0%nat, x. split; [lia | done].
      * exists (S j), y. split; [lia | done].
    + intros ([|j] & y & -> & H & Hp).
      * simpl in H. injection H as ->. left. rewrite Hp.
        replace (n + 0)%nat with n by lia. apply list_elem_of_singleton. done.
      * right. exists j, y. split; [lia | done].
Qed.

Lemma indices_from_NoDup {A} (p : A → bool) (l : list A) : ∀ n : nat,
  NoDup (omap (λ ie : nat * A, if p ie.2 then Some ie.1 else None)
              (imap (λ i e, ((n + i)%nat, e)) l)).
Proof.
  induction l as [|x l IH]; intros n; [constructor|].
  rewrite indices_from_cons. destruct (p x); cbn [app]; [|apply IH].
  constructor; [|apply IH].
  intros (j & y & E & _)%indices_from_elem. lia.
Qed.

Lemma elem_of_indices_where {A} (p : A → bool) (l : list A) (i : nat) :
  i ∈ indices_where p l ↔ ∃ x, l !! i = Some x ∧ p x = true.
Proof.
  unfold indices_where. rewrite (indices_from_elem p l 0 i). split.
  - intros (j & x & -> & H). by exists x.
  - intros (x & H). by exists i, x.
Qed.

Lemma NoDup_indices_where {A} (p : A → bool) (l : list A) :
  NoDup (indices_where p l).
Proof. apply (indices_from_NoDup p l 0). Qed.

(** X1.  [get_annotation_collection_index_by_ac_name_and_text_title] on a
    loaded project returns the position [i] exactly when the collection
    at [i] is the only one of the project with the name and the text
    title asked for; when no position is such an only match (none
    matches, or several do) it raises ValueError. *)
Theorem collection_index_is_the_only_match (acs : list collection)
    (name title : str) :
  (∀ i, get_annotation_collection_index_by_ac_name_and_text_title
          (Some acs) name title = Ok (Some i)
        ↔ only_match acs name title i) ∧
  ((∀ i, ¬ only_match acs name title i) ↔
     get_annotation_collection_index_by_ac_name_and_text_title
       (Some acs) name title = Raise ValueError).
Proof.
  unfold get_annotation_collection_index_by_ac_name_and_text_title.
  set (p := λ ac, bool_decide (ac_name ac = name) && bool_decide (text_title ac = title)).
  assert (Hin : ∀ i, i ∈ indices_where p acs ↔ matches_at acs name title i).
  { intros i. rewrite elem_of_indices_where. unfold matches_at, p. split.
    - intros (ac & H & [H1 H2]%andb_prop). exists ac.
      apply bool_decide_eq_true in H1, H2. done.
    - intros (ac & H & H1 & H2). exists ac. split; [done|].
      by rewrite !bool_decide_eq_true_2. }
  pose proof (NoDup_indices_where p acs) as Hnd.
  assert (Hone : ∀ i, indices_where p acs = [i] ↔ only_match acs name title i).
  { intros i. split.
    - intros E. split.
      + apply Hin. rewrite E. left.
      + intros j Hj%Hin. rewrite E in Hj. by apply list_elem_of_singleton in Hj.
    - intros [Hi Huniq]. apply Hin in Hi.
      destruct (indices_where p acs) as [|a [|b rest]] eqn:E.
      + inversion Hi.
      + by apply list_elem_of_singleton in Hi as ->.
      + exfalso. assert (a = i) as -> by (apply Huniq, Hin; left).
        assert (b = i) as -> by (apply Huniq, Hin; right; left).
        apply NoDup_cons in Hnd as [Hni _]. apply Hni. left. }
  split.
  - intros i. rewrite <- Hone.
    destruct (indices_where p acs) as [|a [|b rest]]; simpl.
    + split; discriminate.
    + split; [intros [= ->]; done | intros [= ->]; done].
    + split; discriminate.
  - split.
    + intros Hno. destruct (indices_where p acs) as [|a [|b rest]] eqn:E; simpl; try done.
      exfalso. apply (Hno a), Hone. done.
    + intros Hr i Ho%Hone. rewrite Ho in Hr. simpl in Hr. discriminate.
Qed.

(** *** The scan of [re.finditer] *)

Lemma match_here_length (atoms : list Re.atom) : ∀ s,
  Re.match_here atoms s = true → (length atoms ≤ length s)%nat.
Proof.
  induction atoms as [|a atoms IH]; intros s; [simpl; lia|].
  destruct a, s as [|d s]; simpl; try discriminate;
    intros [_ H]%andb_prop; apply IH in H; lia.
Qed.

Lemma match_here_take (atoms : list Re.atom) : ∀ s (n : nat),
  Re.match_here atoms s = true → (length atoms ≤ n)%nat →
  Re.match_here atoms (take n s) = true.
Proof.
  induction atoms as [|a atoms IH]; intros s n; [done|].
  destruct a, s as [|d s], n as [|n]; simpl; try discriminate; try lia;
    intros [H1 H2]%andb_prop Hn; rewrite H1; simpl; apply IH; try done; lia.
Qed.

(** Every match the scan reports is a match of the pattern in the text. *)
Lemma finditer_from_sound (atoms : list Re.atom) : ∀ s (pos skip a b : nat),
  (a, b) ∈ finditer_from atoms pos skip s →
  ∃ k, a = (pos + k)%nat ∧ b = (a + length atoms)%nat ∧ (k ≤ length s)%nat ∧
       Re.match_here atoms (drop k s) = true.
Proof.
  induction s as [|c s IH]; intros pos skip a b; cbn [finditer_from].
  - destruct skip; [|intros H; inversion H].
    destruct (Re.match_here atoms []) eqn:Hm; [|intros H; inversion H].
    intros [= -> ->]%list_elem_of_singleton. exists 0%nat.
    split; [lia|]. split; [lia|]. split; [simpl; lia | done].
  - destruct skip as [|skip].
    + destruct (Re.match_here atoms (c :: s)) eqn:Hm.
      * intros [[= -> ->] | H]%elem_of_cons.
        -- exists 0%nat. split; [lia|]. split; [lia|]. split; [simpl; lia | done].
        -- destruct (IH _ _ _ _ H) as (k & -> & -> & Hle & Hk).
           exists (S k). split; [lia|]. split; [lia|]. split; [simpl; lia | done].
      * intros H. destruct (IH _ _ _ _ H) as (k & -> & -> & Hle & Hk).
        exists (S k). split; [lia|]. split; [lia|]. split; [simpl; lia | done].
    + intros H. destruct (IH _ _ _ _ H) as (k & -> & -> & Hle & Hk).
      exists (S k). split; [lia|]. split; [lia|]. split; [simpl; lia | done].
Qed.

(** While the scan passes over a match it reports nothing if the pattern
    matches nowhere in what follows. *)
Lemma finditer_from_none (atoms : list Re.atom) : ∀ s (pos skip : nat),
  atoms ≠ [] →
  (∀ k, Re.match_here atoms (drop k s) = false) →
  finditer_from atoms pos skip s = [].
Proof.
  induction s as [|c s IH]; intros pos skip Hne Hno; cbn [finditer_from].
  - destruct skip; [|done]. pose proof (Hno 0%nat) as H0. simpl in H0.
    by rewrite H0.
  - destruct skip as [|skip].
    + pose proof (Hno 0%nat) as H0. simpl in H0. rewrite H0.
      apply IH; [done|]. intros k. apply (Hno (S k)).
    + apply IH; [done|]. intros k. apply (Hno (S k)).
Qed.

Lemma finditer_from_only (atoms : list Re.atom) : ∀ s (pos i : nat),
  atoms ≠ [] →
  occurs_only_at atoms s i →
  finditer_from atoms pos 0 s = [((pos + i)%nat, (pos + i + length atoms)%nat)].
Proof.
  induction s as [|c s IH]; intros pos i Hne [Hi Honly].
  - exfalso. rewrite drop_nil in Hi. apply match_here_length in Hi.
    destruct atoms; [done | simpl in Hi; lia].
  - cbn [finditer_from]. destruct i as [|i].
    + simpl in Hi. rewrite Hi. replace (pos + 0)%nat with pos by lia.
      f_equal. apply finditer_from_none; [done|].
      intros k. destruct (Re.match_here atoms (drop k s)) eqn:Hk; [|done].
      specialize (Honly (S k) Hk). discriminate.
    + destruct (Re.match_here atoms (c :: s)) eqn:Hm.
      { specialize (Honly 0%nat Hm). discriminate. }
      rewrite (IH (S pos) i Hne).
      * do 2 f_equal; lia.
      * split; [done|]. intros k Hk. specialize (Honly (S k) Hk). lia.
Qed.

(** X2.  When each of the two search patterns matches the text at one
    position only, [get_text_border_values_by_string_search] returns the
    pair of the position where the first pattern's match starts and the
    position where the second pattern's match ends. *)
Theorem unique_substrings_give_borders (plain_text substring_0 substring_1 : str)
    (atoms_0 atoms_1 : list Re.atom) (i j : nat) :
  Re.parse substring_0 = Ok atoms_0 → atoms_0 ≠ [] →
  Re.parse substring_1 = Ok atoms_1 → atoms_1 ≠ [] →
  occurs_only_at atoms_0 plain_text i →
  occurs_only_at atoms_1 plain_text j →
  get_text_border_values_by_string_search plain_text
    (Some (substring_0, substring_1))
  = Ok (Borders (Z.of_nat i) (Z.of_nat (j + length atoms_1))).
Proof.
  intros Hp0 Hn0 Hp1 Hn1 H0 H1.
  unfold get_text_border_values_by_string_search, finditer.
  rewrite Hp0, Hp1. cbn [bind].
  rewrite (finditer_from_only atoms_0 plain_text 0 i Hn0 H0).
  rewrite (finditer_from_only atoms_1 plain_text 0 j Hn1 H1).
  reflexivity.
Qed.

Lemma unique_substrings_give_borders_witness :
  get_text_border_values_by_string_search (lit "Es war einmal. Ende gut.")
    (Some (lit "war", lit "gut\."))
  = Ok (Borders (Z.of_nat 3) (Z.of_nat (20 + length (Re.Lit <$> lit "gut.")))).
Proof.
  apply (unique_substrings_give_borders (lit "Es war einmal. Ende gut.")
           (lit "war") (lit "gut\.")
           (Re.Lit <$> lit "war") (Re.Lit <$> lit "gut.") 3 20).
  - vm_compute. reflexivity.
  - intros E. discriminate E.
  - vm_compute. reflexivity.
  - intros E. discriminate E.
  - split; [vm_compute; reflexivity|]. intros k Hk.
    destruct (decide (k < 25)%nat) as [Hlt|Hge].
    + do 25 (destruct k as [|k]; [first [reflexivity | vm_compute in Hk; discriminate Hk]|]).
      lia.
    + rewrite drop_ge in Hk by (vm_compute; lia). discriminate Hk.
  - split; [vm_compute; reflexivity|]. intros k Hk.
    destruct (decide (k < 25)%nat) as [Hlt|Hge].
    + do 25 (destruct k as [|k]; [first [reflexivity | vm_compute in Hk; discriminate Hk]|]).
      lia.
    + rewrite drop_ge in Hk by (vm_compute; lia). discriminate Hk.
Defined.

(** X3.  A pair of positions returned by
    [get_text_border_values_by_string_search], used as [text_borders],
    selects a text that begins with a match of the first pattern and ends
    with a match of the second one, provided the two matches lie in that
    order: neither pattern is longer than the distance between the two
    positions. *)
Theorem found_borders_select_the_passage (plain_text substring_0 substring_1 : str)
    (atoms_0 atoms_1 : list Re.atom) (start_value end_value : Z) :
  Re.parse substring_0 = Ok atoms_0 →
  Re.parse substring_1 = Ok atoms_1 →
  get_text_border_values_by_string_search plain_text
    (Some (substring_0, substring_1)) = Ok (Borders start_value end_value) →
  Z.of_nat (length atoms_0) ≤ end_value - start_value →
  Z.of_nat (length atoms_1) ≤ end_value - start_value →
  let text := select_text plain_text (Some (start_value, end_value)) in
  Z.of_nat (length text) = end_value - start_value ∧
  Re.match_here atoms_0 text = true ∧
  Re.match_here atoms_1 (drop (length text - length atoms_1) text) = true.
Proof.
  intros Hp0 Hp1 Hr Hl0 Hl1.
  unfold get_text_border_values_by_string_search, finditer in Hr.
  rewrite Hp0, Hp1 in Hr. cbn [bind] in Hr.
  destruct (finditer_from atoms_0 0 0 plain_text) as [|[a0 b0] [|m0 rest0]] eqn:E0;
    cbn [fmap list_fmap] in Hr; try discriminate.
  all: destruct (finditer_from atoms_1 0 0 plain_text) as [|[a1 b1] [|m1 rest1]] eqn:E1;
    cbn [fmap list_fmap] in Hr; try discriminate.
  cbn [fst snd] in Hr. injection Hr as <- <-.
  assert (H0 : (a0, b0) ∈ finditer_from atoms_0 0 0 plain_text) by (rewrite E0; left).
  assert (H1 : (a1, b1) ∈ finditer_from atoms_1 0 0 plain_text) by (rewrite E1; left).
  apply finditer_from_sound in H0 as (k0 & -> & -> & Hle0 & Hm0).
  apply finditer_from_sound in H1 as (k1 & -> & -> & Hle1 & Hm1).
  rewrite !Nat.add_0_l in *.
  pose proof (match_here_length _ _ Hm0) as Hlen0.
  pose proof (match_here_length _ _ Hm1) as Hlen1.
  rewrite length_drop in Hlen0, Hlen1.
  set (L := Z.of_nat (length plain_text)).
  assert (Ea : adjust L (Z.of_nat k0) = Z.of_nat k0).
  { apply WindowTheorems.adjust_fixed. unfold L. lia. }
  assert (Hk1 : (k1 + length atoms_1 ≤ length plain_text)%nat) by lia.
  assert (Eb : adjust L (Z.of_nat (k1 + length atoms_1)) = Z.of_nat (k1 + length atoms_1)).
  { apply WindowTheorems.adjust_fixed. unfold L. lia. }
  unfold select_text, slice. cbn [bound]. fold L. rewrite Ea, Eb.
  replace (Z.to_nat (Z.of_nat (k1 + length atoms_1) - Z.of_nat k0))
    with (k1 + length atoms_1 - k0)%nat by lia.
  rewrite Nat2Z.id.
  assert (Hlen : length (take (k1 + length atoms_1 - k0) (drop k0 plain_text))
                 = (k1 + length atoms_1 - k0)%nat).
  { rewrite length_take, length_drop. lia. }
  split; [rewrite Hlen; lia|]. split.
  - apply match_here_take; [done | lia].
  - rewrite Hlen.
    replace (k1 + length atoms_1 - k0 - length atoms_1)%nat with (k1 - k0)%nat by lia.
    replace (k1 + length atoms_1 - k0)%nat with ((k1 - k0) + length atoms_1)%nat by lia.
    rewrite <- (take_drop_commute), drop_drop.
    replace (k0 + (k1 - k0))%nat with k1 by lia.
    apply match_here_take; [done | lia].
Qed.

Lemma found_borders_select_the_passage_witness :
  let text := select_text (lit "Es war einmal. Ende gut.") (Some (3, 24)) in
  Z.of_nat (length text) = 24 - 3 ∧
  Re.match_here (Re.Lit <$> lit "war") text = true ∧
  Re.match_here (Re.Lit <$> lit "gut.")
    (drop (length text - length (Re.Lit <$> lit "gut.")) text) = true.
Proof.
  apply (found_borders_select_the_passage (lit "Es war einmal. Ende gut.")
           (lit "war") (lit "gut\.")); vm_compute; first [reflexivity | discriminate].
Defined.

(** X4.  What [test_text_borders] shows of the selected text: with a
    snippet length n >= 1 and a text of at least 2n characters, the first
    n and the last n characters with three dots between them; with a
    shorter text, the whole text; with the snippet length 0, three dots
    and then the whole text, however long it is.  Each between two quote
    characters. *)
Theorem shown_snippet (plain_text : str) (lo hi n : Z) :
  let text := select_text plain_text (Some (lo, hi)) in
  let L := Z.of_nat (length text) in
  (1 ≤ n ∧ 2 * n ≤ L →
     test_text_borders plain_text (Some (lo, hi)) n
     = Ok ([34%N] ++ (take (Z.to_nat n) text ++ lit "..."
                      ++ drop (Z.to_nat (L - n)) text) ++ [34%N])) ∧
  (L < 2 * n →
     test_text_borders plain_text (Some (lo, hi)) n
     = Ok ([34%N] ++ text ++ [34%N])) ∧
  test_text_borders plain_text (Some (lo, hi)) 0
  = Ok ([34%N] ++ (lit "..." ++ text) ++ [34%N]).
Proof.
  intros text L.
  assert (HL : 0 ≤ L) by (unfold L; lia).
  assert (Ehead : ∀ m, 0 ≤ m ≤ L → slice text None (Some m) = take (Z.to_nat m) text).
  { intros m Hm. unfold slice. cbn [bound]. fold L.
    rewrite (WindowTheorems.adjust_fixed L m) by lia.
    rewrite Z.sub_0_r. reflexivity. }
  assert (Etail : ∀ m, 0 ≤ m ≤ L →
            slice text (Some m) None = drop (Z.to_nat m) text).
  { intros m Hm. unfold slice. cbn [bound]. fold L.
    rewrite (WindowTheorems.adjust_fixed L m) by lia.
    apply take_ge. rewrite length_drop. unfold L. lia. }
  assert (Eneg : ∀ m, 1 ≤ m ≤ L →
            slice text (Some (- Z.abs m)) None = drop (Z.to_nat (L - m)) text).
  { intros m Hm. rewrite <- (Etail (L - m)) by lia.
    unfold slice. cbn [bound]. fold L. unfold adjust.
    rewrite decide_True by lia. rewrite decide_False by lia.
    rewrite (decide_False (P := L - m < 0)) by lia.
    rewrite (decide_False (P := L ≤ L - m)) by lia.
    replace (- Z.abs m + L) with (L - m) by lia. reflexivity. }
  unfold test_text_borders. fold (select_text plain_text (Some (lo, hi))).
  fold text. fold L.
  split; [|split].
  - intros [H1 H2]. rewrite decide_True by lia.
    rewrite Ehead by lia. rewrite Eneg by lia. reflexivity.
  - intros H. rewrite decide_False by lia. reflexivity.
  - rewrite decide_True by lia. rewrite Ehead by lia.
    change (- Z.abs 0) with 0. rewrite Etail by lia. reflexivity.
Qed.

End ProjectTheorems.

(* ===================================================================== *)
(** ** Properties of the analyzer *)
(* ===================================================================== *)

Module AnalyzerTheorems.
Import PySlice Align Spec Analyzer AnalyzerSpec.

(** *** The token window of the statistics *)

Lemma slice_in_range {A} (input : list A) (s e : Z) :
  0 ≤ s → s ≤ e → e ≤ Z.of_nat (length input) →
  slice input (Some s) (Some e) = take (Z.to_nat (e - s)) (drop (Z.to_nat s) input) ∧
  Z.of_nat (length (slice input (Some s) (Some e))) = e - s.
Proof.
  intros Hs Hse He. unfold slice. cbn [bound].
  rewrite !WindowTheorems.adjust_fixed by lia.
  split; [reflexivity|]. rewrite length_take, length_drop. lia.
Qed.

(** X5.  With borders (a, b) that fit the table, 0 <= a < b < length,
    the statistics are computed over the rows a, ..., b-1 of the table,
    and over no others. *)
Theorem statistics_window_in_range {A} (input : list A) (a b : Z) :
  0 ≤ a → a < b → b < Z.of_nat (length input) →
  _get_df_with_text_borders input (Some (a, b))
  = take (Z.to_nat (b - a)) (drop (Z.to_nat a) input) ∧
  Z.of_nat (length (_get_df_with_text_borders input (Some (a, b)))) = b - a.
Proof.
  intros Ha Hab Hb. unfold _get_df_with_text_borders.
  rewrite (decide_True (P := a >= 0 ∧ a < _)) by lia.
  rewrite decide_True by lia.
  apply slice_in_range; lia.
Qed.

Lemma statistics_window_in_range_witness :
  _get_df_with_text_borders [10; 11; 12; 13; 14] (Some (1, 3))
  = take (Z.to_nat (3 - 1)) (drop (Z.to_nat 1) [10; 11; 12; 13; 14]) ∧
  Z.of_nat (length (_get_df_with_text_borders [10; 11; 12; 13; 14] (Some (1, 3))))
  = 3 - 1.
Proof.
  apply (statistics_window_in_range [10; 11; 12; 13; 14] 1 3); simpl; lia.
Defined.

(** X6.  Borders that do not fit the table are corrected, never refused:
    of a table that is not empty [_get_df_with_text_borders] always
    selects a run of rows s, ..., e-1 that is not empty, where s is the
    given start or 0 and e is the given end or the length of the table.
    An end that is not behind the start therefore selects the rows up to
    the end of the table. *)
Theorem statistics_window_is_never_empty {A} (input : list A) (a b : Z) :
  input ≠ [] →
  ∃ s e : nat,
    (s < e ≤ length input)%nat ∧
    _get_df_with_text_borders input (Some (a, b)) = take (e - s) (drop s input) ∧
    _get_df_with_text_borders input (Some (a, b)) ≠ [] ∧
    (Z.of_nat s = a ∨ s = 0%nat) ∧
    (Z.of_nat e = b ∨ e = length input).
Proof.
  intros Hne.
  assert (HL : 0 < Z.of_nat (length input)).
  { destruct input; [done | simpl; lia]. }
  unfold _get_df_with_text_borders.
  set (L := Z.of_nat (length input)) in *.
  set (s := if decide (a >= 0 ∧ a < L) then a else 0).
  set (e := if decide (b > s ∧ b < L) then b else L).
  assert (Hs : 0 ≤ s < L) by (unfold s; case_decide; lia).
  assert (He : s < e ≤ L) by (unfold e; case_decide; lia).
  destruct (slice_in_range input s e) as [E Elen]; [lia..|].
  exists (Z.to_nat s), (Z.to_nat e). split; [unfold L in *; lia|].
  split; [|split; [|split]].
  - rewrite E. f_equal. lia.
  - intros E0. rewrite E0 in Elen. simpl in Elen. lia.
  - unfold s. case_decide; [left | right]; lia.
  - unfold e. case_decide; [left | right]; unfold L; lia.
Qed.

Lemma statistics_window_is_never_empty_witness :
  ∃ s e : nat,
    (s < e ≤ length [10; 11; 12])%nat ∧
    _get_df_with_text_borders [10; 11; 12] (Some (2, 1))
    = take (e - s) (drop s [10; 11; 12]) ∧
    _get_df_with_text_borders [10; 11; 12] (Some (2, 1)) ≠ [] ∧
    (Z.of_nat s = 2 ∨ s = 0%nat) ∧
    (Z.of_nat e = 1 ∨ e = length [10; 11; 12]).
Proof.
  apply (statistics_window_is_never_empty [10; 11; 12] 2 1). intros E. discriminate E.
Defined.

Lemma elem_of_statistics_window {A} (input : list A) tb (x : A) :
  x ∈ _get_df_with_text_borders input tb → x ∈ input.
Proof.
  destruct tb as [[a b]|]; [|done]. unfold _get_df_with_text_borders, slice.
  intros H. eapply subseteq_drop, subseteq_take, H.
Qed.

(** *** The statistics of one file *)

Lemma drop_duplicates_from_spec (df : list tagged_row) : ∀ seen,
  NoDup (Annotation_ID <$> drop_duplicates_from seen df) ∧
  (∀ r, r ∈ drop_duplicates_from seen df → r ∈ df ∧ Annotation_ID r ∉ seen) ∧
  (length (drop_duplicates_from seen df) ≤ length df)%nat.
Proof.
  induction df as [|row rest IH]; intros seen; simpl.
  - split; [constructor|]. split; [intros r Hr; inversion Hr | lia].
  - destruct (decide (Annotation_ID row ∈ seen)) as [Hin|Hnin].
    + destruct (IH seen) as (Hnd & Hel & Hlen). split; [done|]. split; [|lia].
      intros r Hr. destruct (Hel r Hr). split; [by right | done].
    + destruct (IH (Annotation_ID row :: seen)) as (Hnd & Hel & Hlen).
      split; [|split; [|simpl; lia]].
      * rewrite fmap_cons. constructor; [|done].
        intros (r & E & Hr)%list_elem_of_fmap. destruct (Hel r Hr) as [_ Hns].
        apply Hns. rewrite <- E. left.
      * intros r [->|Hr]%elem_of_cons; [split; [left | done]|].
        destruct (Hel r Hr) as [H1 H2]. split; [by right|].
        intros Hs. apply H2. by right.
Qed.

Lemma length_filter_le_impl {A} (P Q : A → Prop) `{!∀ x, Decision (P x)}
    `{!∀ x, Decision (Q x)} (l : list A) :
  (∀ x, x ∈ l → P x → Q x) →
  (length (filter P l) ≤ length (filter Q l))%nat.
Proof.
  induction l as [|x l IH]; intros Himp; [done|].
  rewrite !filter_cons.
  assert (IH' : (length (filter P l) ≤ length (filter Q l))%nat).
  { apply IH. intros y Hy. apply Himp. by right. }
  destruct (decide (P x)) as [Hp|Hp].
  - rewrite decide_True by (apply Himp; [left | done]). simpl. lia.
  - destruct (decide (Q x)); simpl; lia.
Qed.

Lemma startswith_B_not_O (t : str) : startswith tag_B t = true → t ≠ tag_O.
Proof. intros H ->. vm_compute in H. discriminate H. Qed.

(** A row of an emitted table is annotated, in the sense of the
    statistics, exactly when its tag is not O. *)
Lemma emitted_row_annotated anns tokens tb mode rows row :
  create_annotated_token_tsv anns tokens tb mode = Ok rows →
  ids_distinct_from_none anns →
  row ∈ rows →
  (Multi_Token_Annotation row > 0 ↔ Tag row ≠ tag_O) ∧
  (Tag row ≠ tag_O →
     Annotation_ID row ≠ id_none ∧
     (∃ ann, ann ∈ anns ∧ Annotation_ID row = short_id ann) ∧
     Multi_Token_Annotation row
     = count_id (Annotation_ID row) (Annotation_ID <$> rows)).
Proof.
  intros Hc Hdist Hrow.
  destruct (AlignFacts.create_Ok_rows _ _ _ _ _ Hc) as [_ Hrows].
  destruct (Hrows row Hrow) as (Htag & Hid & Hcount & Hnone).
  unfold row_annotation_id in Hid.
  destruct (decide (Tag row = tag_O)) as [HO|HO].
  - rewrite bool_decide_eq_true_2 in Hid by done. simpl in Hid.
    injection Hid as Hid. rewrite (Hnone Hdist (eq_sym Hid)).
    split; [split; [lia | done] | done].
  - rewrite bool_decide_eq_false_2 in Hid by done. simpl in Hid.
    destruct (is_linebreak (Token (basic row))) eqn:Hl.
    { exfalso. apply HO. rewrite Htag. by apply AlignFacts.new_iob2_tag_linebreak. }
    destruct (first_covering_annotation _ anns tb (basic row)) as [ann|e] eqn:Hf;
      simpl in Hid; [|discriminate].
    injection Hid as Hid.
    pose proof (AlignFacts.first_covering_annotation_elem _ _ _ _ _ Hf) as Hann.
    assert (Hne : Annotation_ID row ≠ id_none).
    { rewrite <- Hid. by apply Hdist. }
    assert (Hpos : count_id (Annotation_ID row) (Annotation_ID <$> rows) > 0).
    { unfold count_id.
      assert (Hin : Annotation_ID row ∈ filter (λ e, e = Annotation_ID row)
                                         (Annotation_ID <$> rows)).
      { apply list_elem_of_filter. split; [done|].
        apply list_elem_of_fmap. by exists row. }
      destruct (filter _ _); [inversion Hin | simpl; lia]. }
    rewrite (Hcount Hne).
    split; [split; [done | intros _; exact Hpos]|].
    intros _. split; [done|]. split; [|done]. exists ann. done.
Qed.

(** X7.  On a table that [create_annotated_token_tsv] emitted (no
    annotation id being the sentinel "none"), and for any token window:
    the statistics' amount_of_annotated_token is the number of rows whose
    tag is not O, and amount_of_annotations <= amount_of_annotated_token
    <= amount_of_token. *)
Theorem statistics_of_emitted_table anns tokens tb mode rows text_borders :
  create_annotated_token_tsv anns tokens tb mode = Ok rows →
  ids_distinct_from_none anns →
  amount_of_annotated_token rows text_borders
  = Z.of_nat (length (filter (λ row, Tag row ≠ tag_O)
                        (_get_df_with_text_borders rows text_borders))) ∧
  amount_of_annotations rows text_borders
  ≤ amount_of_annotated_token rows text_borders ∧
  amount_of_annotated_token rows text_borders
  ≤ amount_of_token rows text_borders.
Proof.
  intros Hc Hdist.
  unfold amount_of_annotated_token, amount_of_annotations, amount_of_token.
  set (file_df := _get_df_with_text_borders rows text_borders).
  assert (Hrow : ∀ row, row ∈ file_df →
            (Multi_Token_Annotation row > 0 ↔ Tag row ≠ tag_O)).
  { intros row Hr. eapply emitted_row_annotated; [exact Hc | exact Hdist|].
    eapply elem_of_statistics_window, Hr. }
  assert (E : length (filter (λ row, Multi_Token_Annotation row > 0) file_df)
              = length (filter (λ row, Tag row ≠ tag_O) file_df)).
  { apply Nat.le_antisymm; apply length_filter_le_impl; intros x Hx; by apply Hrow. }
  split; [by rewrite E|]. split.
  - apply inj_le. unfold filtered_df_with_annotations, drop_duplicates.
    etransitivity; [apply drop_duplicates_from_spec|].
    apply length_filter_le_impl. intros x Hx HB. apply Hrow; [done|].
    apply startswith_B_not_O. by destruct (startswith tag_B (Tag x)).
  - apply inj_le, length_filter.
Qed.

Lemma statistics_of_emitted_table_witness :
  amount_of_annotated_token
    [ {| basic := {| Token_ID := 0; Text_Pointer := 0; Token := lit "The" |};
         Tag := lit "B-Color"; Annotation_ID := lit "C0FFEE";
         Multi_Token_Annotation := 2 |};
      {| basic := {| Token_ID := 1; Text_Pointer := 4; Token := lit "red" |};
         Tag := lit "O"; Annotation_ID := lit "none";
         Multi_Token_Annotation := 0 |};
      {| basic := {| Token_ID := 2; Text_Pointer := 8; Token := lit "fox" |};
         Tag := lit "B-Color"; Annotation_ID := lit "C0FFEE";
         Multi_Token_Annotation := 2 |} ] None = 2 ∧
  amount_of_annotations
    [ {| basic := {| Token_ID := 0; Text_Pointer := 0; Token := lit "The" |};
         Tag := lit "B-Color"; Annotation_ID := lit "C0FFEE";
         Multi_Token_Annotation := 2 |};
      {| basic := {| Token_ID := 1; Text_Pointer := 4; Token := lit "red" |};
         Tag := lit "O"; Annotation_ID := lit "none";
         Multi_Token_Annotation := 0 |};
      {| basic := {| Token_ID := 2; Text_Pointer := 8; Token := lit "fox" |};
         Tag := lit "B-Color"; Annotation_ID := lit "C0FFEE";
         Multi_Token_Annotation := 2 |} ] None ≤ 2.
Proof.
  pose proof (statistics_of_emitted_table [Examples.color_two_segments]
                Examples.the_red_fox None true _ None eq_refl) as H.
  destruct H as (H1 & H2 & _); [solve_ids_distinct|].
  split; [exact H1 | exact H2].
Defined.


(** X8.  The statistics never count more annotations than the collection
    holds: on a table that [create_annotated_token_tsv] emitted,
    amount_of_annotations is at most the length of the annotation list,
    for any token window. *)
Theorem annotations_counted_at_most_once anns tokens tb mode rows text_borders :
  create_annotated_token_tsv anns tokens tb mode = Ok rows →
  ids_distinct_from_none anns →
  amount_of_annotations rows text_borders ≤ Z.of_nat (length anns).
Proof.
  intros Hc Hdist. unfold amount_of_annotations.
  set (file_df := _get_df_with_text_borders rows text_borders).
  unfold filtered_df_with_annotations, drop_duplicates.
  destruct (drop_duplicates_from_spec
              (filter (λ row, startswith tag_B (Tag row)) file_df) [])
    as (Hnd & Hel & _).
  apply inj_le.
  rewrite <- (length_fmap Annotation_ID), <- (length_fmap short_id anns).
  apply submseteq_length, NoDup_submseteq; [done|].
  intros a (r & -> & Hr)%list_elem_of_fmap.
  destruct (Hel r Hr) as [Hin _].
  apply list_elem_of_filter in Hin as [HB Hin].
  assert (Hrow : r ∈ rows) by (eapply elem_of_statistics_window, Hin).
  destruct (emitted_row_annotated _ _ _ _ _ _ Hc Hdist Hrow) as [_ Hann].
  destruct Hann as (_ & (ann & Hann & ->) & _).
  { apply startswith_B_not_O. by destruct (startswith tag_B (Tag r)). }
  apply list_elem_of_fmap. by exists ann.
Qed.

Lemma annotations_counted_at_most_once_witness :
  amount_of_annotations
    [ {| basic := {| Token_ID := 0; Text_Pointer := 0; Token := lit "The" |};
         Tag := lit "B-Phrase"; Annotation_ID := lit "A0";
         Multi_Token_Annotation := 3 |};
      {| basic := {| Token_ID := 1; Text_Pointer := 4; Token := lit "red" |};
         Tag := lit "B-Color"; Annotation_ID := lit "A0";
         Multi_Token_Annotation := 3 |};
      {| basic := {| Token_ID := 2; Text_Pointer := 8; Token := lit "fox" |};
         Tag := lit "I-Phrase"; Annotation_ID := lit "A0";
         Multi_Token_Annotation := 3 |} ] None
  ≤ Z.of_nat (length [Examples.outer_annotation; Examples.nested_annotation]).
Proof.
  apply (annotations_counted_at_most_once
           [Examples.outer_annotation; Examples.nested_annotation]
           Examples.the_red_fox None true _ None eq_refl).
  solve_ids_distinct.
Defined.

(** *** The progression bar chart *)

Lemma text_units_step (i a : Z) :
  0 < a → 0 ≤ i →
  0 ≤ text_units_count i a ∧
  text_units_count (i + 1) a = i `div` a + 1 ∧
  (i `div` a < text_units_count i a ∨ i `div` a = text_units_count i a).
Proof.
  intros Ha Hi. unfold text_units_count.
  pose proof (Z.div_mod i a ltac:(lia)) as E1.
  pose proof (Z.mod_pos_bound i a Ha) as B1.
  pose proof (Z.div_mod (i + 1) a ltac:(lia)) as E2.
  pose proof (Z.mod_pos_bound (i + 1) a Ha) as B2.
  assert (0 ≤ i `div` a) by (apply Z.div_pos; lia).
  repeat case_decide; split; try lia; split; try lia; nia.
Qed.

Lemma text_units_count_mono (i j a : Z) :
  0 < a → 0 ≤ i → i < j → i `div` a < text_units_count j a.
Proof.
  intros Ha Hi Hij. unfold text_units_count.
  pose proof (Z.div_mod i a ltac:(lia)) as E1.
  pose proof (Z.mod_pos_bound i a Ha) as B1.
  pose proof (Z.div_mod j a ltac:(lia)) as E2.
  pose proof (Z.mod_pos_bound j a Ha) as B2.
  case_decide; nia.
Qed.

Lemma elem_of_units (q : Z) (n : nat) :
  q ∈ (Z.of_nat <$> seq 0 n) ↔ 0 ≤ q < Z.of_nat n.
Proof.
  rewrite list_elem_of_fmap. split.
  - intros (k & -> & Hk%elem_of_seq). lia.
  - intros Hq. exists (Z.to_nat q). split; [lia|]. apply elem_of_seq. lia.
Qed.

Lemma dict_get_Some_keys {V} (key : str) (d : list (str * V)) :
  key ∈ d.*1 → ∃ v, dict_get key d = Some v ∧ (key, v) ∈ d.
Proof.
  induction d as [|[k v] d IH]; simpl; [intros H; inversion H|].
  intros [->|Hin]%elem_of_cons.
  - rewrite decide_True by done. exists v. split; [done | left].
  - destruct (decide (k = key)) as [->|Hne].
    + exists v. split; [done | left].
    + destruct (IH Hin) as (w & Hw & Hel). exists w. split; [done | by right].
Qed.

Lemma dict_set_present (key : str) (lst lst' : list Z) (d : list (str * list Z)) :
  dict_get key d = Some lst →
  (dict_set key lst' d).*1 = d.*1 ∧
  (∀ kv, kv ∈ dict_set key lst' d → kv ∈ d ∨ kv = (key, lst')) ∧
  counted_total (dict_set key lst' d)
  = counted_total d - foldr Z.add 0 lst + foldr Z.add 0 lst'.
Proof.
  induction d as [|[k v] d IH]; simpl; [discriminate|].
  destruct (decide (k = key)) as [->|Hne].
  - intros [= ->]. simpl. split; [done|]. split; [|lia].
    intros kv [->|H]%elem_of_cons; [by right | left; by right].
  - intros Hg. destruct (IH Hg) as (Hk & Hel & Ht).
    split; [rewrite !fmap_cons; f_equal; exact Hk|]. split; [|simpl; lia].
    intros kv [->|H]%elem_of_cons; [left; left|].
    destruct (Hel kv H) as [H'| ->]; [left; by right | by right].
Qed.

Lemma sum_list_alter_succ (lst : list Z) : ∀ n : nat,
  (n < length lst)%nat →
  foldr Z.add 0 (list_alter (λ v, v + 1) n lst) = foldr Z.add 0 lst + 1.
Proof.
  induction lst as [|x lst IH]; intros [|n] Hn; simpl in *; try lia.
  rewrite IH by lia. lia.
Qed.

Lemma increment_at_Returns (q : Z) (lst : list Z) :
  0 ≤ q < Z.of_nat (length lst) →
  ∃ lst', increment_at q lst = Returns lst' ∧ length lst' = length lst ∧
          foldr Z.add 0 lst' = foldr Z.add 0 lst + 1.
Proof.
  intros Hq. unfold increment_at. rewrite decide_True by lia.
  rewrite (decide_False (P := q < 0)) by lia.
  eexists. split; [reflexivity|]. split; [apply length_alter|].
  apply sum_list_alter_succ. lia.
Qed.

(** One iteration of the counting loop. *)
Lemma count_row_Returns (a : Z) (count : nat) (st : counting) (i : Z) (row : tagged_row) :
  0 < a → 0 ≤ i → i `div` a < Z.of_nat count →
  Forall (λ kv : str * list Z, length kv.2 = count) (class_instance_counter st) →
  (startswith tag_B (Tag row) = true →
     drop 2 (Tag row) ∈ (class_instance_counter st).*1) →
  text_units st = Z.of_nat <$> seq 0 (Z.to_nat (text_units_count i a)) →
  ∃ st', count_row a st i row = Returns st' ∧
    Forall (λ kv : str * list Z, length kv.2 = count) (class_instance_counter st') ∧
    (class_instance_counter st').*1 = (class_instance_counter st).*1 ∧
    text_units st' = Z.of_nat <$> seq 0 (Z.to_nat (text_units_count (i + 1) a)) ∧
    processed_annotations st'
    = (if is_counted (processed_annotations st) row
       then processed_annotations st ++ [Annotation_ID row]
       else processed_annotations st) ∧
    counted_total (class_instance_counter st')
    = counted_total (class_instance_counter st)
      + (if is_counted (processed_annotations st) row then 1 else 0).
Proof.
  intros Ha Hi Hq Hlen Hkey Hunits. unfold count_row.
  destruct (text_units_step i a Ha Hi) as (H0 & Hnext & Hcur).
  set (units' := if decide (i `div` a ∈ text_units st) then text_units st
                 else text_units st ++ [i `div` a]).
  assert (Hunits' : units' = Z.of_nat <$> seq 0 (Z.to_nat (text_units_count (i + 1) a))).
  { unfold units'. rewrite Hnext, Hunits.
    assert (Hd : 0 ≤ i `div` a) by (apply Z.div_pos; lia).
    destruct Hcur as [Hlt | Heq].
    - rewrite decide_True by (apply elem_of_units; lia).
      replace (i `div` a + 1) with (text_units_count i a); [done|].
      unfold text_units_count in *. case_decide; lia.
    - rewrite decide_False by (rewrite elem_of_units; lia).
      rewrite <- Heq. replace (Z.to_nat (i `div` a + 1)) with (S (Z.to_nat (i `div` a))) by lia.
      rewrite seq_S, fmap_app. simpl. do 2 f_equal. lia. }
  destruct (is_counted (processed_annotations st) row) eqn:Hc.
  - assert (HB : startswith tag_B (Tag row) = true).
    { unfold is_counted in Hc. by apply andb_prop in Hc as [? _]. }
    destruct (dict_get_Some_keys _ _ (Hkey HB)) as (lst & Hg & Hel).
    rewrite Hg.
    assert (Hl : length lst = count).
    { rewrite Forall_forall in Hlen. apply (Hlen _ Hel). }
    destruct (increment_at_Returns (i `div` a) lst) as (lst' & -> & Hl' & Hsum).
    { assert (0 ≤ i `div` a) by (apply Z.div_pos; lia). lia. }
    destruct (dict_set_present _ _ lst' _ Hg) as (Hk & Hin & Ht).
    cbn [and_then]. eexists. split; [reflexivity|].
    cbn [text_units class_instance_counter processed_annotations].
    split; [|split; [done|split; [done|split; [done|]]]].
    + apply Forall_forall. intros kv Hkv.
      destruct (Hin kv Hkv) as [H | ->].
      * rewrite Forall_forall in Hlen. by apply Hlen.
      * simpl. lia.
    + rewrite Ht. lia.
  - eexists. split; [reflexivity|].
    cbn [text_units class_instance_counter processed_annotations].
    split; [done|]. split; [done|]. split; [done|]. split; [done | lia].
Qed.

(** The counting loop over the rest of the table. *)
Lemma count_rows_Returns (a : Z) (count : nat) (rows : list tagged_row) :
  ∀ (st : counting) (i : Z),
  0 < a → 0 ≤ i →
  (i + Z.of_nat (length rows) - 1) `div` a < Z.of_nat count →
  Forall (λ kv : str * list Z, length kv.2 = count) (class_instance_counter st) →
  classes_known (class_instance_counter st).*1 rows →
  text_units st = Z.of_nat <$> seq 0 (Z.to_nat (text_units_count i a)) →
  ∃ st', count_rows a st i rows = Returns st' ∧
    Forall (λ kv : str * list Z, length kv.2 = count) (class_instance_counter st') ∧
    (class_instance_counter st').*1 = (class_instance_counter st).*1 ∧
    text_units st'
    = Z.of_nat <$> seq 0 (Z.to_nat (text_units_count (i + Z.of_nat (length rows)) a)) ∧
    counted_total (class_instance_counter st')
    = counted_total (class_instance_counter st)
      + Z.of_nat (length (counted_rows (processed_annotations st) rows)).
Proof.
  induction rows as [|row rest IH]; intros st i Ha Hi Hq Hlen Hkeys Hunits.
  - exists st. simpl. rewrite Z.add_0_r. split; [done|]. split; [done|].
    split; [done|]. split; [done | lia].
  - cbn [count_rows counted_rows].
    destruct (count_row_Returns a count st i row) as
      (st1 & -> & Hlen1 & Hk1 & Hu1 & Hp1 & Ht1); try done.
    { eapply Z.le_lt_trans; [|exact Hq].
      apply Z.div_le_mono; [lia|]. simpl length. lia. }
    { intros HB. apply Hkeys; [left | done]. }
    cbn [and_then].
    destruct (IH st1 (i + 1)) as (st' & -> & Hlen' & Hk' & Hu' & Ht'); try done; try lia.
    { replace (i + 1 + Z.of_nat (length rest) - 1)
        with (i + Z.of_nat (length (row :: rest)) - 1) by (simpl length; lia). done. }
    { rewrite Hk1. intros r Hr. apply Hkeys. by right. }
    exists st'. split; [done|]. split; [done|]. split; [congruence|]. split.
    + rewrite Hu'.
      replace (i + Z.of_nat (length (row :: rest)))
        with (i + 1 + Z.of_nat (length rest)) by (simpl length; lia).
      done.
    + rewrite Ht', Ht1, Hp1.
      destruct (is_counted (processed_annotations st) row); simpl length; lia.
Qed.

(** The rows the chart counts against the rows the statistics keep. *)
Lemma counted_rows_bounds (rows : list tagged_row) : ∀ processed seen,
  (∀ x, x ∈ processed ↔ x ∈ seen) →
  (length (drop_duplicates_from seen (filter (λ row, startswith tag_B (Tag row)) rows))
   ≤ length (counted_rows processed rows))%nat ∧
  (length (counted_rows processed rows)
   ≤ length (filter (λ row, startswith tag_B (Tag row)) rows))%nat ∧
  (single_token_rows_fresh seen rows →
   length (counted_rows processed rows)
   = length (drop_duplicates_from seen
               (filter (λ row, startswith tag_B (Tag row)) rows))).
Proof.
  induction rows as [|row rest IH]; intros processed seen Hsame; [done|].
  cbn [counted_rows]. rewrite filter_cons. unfold is_counted.
  destruct (startswith tag_B (Tag row)) eqn:HB; cbn [andb].
  2:{ rewrite decide_False by (intros []).
      destruct (IH processed seen Hsame) as (H1 & H2 & H3).
      split; [done|]. split; [done|]. intros Hf. apply H3.
      intros l1 r l2 -> HBr Hm. destruct (Hf (row :: l1) r l2 eq_refl HBr Hm) as [Ha Hb].
      split; [done|]. intros r' Hr'. apply Hb. by right. }
  rewrite decide_True by done. cbn [drop_duplicates_from].
  assert (Hsame' : ∀ x, x ∈ processed ++ [Annotation_ID row]
                        ↔ x ∈ Annotation_ID row :: seen).
  { intros x. rewrite elem_of_app, list_elem_of_singleton, elem_of_cons, Hsame. tauto. }
  assert (Hfresh' : ∀ seen', (∀ x, x ∈ seen' → x ∈ seen ∨ x = Annotation_ID row) →
            single_token_rows_fresh seen (row :: rest) →
            single_token_rows_fresh seen' rest).
  { intros seen' Hs' Hf l1 r l2 -> HBr Hm.
    destruct (Hf (row :: l1) r l2 eq_refl HBr Hm) as [Ha Hb]. split.
    - intros [Hx | Hx]%Hs'; [done|]. apply (Hb row); [left | done | done].
    - intros r' Hr'. apply Hb. by right. }
  destruct (decide (Annotation_ID row ∈ seen)) as [Hin | Hnin].
  - assert (Hsame2 : ∀ x, x ∈ processed ++ [Annotation_ID row] ↔ x ∈ seen).
    { intros x. rewrite Hsame'. rewrite elem_of_cons. split; [intros [->|]; done | by right]. }
    destruct (bool_decide (Multi_Token_Annotation row = 1)) eqn:Hm; cbn [orb andb negb].
    + destruct (IH _ _ Hsame2) as (H1 & H2 & H3). cbn [length].
      split; [lia|]. split; [lia|]. intros Hf. exfalso.
      apply bool_decide_eq_true in Hm.
      destruct (Hf [] row rest eq_refl HB Hm) as [Ha _]. done.
    + rewrite bool_decide_eq_true_2 by (by apply Hsame). cbn [negb].
      destruct (IH _ _ Hsame) as (H1 & H2 & H3). cbn [length].
      split; [lia|]. split; [lia|]. intros Hf. apply H3.
      apply (Hfresh' seen); [by left | done].
  - assert (Hc : bool_decide (Multi_Token_Annotation row = 1)
                 || negb (bool_decide (Multi_Token_Annotation row = 1))
                    && negb (bool_decide (Annotation_ID row ∈ processed)) = true).
    { rewrite (bool_decide_eq_false_2 (Annotation_ID row ∈ processed))
        by (by rewrite Hsame).
      by destruct (bool_decide (Multi_Token_Annotation row = 1)). }
    rewrite Hc. destruct (IH _ _ Hsame') as (H1 & H2 & H3). cbn [length].
    split; [lia|]. split; [lia|]. intros Hf. f_equal. apply H3.
    apply (Hfresh' (Annotation_ID row :: seen)); [|done].
    intros x [->|Hx]%elem_of_cons; [by right | by left].
Qed.

Lemma counted_total_initial (n : nat) (class_names : list str) :
  counted_total ((λ key, (key, replicate n 0)) <$> class_names) = 0.
Proof.
  assert (E : ∀ m, foldr Z.add 0 (replicate m 0) = 0).
  { induction m as [|m IHm]; simpl; lia. }
  induction class_names as [|c cs IH]; [done|].
  rewrite fmap_cons. unfold counted_total in *. cbn [foldr snd].
  rewrite E, IH. lia.
Qed.

(** The whole transformation, for any table. *)
Lemma token_separation_Returns (class_names : list str)
    (input : list tagged_row) (a : Z) :
  0 < a →
  classes_known class_names input →
  let n := text_units_count (Z.of_nat (length input)) a in
  ∃ st, _transform_with_token_separation class_names input a = Returns st ∧
    text_units st = Z.of_nat <$> seq 0 (Z.to_nat n) ∧
    (class_instance_counter st).*1 = class_names ∧
    Forall (λ kv : str * list Z, Z.of_nat (length kv.2) = n)
           (class_instance_counter st) ∧
    counted_total (class_instance_counter st)
    = Z.of_nat (length (counted_rows [] input)).
Proof.
  intros Ha Hkeys n. unfold _transform_with_token_separation.
  rewrite decide_False by lia. fold n.
  set (st0 := {| text_units := [];
                 class_instance_counter :=
                   (λ key, (key, replicate (Z.to_nat n) 0)) <$> class_names;
                 processed_annotations := [] |}).
  assert (Hn : 0 ≤ n).
  { unfold n, text_units_count.
    assert (0 ≤ Z.of_nat (length input) `div` a) by (apply Z.div_pos; lia).
    case_decide; lia. }
  assert (Hk0 : (class_instance_counter st0).*1 = class_names).
  { simpl. rewrite <- list_fmap_compose. apply list_fmap_id. }
  destruct (count_rows_Returns a (Z.to_nat n) input st0 0)
    as (st & Hst & Hlen & Hk & Hu & Ht); try done.
  - destruct input as [|r input'].
    + cbn [length]. change (0 + Z.of_nat 0 - 1) with (-1).
      pose proof (Z.div_lt_upper_bound (-1) a 0 Ha ltac:(lia)). lia.
    + rewrite Z2Nat.id by lia. unfold n.
      apply text_units_count_mono; [lia | simpl length; lia | lia].
  - simpl. apply Forall_fmap, Forall_forall. intros x _. simpl.
    apply length_replicate.
  - by rewrite Hk0.
  - exists st. split; [done|]. split; [by rewrite Hu|]. split; [congruence|].
    split.
    + eapply Forall_impl; [exact Hlen|]. intros kv Hkv. simpl in *. lia.
    + rewrite Ht. simpl. rewrite counted_total_initial. lia.
Qed.

(** X9.  [_transform_with_token_separation] with a unit of a >= 1 tokens,
    on a table whose B- classes are all classes of the class system:
    the transformation succeeds; the text units are 0, 1, ..., n-1 with
    n the number of token units (the table length over a, rounded up);
    every class of the class system has a counter of n entries; and the
    number of annotations shown over all classes and units lies between
    the statistics' amount_of_annotations and the number of B- rows. *)
Theorem token_separation_shape (class_names : list str)
    (input : list tagged_row) (a : Z) :
  0 < a →
  classes_known class_names input →
  let n := text_units_count (Z.of_nat (length input)) a in
  ∃ st, _transform_with_token_separation class_names input a = Returns st ∧
    text_units st = Z.of_nat <$> seq 0 (Z.to_nat n) ∧
    (class_instance_counter st).*1 = class_names ∧
    Forall (λ kv : str * list Z, Z.of_nat (length kv.2) = n)
           (class_instance_counter st) ∧
    amount_of_annotations input None ≤ counted_total (class_instance_counter st) ∧
    counted_total (class_instance_counter st)
    ≤ Z.of_nat (length (filter (λ row, startswith tag_B (Tag row)) input)).
Proof.
  intros Ha Hkeys n.
  destruct (token_separation_Returns class_names input a Ha Hkeys)
    as (st & Hst & Hu & Hk & Hlen & Ht).
  exists st. split; [done|]. split; [done|]. split; [done|]. split; [done|].
  destruct (counted_rows_bounds input [] []) as (H1 & H2 & _); [done|].
  rewrite Ht. unfold amount_of_annotations, filtered_df_with_annotations,
    drop_duplicates. cbn [_get_df_with_text_borders]. lia.
Qed.

Lemma token_separation_shape_witness :
  ∃ st, _transform_with_token_separation [lit "Animal"; lit "Color"]
          Examples.red_fox_table 3 = Returns st ∧
    text_units st = Z.of_nat <$> seq 0 (Z.to_nat (text_units_count 4 3)) ∧
    (class_instance_counter st).*1 = [lit "Animal"; lit "Color"] ∧
    Forall (λ kv : str * list Z, Z.of_nat (length kv.2) = text_units_count 4 3)
           (class_instance_counter st) ∧
    amount_of_annotations Examples.red_fox_table None
    ≤ counted_total (class_instance_counter st) ∧
    counted_total (class_instance_counter st)
    ≤ Z.of_nat (length (filter (λ row, startswith tag_B (Tag row))
                          Examples.red_fox_table)).
Proof.
  apply (token_separation_shape [lit "Animal"; lit "Color"] Examples.red_fox_table 3).
  - lia.
  - intros r Hr HB. unfold Examples.red_fox_table in Hr.
    repeat (apply elem_of_cons in Hr as [-> | Hr]);
      [ first [ vm_compute in HB; discriminate HB
              | apply (proj1 (bool_decide_spec _)); vm_compute; exact I ] .. | inversion Hr ].
Defined.

(** A multi-token value of 1 on an emitted table marks the only row of
    its annotation. *)
Lemma count_id_one_unique (a : str) (ids : list str) (i j : nat) :
  count_id a ids = 1 → ids !! i = Some a → ids !! j = Some a → i = j.
Proof.
  unfold count_id. revert i j. induction ids as [|x ids IH]; intros i j; [done|].
  rewrite filter_cons. destruct (decide (x = a)) as [->|Hne].
  - simpl length. intros Hc.
    assert (Hnil : filter (λ e, e = a) ids = []).
    { destruct (filter _ ids); [done | simpl in Hc; lia]. }
    assert (Hno : ∀ k, ids !! k ≠ Some a).
    { intros k Hk. eapply AlignFacts.filter_nil_iff in Hnil; [by apply Hnil|].
      eapply list_elem_of_lookup_2, Hk. }
    destruct i as [|i], j as [|j]; simpl; try done.
    + intros _ Hj. by destruct (Hno j).
    + intros Hi. by destruct (Hno i).
    + intros Hi. by destruct (Hno i).
  - intros Hc. destruct i as [|i], j as [|j]; simpl.
    + done.
    + intros [= E]. done.
    + intros _ [= E]. done.
    + intros Hi Hj. f_equal. by apply IH.
Qed.

Lemma emitted_single_token_rows_fresh anns tokens tb mode rows :
  create_annotated_token_tsv anns tokens tb mode = Ok rows →
  ids_distinct_from_none anns →
  single_token_rows_fresh [] rows.
Proof.
  intros Hc Hdist l1 r l2 E HB Hm. split; [apply not_elem_of_nil|].
  intros r' Hr' HB' Eid.
  assert (Hr : r ∈ rows) by (rewrite E; apply elem_of_app; right; left).
  destruct (emitted_row_annotated _ _ _ _ _ _ Hc Hdist Hr) as [_ Hann].
  destruct Hann as (_ & _ & Hcount).
  { apply startswith_B_not_O. done. }
  rewrite Hm in Hcount.
  apply list_elem_of_lookup_1 in Hr' as [j Hj].
  assert (H1 : (Annotation_ID <$> rows) !! j = Some (Annotation_ID r)).
  { rewrite list_lookup_fmap, E, lookup_app_l by (eapply lookup_lt_Some, Hj).
    rewrite Hj. simpl. by rewrite Eid. }
  assert (H2 : (Annotation_ID <$> rows) !! length l1 = Some (Annotation_ID r)).
  { rewrite list_lookup_fmap, E, list_lookup_middle by done. done. }
  pose proof (count_id_one_unique _ _ _ _ (eq_sym Hcount) H1 H2) as Eij.
  apply lookup_lt_Some in Hj. lia.
Qed.

(** X10.  On a table that [create_annotated_token_tsv] emitted (no
    annotation id being the sentinel "none"), whose classes are classes
    of the class system, the progression bar chart and the statistics
    agree: the counters of [_transform_with_token_separation] add up to
    amount_of_annotations of the table, for every unit size a >= 1. *)
Theorem bar_chart_total_is_amount_of_annotations anns tokens tb mode rows
    (class_names : list str) (a : Z) :
  create_annotated_token_tsv anns tokens tb mode = Ok rows →
  ids_distinct_from_none anns →
  classes_known class_names rows →
  0 < a →
  ∃ st, _transform_with_token_separation class_names rows a = Returns st ∧
        counted_total (class_instance_counter st) = amount_of_annotations rows None.
Proof.
  intros Hc Hdist Hkeys Ha.
  destruct (token_separation_Returns class_names rows a Ha Hkeys)
    as (st & Hst & _ & _ & _ & Ht).
  exists st. split; [done|]. rewrite Ht.
  destruct (counted_rows_bounds rows [] []) as (_ & _ & H3); [done|].
  rewrite H3 by (eapply emitted_single_token_rows_fresh; done).
  reflexivity.
Qed.

Lemma bar_chart_total_is_amount_of_annotations_witness :
  ∃ st, _transform_with_token_separation [lit "Color"]
          [ {| basic := {| Token_ID := 0; Text_Pointer := 0; Token := lit "The" |};
               Tag := lit "B-Color"; Annotation_ID := lit "C0FFEE";
               Multi_Token_Annotation := 2 |};
            {| basic := {| Token_ID := 1; Text_Pointer := 4; Token := lit "red" |};
               Tag := lit "O"; Annotation_ID := lit "none";
               Multi_Token_Annotation := 0 |};
            {| basic := {| Token_ID := 2; Text_Pointer := 8; Token := lit "fox" |};
               Tag := lit "B-Color"; Annotation_ID := lit "C0FFEE";
               Multi_Token_Annotation := 2 |} ] 2 = Returns st ∧
        counted_total (class_instance_counter st)
        = amount_of_annotations
            [ {| basic := {| Token_ID := 0; Text_Pointer := 0; Token := lit "The" |};
                 Tag := lit "B-Color"; Annotation_ID := lit "C0FFEE";
                 Multi_Token_Annotation := 2 |};
              {| basic := {| Token_ID := 1; Text_Pointer := 4; Token := lit "red" |};
                 Tag := lit "O"; Annotation_ID := lit "none";
                 Multi_Token_Annotation := 0 |};
              {| basic := {| Token_ID := 2; Text_Pointer := 8; Token := lit "fox" |};
                 Tag := lit "B-Color"; Annotation_ID := lit "C0FFEE";
                 Multi_Token_Annotation := 2 |} ] None.
Proof.
  apply (bar_chart_total_is_amount_of_annotations [Examples.color_two_segments]
           Examples.the_red_fox None true _ [lit "Color"] 2 eq_refl).
  - solve_ids_distinct.
  - intros r Hr HB.
    repeat (apply elem_of_cons in Hr as [-> | Hr]);
      [ first [ vm_compute in HB; discriminate HB
              | apply (proj1 (bool_decide_spec _)); vm_compute; exact I ] .. | inversion Hr ].
  - lia.
Defined.

(** X25.  The amount the chart reports for the last text unit is the
    number of rows of that unit: for a unit size a >= 1 and a table of
    n >= 1 rows it lies between 1 and a, and the rows whose text unit
    [row_index // a] is the last one are exactly the last
    [last_text_unit_amount] rows of the table. *)
Theorem last_text_unit_holds_the_reported_amount (n a : Z) :
  0 < a → 0 < n →
  1 ≤ last_text_unit_amount n a ≤ a ∧
  last_text_unit_amount n a ≤ n ∧
  ∀ row_index, 0 ≤ row_index < n →
    (row_index `div` a = text_units_count n a - 1
     ↔ n - last_text_unit_amount n a ≤ row_index).
Proof.
  intros Ha Hn. unfold last_text_unit_amount, text_units_count.
  pose proof (Z.div_mod n a ltac:(lia)) as Hdm.
  pose proof (Z.mod_pos_bound n a Ha) as Hm.
  pose proof (Z.div_pos n a ltac:(lia) Ha) as Hq.
  assert (Hunit : ∀ i q, 0 ≤ i → (i `div` a = q ↔ a * q ≤ i < a * q + a)).
  { intros i q Hi.
    pose proof (Z.div_mod i a ltac:(lia)) as Hdi.
    pose proof (Z.mod_pos_bound i a Ha) as Hmi.
    split; [intros <-; lia|]. intros Hb.
    symmetry. apply (Z.div_unique i a q (i - a * q)); lia. }
  generalize dependent (n `div` a). generalize dependent (n `mod` a).
  intros r Hr q Hn' Hq.
  destruct (decide (r = 0)) as [E|E].
  - rewrite decide_False by (intros H; by apply H). subst r.
    assert (1 ≤ q) by nia.
    split; [lia|]. split; [nia|].
    intros i Hi. rewrite Hunit by lia. nia.
  - rewrite decide_True by done. split; [lia|]. split; [nia|].
    intros i Hi. rewrite Hunit by lia. nia.
Qed.

Lemma last_text_unit_holds_the_reported_amount_witness :
  1 ≤ last_text_unit_amount 7 3 ≤ 3 ∧
  last_text_unit_amount 7 3 ≤ 7 ∧
  ∀ row_index, 0 ≤ row_index < 7 →
    (row_index `div` 3 = text_units_count 7 3 - 1
     ↔ 7 - last_text_unit_amount 7 3 ≤ row_index).
Proof. apply (last_text_unit_holds_the_reported_amount 7 3); lia. Defined.

(** For a table without rows the reported amount is the unit size, while
    there is no text unit at all. *)
Example last_text_unit_of_the_empty_table (a : Z) :
  a ≠ 0 → last_text_unit_amount 0 a = a ∧ text_units_count 0 a = 0.
Proof.
  intros Ha. unfold last_text_unit_amount, text_units_count.
  rewrite Z.mod_0_l by done. rewrite Z.div_0_l by done.
  rewrite decide_True by done. by rewrite decide_False by (intros H; by apply H).
Qed.

End AnalyzerTheorems.

(* ===================================================================== *)
(** ** Properties of the chapter selection *)
(* ===================================================================== *)

Module ChapterTheorems.
Import Analyzer AnalyzerSpec.

(** *** [str.strip] *)

Lemma lstrip_head (s : str) :
  lstrip s = [] ∨ ∃ c t, lstrip s = c :: t ∧ isspace c = false.
Proof.
  induction s as [|c s IH]; simpl; [by left|].
  destruct (isspace c) eqn:Hc; [done|]. right. by exists c, s.
Qed.

Lemma lstrip_fixed (c : char) (t : str) :
  isspace c = false → lstrip (c :: t) = c :: t.
Proof. intros Hc. simpl. by rewrite Hc. Qed.

Lemma lstrip_idemp (s : str) : lstrip (lstrip s) = lstrip s.
Proof.
  destruct (lstrip_head s) as [-> | (c & t & -> & Hc)]; [done|].
  by apply lstrip_fixed.
Qed.

Lemma lstrip_suffix (s : str) : ∃ w, s = w ++ lstrip s.
Proof.
  induction s as [|c s [w IH]]; simpl; [by exists []|].
  destruct (isspace c); [|by exists []].
  exists (c :: w). simpl. by f_equal.
Qed.

Lemma strip_stripped (s : str) : stripped (strip s).
Proof.
  unfold stripped, strip. rewrite reverse_involutive, lstrip_idemp.
  split; [|done].
  set (t := lstrip s).
  destruct (lstrip_suffix (reverse t)) as [w Hw].
  set (u := lstrip (reverse t)) in *.
  assert (Et : t = reverse u ++ reverse w).
  { rewrite <- (reverse_involutive t), Hw, reverse_app. done. }
  destruct (reverse u) as [|c v] eqn:Eu; [done|].
  destruct (lstrip_head s) as [E0 | (c' & t' & E1 & Hc)].
  - fold t in E0. rewrite E0 in Et. discriminate.
  - fold t in E1. rewrite E1 in Et. injection Et as -> _.
    by apply lstrip_fixed.
Qed.

(** *** The chapter titles *)

Lemma merged_heads_from_length (heads : list str) : ∀ acc,
  (length acc + length heads
   ≤ length (foldl (λ head_tags head, head_tags ++ strip head ++ [space]) acc heads))%nat.
Proof.
  induction heads as [|h heads IH]; intros acc; simpl; [lia|].
  etransitivity; [|apply IH]. rewrite !length_app. simpl. lia.
Qed.

Lemma heads_content_of_spec (text_chapters : list (list str)) :
  length (heads_content_of text_chapters)
  = length (chapters_with_head text_chapters) ∧
  ∀ t, t ∈ heads_content_of text_chapters → stripped t.
Proof.
  unfold heads_content_of, chapters_with_head.
  induction text_chapters as [|heads chapters [IH1 IH2]].
  - split; [done|]. intros t Ht. inversion Ht.
  - rewrite filter_cons. cbn [omap list_omap]. destruct heads as [|h heads].
    + rewrite (decide_False (P := [] ≠ [])) by (intros H; by apply H).
      rewrite (decide_False (P := length (merged_heads []) ≠ 0%nat))
        by (intros H; by apply H).
      done.
    + rewrite (decide_True (P := h :: heads ≠ [])) by done.
      pose proof (merged_heads_from_length (h :: heads) []) as Hlen.
      fold (merged_heads (h :: heads)) in Hlen. cbn [length] in Hlen.
      rewrite (decide_True (P := length (merged_heads (h :: heads)) ≠ 0%nat)) by lia.
      cbn [length]. split; [by rewrite IH1|].
      intros t [->|Ht]%elem_of_cons; [apply strip_stripped | by apply IH2].
Qed.

(** X11.  [extract_head_from_chapters] counts as valid every chapter that
    holds at least one head element, also when all its heads are blank
    (its title is then the empty string), and no chapter without a head
    element.  With fewer than three valid chapters it raises ValueError;
    otherwise it returns one title per valid chapter, each without
    whitespace at either end. *)
Theorem valid_chapters_have_a_head_element (text_chapters : list (list str)) :
  let valid := length (chapters_with_head text_chapters) in
  ((valid < 3)%nat → extract_head_from_chapters text_chapters = Raises (Exn ValueError)) ∧
  ((3 ≤ valid)%nat →
     ∃ heads_content,
       extract_head_from_chapters text_chapters = Returns heads_content ∧
       length heads_content = valid ∧
       ∀ t, t ∈ heads_content → stripped t).
Proof.
  intros valid. destruct (heads_content_of_spec text_chapters) as [Hlen Hstr].
  fold valid in Hlen. unfold extract_head_from_chapters.
  destruct text_chapters as [|c cs] eqn:E.
  { split; [done|]. intros H. simpl in valid. unfold valid in H. lia. }
  rewrite <- E in *. clear E.
  destruct (heads_content_of text_chapters) as [|t ts] eqn:Eh.
  { split; [done|]. simpl in Hlen. lia. }
  split.
  - intros H. rewrite decide_True by lia. done.
  - intros H. rewrite decide_False by lia. exists (t :: ts). done.
Qed.

(** *** [np.array_split] in three *)

Lemma split_list_parts {A} (l : list A) :
  let q := (length l `div` 3)%nat in
  let r := (length l `mod` 3)%nat in
  let s1 := (q + (if decide (1 ≤ r)%nat then 1 else 0))%nat in
  let s2 := (q + (if decide (2 ≤ r)%nat then 1 else 0))%nat in
  split_list l = [take s1 l; take s2 (drop s1 l); take q (drop s2 (drop s1 l))] ∧
  (s1 + s2 + q = length l)%nat.
Proof.
  intros q r s1 s2. unfold split_list, array_split, section_sizes.
  fold q r.
  pose proof (Nat.div_mod_eq (length l) 3) as E. fold q r in E.
  pose proof (Nat.mod_upper_bound (length l) 3 ltac:(lia)) as Hr. fold r in Hr.
  unfold s1, s2.
  destruct r as [|[|[|r]]]; simpl; [| | |lia];
    (split; [repeat f_equal; lia | lia]).
Qed.

(** X12.  [split_list] cuts a list in three consecutive parts that put
    together give the list again; their lengths differ by at most one,
    a longer part coming before a shorter one. *)
Theorem split_list_is_a_partition {A} (l : list A) :
  ∃ beginning middle ending,
    split_list l = [beginning; middle; ending] ∧
    beginning ++ middle ++ ending = l ∧
    (length ending ≤ length middle ≤ length beginning)%nat ∧
    (length beginning ≤ length ending + 1)%nat.
Proof.
  destruct (split_list_parts l) as [E Hsum]. cbn zeta in E, Hsum.
  eexists _, _, _. split; [exact E|].
  set (q := (length l `div` 3)%nat) in *.
  set (r := (length l `mod` 3)%nat) in *.
  split.
  - rewrite <- (take_drop (q + (if decide (1 ≤ r)%nat then 1 else 0)) l) at 4.
    f_equal.
    rewrite <- (take_drop (q + (if decide (2 ≤ r)%nat then 1 else 0))
                  (drop _ l)) at 3.
    f_equal. apply take_ge. rewrite !length_drop. lia.
  - rewrite !length_take, !length_drop. repeat case_decide; lia.
Qed.

(** X13.  [get_random_middle_chapter] on an existing .xml file whose
    text holds at least three valid chapters returns the title of a
    valid chapter that is neither the first nor the last one, whatever
    the random generator draws. *)
Theorem middle_chapter_is_neither_first_nor_last (xml_file : str)
    (text_chapters : list (list str)) (randbelow : nat → nat)
    (heads_content : list str) :
  endswith (lit ".xml") xml_file = true →
  extract_head_from_chapters text_chapters = Returns heads_content →
  (∀ n, (0 < n)%nat → (randbelow n < n)%nat) →
  ∃ (p : nat) (title : str),
    get_random_middle_chapter true xml_file text_chapters randbelow = Returns title ∧
    heads_content !! p = Some title ∧
    (0 < p < length heads_content - 1)%nat.
Proof.
  intros Hxml Hheads Hrand. unfold get_random_middle_chapter.
  rewrite Hxml, Hheads. cbn [negb and_then].
  assert (Hn : (3 ≤ length heads_content)%nat).
  { unfold extract_head_from_chapters in Hheads.
    destruct text_chapters; [discriminate|].
    destruct (heads_content_of _); [discriminate|].
    case_decide; [discriminate|]. injection Hheads as <-. lia. }
  destruct (split_list_parts heads_content) as [E Hsum]. cbn zeta in E, Hsum.
  rewrite E.
  set (q := (length heads_content `div` 3)%nat) in *.
  set (r := (length heads_content `mod` 3)%nat) in *.
  set (s1 := (q + (if decide (1 ≤ r)%nat then 1 else 0))%nat) in *.
  set (s2 := (q + (if decide (2 ≤ r)%nat then 1 else 0))%nat) in *.
  assert (Hq : (1 ≤ q)%nat).
  { unfold q. apply Nat.div_le_lower_bound; lia. }
  assert (Hlen : length (take s2 (drop s1 heads_content)) = s2).
  { rewrite length_take, length_drop. lia. }
  unfold random_choice. rewrite Hlen.
  pose proof (Hrand s2 ltac:(unfold s2; lia)) as Hk.
  destruct (take s2 (drop s1 heads_content) !! randbelow s2) as [title|] eqn:Et.
  2:{ apply lookup_ge_None in Et. lia. }
  exists (s1 + randbelow s2)%nat, title. split; [done|].
  rewrite lookup_take_lt, lookup_drop in Et by lia.
  split; [done|]. unfold s1 in *. lia.
Qed.

Lemma middle_chapter_is_neither_first_nor_last_witness :
  ∃ (p : nat) (title : str),
    get_random_middle_chapter true (lit "novel.xml")
      [[lit "I"]; [lit "II"]; []; [lit " III "; lit "Ende"]; [lit "IV"]]
      (λ n, 0%nat) = Returns title ∧
    [lit "I"; lit "II"; lit "III Ende"; lit "IV"] !! p = Some title ∧
    (0 < p < length [lit "I"; lit "II"; lit "III Ende"; lit "IV"] - 1)%nat.
Proof.
  apply (middle_chapter_is_neither_first_nor_last (lit "novel.xml")
           [[lit "I"]; [lit "II"]; []; [lit " III "; lit "Ende"]; [lit "IV"]]
           (λ n, 0%nat) [lit "I"; lit "II"; lit "III Ende"; lit "IV"]).
  - vm_compute. reflexivity.
  - vm_compute. reflexivity.
  - intros n Hn. exact Hn.
Defined.

End ChapterTheorems.

(* ===================================================================== *)
(** ** Further properties of the alignment *)
(* ===================================================================== *)

Module AlignMore.
Import Align Spec AlignFacts AlignVocabulary Stanford.

(** *** The window start is an offset *)

Lemma mask_beginning_offset b e row r :
  mask_beginning (Some (b, e)) row r = mask_beginning None (with_offset b row) r.
Proof. unfold mask_beginning. simpl. by rewrite Z.add_0_r. Qed.

Lemma mask_inner_offset b e row r :
  mask_inner (Some (b, e)) row r = mask_inner None (with_offset b row) r.
Proof. unfold mask_inner. simpl. by rewrite Z.add_0_r. Qed.

Lemma mask_covering_offset b e row r :
  mask_covering (Some (b, e)) row r = mask_covering None (with_offset b row) r.
Proof.
  unfold mask_covering, col_le, col_gt, col_sub. simpl.
  destruct (start_point r) as [s|], (end_point r) as [t|]; simpl; try done.
  - f_equal; apply bool_decide_ext; lia.
  - f_equal. apply bool_decide_ext; lia.
Qed.

Lemma filter_bool_ext {A} (p q : A → bool) (l : list A) :
  (∀ x, p x = q x) → filter (λ x, p x) l = filter (λ x, q x) l.
Proof.
  intros E. induction l as [|x l IH]; [done|].
  rewrite !filter_cons, IH, E. done.
Qed.

Lemma new_iob2_tag_offset df b e row :
  new_iob2_tag df (Some (b, e)) row = new_iob2_tag df None (with_offset b row).
Proof.
  unfold new_iob2_tag.
  rewrite (filter_bool_ext _ _ df (mask_beginning_offset b e row)).
  rewrite (filter_bool_ext _ _ df (mask_inner_offset b e row)).
  reflexivity.
Qed.

Lemma id_step_offset df anns b e st row t :
  id_step df anns (Some (b, e)) st row t = id_step df anns None st (with_offset b row) t.
Proof.
  unfold id_step, first_covering_annotation.
  rewrite (filter_bool_ext _ _ df (mask_covering_offset b e row)).
  reflexivity.
Qed.

Lemma id_loop_offset df anns b e (tokens : list token_row) : ∀ (tags : list str) st,
  id_loop df anns (Some (b, e)) st (zip tokens tags)
  = id_loop df anns None st (zip (with_offset b <$> tokens) tags).
Proof.
  induction tokens as [|tok tokens IH]; intros [|t tags] st; try reflexivity.
  cbn [zip zip_with fmap list_fmap id_loop].
  rewrite id_step_offset.
  destruct (id_step df anns None st (with_offset b tok) t); simpl; [apply IH | done].
Qed.

Lemma first_loop_offset df b e (tokens : list token_row) :
  first_loop df (Some (b, e)) tokens
  = first_loop df None (with_offset b <$> tokens).
Proof.
  induction tokens as [|tok tokens IH]; [done|].
  cbn [first_loop fmap list_fmap]. rewrite IH, new_iob2_tag_offset. reflexivity.
Qed.

Lemma added_columns_assembled (f : token_row → token_row) (tokens : list token_row) :
  ∀ (tags : list str) (im : list (str * Z)),
  added_columns <$>
    zip_with (λ (rt : token_row * str) (im : str * Z),
                {| basic := rt.1; Tag := rt.2; Annotation_ID := im.1;
                   Multi_Token_Annotation := im.2 |})
      (zip tokens tags) im
  = added_columns <$>
    zip_with (λ (rt : token_row * str) (im : str * Z),
                {| basic := rt.1; Tag := rt.2; Annotation_ID := im.1;
                   Multi_Token_Annotation := im.2 |})
      (zip (f <$> tokens) tags) im.
Proof.
  induction tokens as [|tok tokens IH]; intros [|t tags] [|x im]; try reflexivity.
  cbn [zip zip_with fmap list_fmap]. f_equal. apply IH.
Qed.

(** X14.  In [create_annotated_token_tsv] the start of the text window is
    an offset and nothing more: aligning the tokens of a window
    (text_borders = (b, e), offsets counted from b) gives the tags, the
    annotation ids and the multi-token values that aligning the same
    tokens with their offsets in the whole text gives without
    text_borders, and fails when that fails.  The end e of the window is
    not read. *)
Theorem window_start_is_an_offset anns tokens (b e : Z) mode :
  result_map (fmap added_columns)
    (create_annotated_token_tsv anns tokens (Some (b, e)) mode)
  = result_map (fmap added_columns)
      (create_annotated_token_tsv anns (with_offset b <$> tokens) None mode).
Proof.
  unfold create_annotated_token_tsv.
  set (df := ac_data_df mode anns).
  rewrite first_loop_offset.
  destruct (first_loop df None (with_offset b <$> tokens)) as [tags|err];
    cbn [bind]; [|done].
  rewrite id_loop_offset.
  destruct (id_loop df anns None _ _) as [st|err]; simpl; [|done].
  f_equal. apply added_columns_assembled.
Qed.

(** *** The two ways to read the segments *)

Lemma explode_one_segment index a :
  one_segment a →
  explode index a = [ {| name := index; start_point := Some (df_start_point a);
                         end_point := Some (df_end_point a); tag := df_tag a |} ].
Proof. unfold one_segment, explode. intros ->. reflexivity. Qed.

Lemma ac_data_df_one_segment (anns : list Annotation) :
  (∀ a, a ∈ anns → one_segment a) →
  ac_data_df true anns = ac_data_df false anns.
Proof.
  unfold ac_data_df. generalize explode_one_segment.
  generalize explode. intros ex Hex.
  assert (G : ∀ (f : nat → nat),
    (∀ a, a ∈ anns → one_segment a) →
    mjoin (imap (λ i a, ex (f i) a) anns)
    = imap (λ i a, {| name := f i; start_point := Some (df_start_point a);
                      end_point := Some (df_end_point a); tag := df_tag a |}) anns).
  { induction anns as [|a anns IH]; intros f Hall; [done|].
    rewrite !imap_cons. cbn [mjoin list_join].
    rewrite Hex by (apply Hall; left). cbn [app]. f_equal.
    apply (IH (f ∘ S)). intros a' Ha'. apply Hall. by right. }
  intros Hall. apply (G (λ i, i) Hall).
Qed.

(** X15.  When every annotation is one continuous segment (its only
    selector is the range of its row of the collection's frame), the
    flag use_all_text_selection_segments makes no difference: both
    settings give the same table, or fail alike. *)
Theorem segments_flag_irrelevant_for_continuous_annotations anns tokens tb :
  (∀ a, a ∈ anns → one_segment a) →
  create_annotated_token_tsv anns tokens tb true
  = create_annotated_token_tsv anns tokens tb false.
Proof.
  intros Hall. unfold create_annotated_token_tsv.
  by rewrite (ac_data_df_one_segment anns Hall).
Qed.

Lemma segments_flag_irrelevant_witness :
  create_annotated_token_tsv
    [Examples.outer_annotation; Examples.nested_annotation]
    Examples.the_red_fox None true
  = create_annotated_token_tsv
      [Examples.outer_annotation; Examples.nested_annotation]
      Examples.the_red_fox None false.
Proof.
  apply (segments_flag_irrelevant_for_continuous_annotations
           [Examples.outer_annotation; Examples.nested_annotation]
           Examples.the_red_fox None).
  intros a Ha.
  repeat (apply elem_of_cons in Ha as [-> | Ha]); [reflexivity .. | inversion Ha].
Defined.

(** *** Tag and id of an inner token *)

Lemma ac_data_df_tag mode anns r :
  r ∈ ac_data_df mode anns →
  ∃ a, anns !! name r = Some a ∧ tag r = df_tag a.
Proof.
  unfold ac_data_df. destruct mode.
  - intros (l & Hr & Hl)%list_elem_of_join.
    apply elem_of_lookup_imap in Hl as (i & a & -> & Ha).
    exists a. rewrite (explode_name _ _ _ Hr). split; [done|].
    unfold explode in Hr. destruct (data_items a) as [|it items].
    + by apply list_elem_of_singleton in Hr as ->.
    + by apply list_elem_of_fmap in Hr as (it' & -> & _).
  - intros (i & a & -> & Ha)%elem_of_lookup_imap. simpl. by exists a.
Qed.

Lemma new_iob2_tag_cases df tb row :
  (∃ r, filter (λ r, mask_beginning tb row r) df !! 0%nat = Some r ∧
        new_iob2_tag df tb row = tag_B ++ tag r) ∨
  (filter (λ r, mask_beginning tb row r) df = [] ∧
   ∃ r, filter (λ r, mask_inner tb row r) df !! 0%nat = Some r ∧
        new_iob2_tag df tb row = tag_I ++ tag r) ∨
  (filter (λ r, mask_beginning tb row r) df = [] ∧
   filter (λ r, mask_inner tb row r) df = [] ∧
   new_iob2_tag df tb row = tag_O).
Proof.
  unfold new_iob2_tag.
  destruct (filter (λ r, mask_beginning tb row r) df) as [|rb ?].
  - destruct (filter (λ r, mask_inner tb row r) df) as [|ri ?].
    + right. right. done.
    + right. left. split; [done|]. by exists ri.
  - left. by exists rb.
Qed.

(** X16.  In an emitted table the class and the Annotation_ID of every
    I- row come from the same annotation: the first one, in the order of
    the collection's segments, with a segment that holds the token's
    offset strictly between its bounds. *)
Theorem inner_row_tag_and_id_agree anns tokens tb mode rows row :
  create_annotated_token_tsv anns tokens tb mode = Ok rows →
  row ∈ rows →
  startswith tag_I (Tag row) = true →
  ∃ r ann,
    first_match (strictly_inside (Text_Pointer (basic row) + border_shift tb))
      (ac_data_df mode anns) r ∧
    anns !! name r = Some ann ∧
    Tag row = tag_I ++ df_tag ann ∧
    Annotation_ID row = short_id ann.
Proof.
  intros Hc Hrow HI.
  destruct (create_Ok_rows _ _ _ _ _ Hc) as [_ Hrows].
  destruct (Hrows row Hrow) as (Htag & Hid & _).
  set (df := ac_data_df mode anns) in *.
  destruct (is_linebreak (Token (basic row))) eqn:Hl.
  { rewrite Htag, (new_iob2_tag_linebreak _ _ _ Hl) in HI. vm_compute in HI. discriminate HI. }
  destruct (new_iob2_tag_cases df tb (basic row))
    as [(rb & _ & Eb) | [(Hnob & ri & Hri & Ei) | (_ & _ & EO)]].
  - exfalso. rewrite Htag, Eb in HI. vm_compute in HI. discriminate HI.
  - destruct (filter (λ r, mask_inner tb (basic row) r) df) as [|ri' rest] eqn:Ef;
      [discriminate|]. injection Hri as ->.
    pose proof (filter_head_first_match _ _ _ _ Ef) as Hfm.
    assert (Hcov : filter (λ r, mask_covering tb (basic row) r) df
                   = filter (λ r, mask_inner tb (basic row) r) df).
    { apply AlignTheorems.filter_ext_elem. intros x Hx.
      rewrite mask_covering_spec, mask_inner_spec by done.
      assert (Hns : ¬ starts_at (Text_Pointer (basic row) + border_shift tb) x).
      { intros Hs. eapply filter_nil_iff in Hnob; [|exact Hx].
        apply Hnob. by apply mask_beginning_spec. }
      unfold covers, strictly_inside, starts_at in *. split.
      - intros (s & e & Hs & He & H1 & H2). exists s, e.
        repeat split; try done. destruct (decide (s = Text_Pointer (basic row) + border_shift tb)) as [->|]; [done | lia].
      - intros (s & e & Hs & He & H1 & H2). exists s, e. repeat split; try done. lia. }
    unfold row_annotation_id in Hid. rewrite Hl, orb_false_r in Hid.
    rewrite bool_decide_eq_false_2 in Hid.
    2:{ rewrite Htag, Ei. intros E. vm_compute in E. discriminate E. }
    unfold first_covering_annotation in Hid. rewrite Hcov, Ef in Hid. simpl in Hid.
    destruct (first_match_elem _ _ _ Hfm) as [Hin _].
    destruct (ac_data_df_tag mode anns ri Hin) as (ann & Hann & Ht).
    rewrite Hann in Hid. simpl in Hid. injection Hid as Hid.
    exists ri, ann. split.
    + destruct Hfm as (l1 & l2 & E & Hx & Hl1). exists l1, l2.
      split; [done|]. split; [by apply mask_inner_spec in Hx|].
      intros y Hy Hs. apply (Hl1 y Hy). by apply mask_inner_spec.
    + split; [done|]. split; [by rewrite Htag, Ei, Ht | done].
  - exfalso. rewrite Htag, EO in HI. vm_compute in HI. discriminate HI.
Qed.

Lemma inner_row_tag_and_id_agree_witness :
  ∃ r ann,
    first_match (strictly_inside (8 + border_shift None))
      (ac_data_df true [Examples.outer_annotation; Examples.nested_annotation]) r ∧
    [Examples.outer_annotation; Examples.nested_annotation] !! name r = Some ann ∧
    lit "I-Phrase" = tag_I ++ df_tag ann ∧
    lit "A0" = short_id ann.
Proof.
  eapply (inner_row_tag_and_id_agree
            [Examples.outer_annotation; Examples.nested_annotation]
            Examples.the_red_fox None true _
            {| basic := {| Token_ID := 2; Text_Pointer := 8; Token := lit "fox" |};
               Tag := lit "I-Phrase"; Annotation_ID := lit "A0";
               Multi_Token_Annotation := 3 |} eq_refl).
  - right. right. left.
  - reflexivity.
Defined.


(** *** When no table is emitted *)

Lemma row_annotation_id_Raise mode anns tb row e :
  let df := ac_data_df mode anns in
  row_annotation_id df anns tb row (new_iob2_tag df tb row) = Raise e
  ↔ e = IndexError ∧ starts_uncovered df tb row.
Proof.
  intros df. unfold row_annotation_id, starts_uncovered. split.
  - destruct (is_linebreak (Token row)) eqn:Hl.
    { rewrite orb_true_r. discriminate. }
    rewrite orb_false_r.
    destruct (bool_decide (new_iob2_tag df tb row = tag_O)) eqn:HO; [discriminate|].
    apply bool_decide_eq_false in HO.
    unfold first_covering_annotation.
    destruct (filter (λ r, mask_covering tb row r) df) as [|rc rest] eqn:Ec.
    2:{ apply filter_head_first_match, first_match_elem in Ec as [Hin _].
        destruct (ac_data_df_name mode anns rc Hin) as [a Ha].
        simpl. fold df. rewrite Ha. discriminate. }
    simpl. intros [= <-]. split; [done|]. split; [done|].
    assert (Hnocov : ∀ r, r ∈ df → ¬ covers (Text_Pointer row + border_shift tb) r).
    { intros r Hr Hcov. eapply filter_nil_iff in Ec; [|exact Hr].
      apply Ec. by apply mask_covering_spec. }
    split; [|done].
    destruct (new_iob2_tag_cases df tb row)
      as [(rb & Hrb & _) | [(_ & ri & Hri & _) | (_ & _ & EO)]]; [| |done].
    + destruct (filter (λ r, mask_beginning tb row r) df) as [|rb' ?] eqn:Eb;
        [discriminate|]. injection Hrb as ->.
      apply filter_head_first_match, first_match_elem in Eb as [Hin Hm].
      exists rb. split; [done|]. by apply mask_beginning_spec in Hm.
    + exfalso.
      destruct (filter (λ r, mask_inner tb row r) df) as [|ri' ?] eqn:Ei;
        [discriminate|]. injection Hri as ->.
      apply filter_head_first_match, first_match_elem in Ei as [Hin Hm].
      apply mask_inner_spec in Hm as (s & t & Hs & Ht & H1 & H2); [|done].
      apply (Hnocov ri Hin). exists s, t. repeat split; try done. lia.
  - intros (-> & Hl & Hstart & Hnocov). rewrite Hl, orb_false_r.
    destruct (new_iob2_tag_B df tb row Hl Hstart) as (r & _ & ->).
    rewrite bool_decide_eq_false_2
      by (intros E; vm_compute in E; discriminate E).
    unfold first_covering_annotation.
    assert (Ec : filter (λ r, mask_covering tb row r) df = []).
    { apply filter_nil_iff. intros y Hy Hm. apply (Hnocov y Hy).
      by apply mask_covering_spec. }
    rewrite Ec. reflexivity.
Qed.

Lemma id_step_Raise df anns tb st row t e :
  id_step df anns tb st row t = Raise e ↔ row_annotation_id df anns tb row t = Raise e.
Proof.
  unfold id_step, row_annotation_id.
  destruct (bool_decide (t = tag_O) || is_linebreak (Token row));
    [split; discriminate|].
  destruct (first_covering_annotation df anns tb row); simpl;
    [split; discriminate | split; intros [= ->]; reflexivity].
Qed.

Lemma id_loop_Raise df anns tb (rows : list (token_row * str)) : ∀ st,
  (∀ e, id_loop df anns tb st rows = Raise e →
        ∃ rt, rt ∈ rows ∧ row_annotation_id df anns tb rt.1 rt.2 = Raise e) ∧
  (∀ rt e, rt ∈ rows → row_annotation_id df anns tb rt.1 rt.2 = Raise e →
           ∃ e', id_loop df anns tb st rows = Raise e').
Proof.
  induction rows as [|[row t] rest IH]; intros st.
  - split; [discriminate|]. intros rt e Hrt. inversion Hrt.
  - cbn [id_loop]. split.
    + intros e. destruct (id_step df anns tb st row t) as [st1|e1] eqn:Hs; simpl.
      * intros Hl. destruct (proj1 (IH st1) e Hl) as (rt & Hrt & Hr).
        exists rt. split; [by right | done].
      * intros [= ->]. exists (row, t). split; [left|]. by apply id_step_Raise in Hs.
    + intros rt e Hrt Hr.
      destruct (id_step df anns tb st row t) as [st1|e1] eqn:Hs; simpl; [|by eexists].
      apply elem_of_cons in Hrt as [-> | Hrt].
      * apply (id_step_Raise _ _ _ st) in Hr. simpl in Hr. congruence.
      * apply (proj2 (IH st1) rt e Hrt Hr).
Qed.

(** X17.  A token that is no line break and sits at the start of a
    segment but in the range [start, end) of no segment (a segment of
    length zero or less, not covered by another one) makes
    [create_annotated_token_tsv] fail: no table is written.  And the
    IndexError of [iloc[0]] comes about in this way only: when the run
    ends with it, there is such a token. *)
Theorem alignment_fails_on_uncovered_segment_start anns tokens tb mode :
  ((∃ tok, tok ∈ tokens ∧ starts_uncovered (ac_data_df mode anns) tb tok) →
     ∃ e, create_annotated_token_tsv anns tokens tb mode = Raise e) ∧
  (create_annotated_token_tsv anns tokens tb mode = Raise IndexError →
     ∃ tok, tok ∈ tokens ∧ starts_uncovered (ac_data_df mode anns) tb tok).
Proof.
  unfold create_annotated_token_tsv.
  set (df := ac_data_df mode anns).
  destruct (first_loop df tb tokens) as [tags0|e0] eqn:Hf; cbn [bind].
  2:{ split; [intros _; by exists e0|].
      intros [= ->]. by destruct (first_loop_Raise _ _ _ _ Hf). }
  apply first_loop_Ok in Hf as [-> _].
  set (tags := new_iob2_tags df tb tokens).
  set (st0 := {| annotation_ids := []; multi_token_annotation := [] |}).
  destruct (id_loop_Raise df anns tb (zip tokens tags) st0) as [Hfail Hfound].
  assert (Hzip : ∀ rt, rt ∈ zip tokens tags ↔
            rt.1 ∈ tokens ∧ rt.2 = new_iob2_tag df tb rt.1).
  { intros [row t]. simpl. split.
    - intros (i & Hi)%list_elem_of_lookup_1.
      apply lookup_zip_Some in Hi as [Hrow Ht].
      unfold tags, new_iob2_tags in Ht. rewrite list_lookup_fmap, Hrow in Ht.
      injection Ht as <-. split; [|done]. eapply list_elem_of_lookup_2, Hrow.
    - intros [(i & Hi)%list_elem_of_lookup_1 ->].
      apply (list_elem_of_lookup_2 _ i), lookup_zip_Some. split; [done|].
      unfold tags, new_iob2_tags. by rewrite list_lookup_fmap, Hi. }
  assert (Hall : ∀ e, id_loop df anns tb st0 (zip tokens tags) = Raise e →
            e = IndexError ∧ ∃ tok, tok ∈ tokens ∧ starts_uncovered df tb tok).
  { intros e He. destruct (Hfail e He) as ([row t] & Hrt & Hr).
    apply Hzip in Hrt as [Hrow Ht]. simpl in *. subst t.
    apply row_annotation_id_Raise in Hr as [-> Hu]. split; [done|]. by exists row. }
  split.
  - intros (tok & Htok & Hu).
    destruct (Hfound (tok, new_iob2_tag df tb tok) IndexError) as [e' He'].
    + apply Hzip. done.
    + apply row_annotation_id_Raise. done.
    + rewrite He'. simpl. by exists e'.
  - destruct (id_loop df anns tb st0 (zip tokens tags)) as [st|e] eqn:Hl; simpl;
      [discriminate|].
    intros _. by destruct (Hall e eq_refl).
Qed.

(** *** The two taggers *)





End AlignMore.

(* ===================================================================== *)
(** ** Further properties of the punctuation correction and the document *)
(* ===================================================================== *)

Module DocumentMore.
Import Align Spec Re Punctuation Tei TeiSpec TeiFacts AlignFacts.

(** *** Only spaces are deleted *)

Lemma replace_from_skip (old new : str) : ∀ (s : str) (k : nat),
  replace_from old new k s = replace_from old new 0 (drop k s).
Proof.
  induction s as [|c s IH]; intros [|k]; try reflexivity.
  cbn [replace_from drop]. apply IH.
Qed.

Lemma startswith_split (p : str) : ∀ s,
  startswith p s = true → s = p ++ drop (length p) s.
Proof.
  induction p as [|a p IH]; intros [|b s]; simpl; try done.
  intros [->%bool_decide_eq_true H]%andb_prop. f_equal. by apply IH.
Qed.

Lemma replace_keeps (P : char → Prop) `{!∀ c, Decision (P c)} (old new : str) :
  old ≠ [] → new `sublist_of` old → filter P new = filter P old →
  ∀ (n : nat) (s : str), (length s ≤ n)%nat →
    replace old new s `sublist_of` s ∧ filter P (replace old new s) = filter P s.
Proof.
  unfold str in *.
  intros Hne Hsub Hfil. induction n as [|n IH]; intros [|c s] Hlen;
    try (simpl in Hlen; lia); try done.
  unfold replace. cbn [replace_from].
  destruct (startswith old (c :: s)) eqn:Hst.
  - rewrite replace_from_skip.
    pose proof (startswith_split _ _ Hst) as E.
    destruct old as [|a old]; [done|]. cbn [length pred drop] in *.
    destruct (IH (drop (length old) s)) as [IH1 IH2].
    { rewrite length_drop. simpl in Hlen. lia. }
    rewrite E. split.
    + apply sublist_app; done.
    + rewrite !filter_app, Hfil. f_equal. exact IH2.
  - destruct (IH s) as [IH1 IH2]; [simpl in Hlen; lia|]. split.
    + by apply sublist_skip.
    + rewrite !filter_cons. fold (replace old new s). rewrite IH2. done.
Qed.

Lemma literal_rules_delete_spaces : Forall deletes_one_space literal_rules.
Proof.
  unfold literal_rules, deletes_one_space.
  repeat (apply Forall_cons; split; [vm_compute; auto|]). apply Forall_nil. done.
Qed.

Lemma rules_keep (rules : list (str * str)) :
  Forall deletes_one_space rules →
  ∀ s, foldl (λ acc rule, replace rule.1 rule.2 acc) s rules `sublist_of` s ∧
       filter (λ c, c ≠ space) (foldl (λ acc rule, replace rule.1 rule.2 acc) s rules)
       = filter (λ c, c ≠ space) s.
Proof.
  induction 1 as [|[old new] rules Hrule _ IH]; intros s; [done|].
  cbn [foldl fst snd].
  destruct (IH (replace old new s)) as [IH1 IH2].
  assert (Hk : replace old new s `sublist_of` s ∧
               filter (λ c, c ≠ space) (replace old new s)
               = filter (λ c, c ≠ space) s).
  { unfold str in *.
    apply (replace_keeps _ old new) with (n := length s); [| | |lia];
      destruct Hrule as [E | E]; simpl in E; subst old.
    - done.
    - intros H0. by apply app_eq_nil in H0 as [_ ?].
    - by apply sublist_cons.
    - by apply sublist_inserts_r.
    - unfold filter. cbn [list_filter].
      by rewrite decide_False by (intros H0; by apply H0).
    - rewrite (filter_app (λ c : N, c ≠ space) new [space]).
      unfold filter at 3. cbn [list_filter].
      rewrite decide_False by (intros H0; by apply H0).
      by rewrite app_nil_r. }
  destruct Hk as [Hk1 Hk2]. split.
  - by etransitivity.
  - by rewrite IH2.
Qed.

(** X19.  [_fix_punctuation] never fails and deletes nothing but spaces:
    the corrected string is the input with some of its space characters
    left out; every other character is kept, in its order. *)
Theorem fix_punctuation_only_deletes_spaces (xml_string : str) :
  ∃ corrected,
    _fix_punctuation xml_string = Ok corrected ∧
    corrected `sublist_of` xml_string ∧
    filter (λ c, c ≠ space) corrected = filter (λ c, c ≠ space) xml_string.
Proof.
  exists (apply_literal_rules xml_string).
  split; [apply PunctuationTheorems.fix_punctuation_literal|].
  apply rules_keep, literal_rules_delete_spaces.
Qed.

(** *** An annotation over a paragraph break *)

Lemma tagged_I_needs_span (row : tagged_row) (c : str) :
  is_linebreak (Token (basic row)) = false →
  Tag row = tag_I ++ c →
  needs_span row = true.
Proof.
  intros Hl Ht. unfold needs_span. rewrite Hl, Ht.
  rewrite bool_decide_eq_false_2 by (intros E; vm_compute in E; discriminate E).
  reflexivity.
Qed.

(** X20.  The two stages together: when a line-break token shorter than
    10 characters is followed by a token that lies strictly inside a
    segment, with no segment starting at it, the alignment tags the
    second token I-, and the document stage, run on the emitted table
    with paragraphs and the text class 'eltec-deu', finds no span open
    for it (the paragraph opened at the line break has closed it) and
    fails with an error: no document is written for an annotation that
    runs over a paragraph break. *)
Theorem annotation_over_paragraph_break_fails (tostring : list element → str)
    anns tokens tb mode rows (i : nat) (lb tok : token_row) :
  create_annotated_token_tsv anns tokens tb mode = Ok rows →
  tokens !! i = Some lb →
  is_linebreak (Token lb) = true →
  (length (Token lb) < 10)%nat →
  tokens !! S i = Some tok →
  is_linebreak (Token tok) = false →
  (∀ r, r ∈ ac_data_df mode anns →
        ¬ starts_at (Text_Pointer tok + border_shift tb) r) →
  (∃ r, r ∈ ac_data_df mode anns ∧
        strictly_inside (Text_Pointer tok + border_shift tb) r) →
  (∃ row, rows !! S i = Some row ∧ startswith tag_I (Tag row) = true) ∧
  ¬ open_at true rows (S i) ∧
  ∃ e, create_annotated_tei tostring rows true eltec_deu = Raise e.
Proof.
  intros Hc Hlb Hl Hlen Htok Hnl Hnostart Hinside.
  destruct (create_Ok_rows _ _ _ _ _ Hc) as [Hbasic Hrows].
  destruct (AlignTheorems.rows_lookup_token rows tokens i lb Hbasic Hlb)
    as (rlb & Hrlb & Eb).
  destruct (AlignTheorems.rows_lookup_token rows tokens (S i) tok Hbasic Htok)
    as (rtok & Hrtok & Et).
  destruct (Hrows rtok (list_elem_of_lookup_2 _ _ _ Hrtok)) as (Htag & _).
  rewrite Et in Htag.
  destruct (new_iob2_tag_I _ tb tok Hnl Hnostart Hinside) as (r & _ & EI).
  rewrite EI in Htag.
  assert (Hneed : needs_span rtok = true).
  { apply (tagged_I_needs_span rtok (tag r)); [by rewrite Et | done]. }
  assert (Hbound : boundary_at true rows i).
  { exists rlb. split; [done|]. split; [done|].
    unfold starts_paragraph, paragraph_threshold. rewrite Eb, Hl.
    rewrite (bool_decide_eq_true_2 (_ < _)%nat) by done.
    apply orb_true_r. }
  assert (Hno : ¬ open_at true rows (S i)).
  { intros (j & Hj & (rj & Hrj & Hopen) & Hnob).
    destruct (decide (j = i)) as [->|Hne].
    - rewrite Hrlb in Hrj. injection Hrj as <-.
      unfold opens_span in Hopen. rewrite Eb, Hl in Hopen. discriminate Hopen.
    - apply (Hnob i); [lia | done]. }
  split.
  { exists rtok. split; [done|]. rewrite Htag. reflexivity. }
  split; [done|].
  pose proof (tei_loop_spans true rows rows 0 initial_state) as Hloop.
  assert (H0 : is_Some (_last_sibling_element initial_state)
               ↔ open_before true rows 0).
  { split; [by intros [? [=]] | intros (j & Hj & _); lia]. }
  specialize (Hloop eq_refl H0 ltac:(done)).
  unfold create_annotated_tei, build_body.
  destruct (tei_loop true eltec_deu rows 0 rows initial_state) as [st|e]; cbn [bind].
  - exfalso. apply Hno. apply (Hloop (S i) rtok); [lia | done | done].
  - by exists e.
Qed.

Lemma annotation_over_paragraph_break_fails_witness :
  ∃ rows,
    create_annotated_token_tsv [Examples.spanning_annotation] Examples.two_lines
      None true = Ok rows ∧
    ∃ e, create_annotated_tei (λ _, []) rows true eltec_deu = Raise e.
Proof.
  eexists. split; [vm_compute; reflexivity|].
  apply (annotation_over_paragraph_break_fails (λ _, [])
           [Examples.spanning_annotation] Examples.two_lines None true _ 1
           {| Token_ID := 1; Text_Pointer := 3; Token := lit "\n" |}
           {| Token_ID := 2; Text_Pointer := 4; Token := lit "fox" |} eq_refl).
  - reflexivity.
  - vm_compute. reflexivity.
  - vm_compute. lia.
  - reflexivity.
  - vm_compute. reflexivity.
  - intros r Hr Hs.
    repeat (apply elem_of_cons in Hr as [-> | Hr]); [|inversion Hr].
    vm_compute in Hs. discriminate Hs.
  - eexists. split; [left|]. exists 0, 9. repeat split; simpl; lia.
Defined.

(** The tables that the alignment writes are annotated token tables. *)
Lemma emitted_tables_are_annotated_token_tables anns tokens tb mode rows :
  create_annotated_token_tsv anns tokens tb mode = Ok rows →
  annotated_token_table rows.
Proof.
  intros Hc. destruct (create_Ok_rows _ _ _ _ _ Hc) as [_ Hrows]. split.
  - intros r Hr Hl. destruct (Hrows r Hr) as (-> & _).
    by apply new_iob2_tag_linebreak.
  - intros r Hr. destruct (Hrows r Hr) as (-> & _). unfold new_iob2_tag.
    destruct (filter _ _) as [|rb ?].
    + destruct (filter _ _) as [|ri ?]; [by left|]. right. right. reflexivity.
    + right. left. reflexivity.
Qed.

End DocumentMore.

(* ===================================================================== *)
(** ** The text of the document *)
(* ===================================================================== *)

Module TeiTextTheorems.
Import Align Tei TeiSpec TeiFacts TeiText.

(** *** Lists of growing ids *)

Lemma increasing_snoc (l : list nat) (n : nat) :
  increasing l → (∀ x, x ∈ l → (x < n)%nat) → increasing (l ++ [n]).
Proof.
  intros Hinc Hlt i j x y Hij Hi Hj.
  apply lookup_app_Some in Hj as [Hj | [Hge Hj]].
  - apply lookup_lt_Some in Hj as Hjl.
    rewrite lookup_app_l in Hi by lia. by apply (Hinc i j).
  - apply list_lookup_singleton_Some in Hj as [Hj0 <-].
    rewrite lookup_app_l in Hi by lia.
    apply Hlt. eapply list_elem_of_lookup_2, Hi.
Qed.

Lemma increasing_fresh (N0 : list (bool * nat)) (cur : bool * nat) :
  increasing (snd <$> (N0 ++ [cur])) → ∀ n, n ∈ N0 → (n.2 < cur.2)%nat.
Proof.
  intros Hinc n (i & Hi)%list_elem_of_lookup_1.
  apply (Hinc i (length N0)).
  - eapply lookup_lt_Some, Hi.
  - rewrite list_lookup_fmap, lookup_app_l by (eapply lookup_lt_Some, Hi).
    by rewrite Hi.
  - rewrite list_lookup_fmap, list_lookup_middle by done. done.
Qed.

Lemma increasing_role (N : list (bool * nat)) (b1 b2 : bool) (x : nat) :
  increasing (snd <$> N) → (b1, x) ∈ N → (b2, x) ∈ N → b1 = b2.
Proof.
  intros Hinc (i & Hi)%list_elem_of_lookup_1 (j & Hj)%list_elem_of_lookup_1.
  assert (Hi' : (snd <$> N) !! i = Some x) by (by rewrite list_lookup_fmap, Hi).
  assert (Hj' : (snd <$> N) !! j = Some x) by (by rewrite list_lookup_fmap, Hj).
  destruct (Nat.lt_trichotomy i j) as [Hlt | [-> | Hgt]].
  - pose proof (Hinc i j x x Hlt Hi' Hj'). lia.
  - rewrite Hi in Hj. by injection Hj.
  - pose proof (Hinc j i x x Hgt Hj' Hi'). lia.
Qed.

(** *** The nodes of a document *)

Lemma nodes_snoc (s : list element) (C : list nat) (c : nat) :
  nodes s (C ++ [c]) = nodes s C ++ (true, c) :: ((λ e, (false, e)) <$> kids s c).
Proof.
  unfold nodes. rewrite fmap_app, join_app. simpl. by rewrite app_nil_r.
Qed.

Lemma elem_of_nodes (s : list element) (C : list nat) (b : bool) (x : nat) :
  (b, x) ∈ nodes s C ↔
  (b = true ∧ x ∈ C) ∨ (b = false ∧ ∃ c, c ∈ C ∧ x ∈ kids s c).
Proof.
  unfold nodes. rewrite list_elem_of_join. split.
  - intros (l & Hx & (c & -> & Hc)%list_elem_of_fmap).
    apply elem_of_cons in Hx as [[= -> ->] | (e & [= -> ->] & He)%list_elem_of_fmap].
    + by left.
    + right. split; [done|]. by exists c.
  - intros [[-> Hc] | [-> (c & Hc & Hx)]].
    + exists ((true, x) :: ((λ e, (false, e)) <$> kids s x)). split; [left|].
      apply list_elem_of_fmap. by exists x.
    + exists ((true, c) :: ((λ e, (false, e)) <$> kids s c)). split.
      * right. apply list_elem_of_fmap. by exists x.
      * apply list_elem_of_fmap. by exists c.
Qed.

Lemma nodes_ext (s s' : list element) (C : list nat) :
  (∀ c, c ∈ C → kids s' c = kids s c) → nodes s' C = nodes s C.
Proof.
  intros Hk. unfold nodes. f_equal. apply list_fmap_ext.
  intros i c Hc. rewrite Hk; [done|]. eapply list_elem_of_lookup_2, Hc.
Qed.

Lemma contribution_ext (s s' : list element) (n : bool * nat) :
  s' !! n.2 = s !! n.2 → contribution s' n = contribution s n.
Proof. intros E. unfold contribution, txt, tl. by rewrite E. Qed.

Lemma contributions_ext (s s' : list element) (N : list (bool * nat)) :
  (∀ n, n ∈ N → contribution s' n = contribution s n) →
  contribution s' <$> N = contribution s <$> N.
Proof.
  intros H. apply list_fmap_ext. intros i n Hn. apply H.
  eapply list_elem_of_lookup_2, Hn.
Qed.

(** *** Updates of the store *)

Lemma lookup_alter_children (f : element → element) (x y : nat) (s : list element) :
  (∀ el, el_children (f el) = el_children el) →
  kids (alter f x s) y = kids s y.
Proof.
  intros Hf. unfold kids. destruct (decide (x = y)) as [->|Hne].
  - rewrite list_lookup_alter_eq. destruct (s !! y); simpl; [apply Hf | done].
  - by rewrite list_lookup_alter_ne.
Qed.

(** A change of the text or the tail of the cursor adds to the end of the
    text of the document. *)
Lemma alter_at_cursor (s : list element) (C : list nat) (sib : option nat)
    (W : str) (c : nat) (f : element → element) (t : str) :
  doc_inv s C sib W →
  last C = Some c →
  (∀ el, el_children (f el) = el_children el) →
  (∀ el, s !! (cursor sib c).2 = Some el →
     (if (cursor sib c).1 then text_of (el_text (f el))
      else text_of (el_text (f el)) ++ text_of (el_tail (f el)))
     = (if (cursor sib c).1 then text_of (el_text el)
        else text_of (el_text el) ++ text_of (el_tail el)) ++ t) →
  ((cursor sib c).1 = true → ∀ el, el_tail (f el) = el_tail el) →
  doc_inv (alter f (cursor sib c).2 s) C sib (W ++ t).
Proof.
  intros [Hsorted Hbound (N0 & c' & Hc' & HN) Htext Hleaf Hcont] Hc Hf Hcontrib Htail.
  rewrite Hc in Hc'. injection Hc' as <-.
  set (cur := cursor sib c) in *. set (x := cur.2) in *.
  assert (Hkids : ∀ y, kids (alter f x s) y = kids s y).
  { intros y. by apply lookup_alter_children. }
  assert (Hnodes : nodes (alter f x s) C = nodes s C).
  { apply nodes_ext. intros y _. apply Hkids. }
  assert (Hcur : cur ∈ nodes s C).
  { rewrite HN. apply elem_of_app. right. left. }
  split.
  - by rewrite Hnodes.
  - intros n Hn. rewrite Hnodes in Hn. rewrite length_alter. by apply Hbound.
  - exists N0, c. split; [done|]. by rewrite Hnodes.
  - unfold doc_text in *. rewrite Hnodes. rewrite HN in Htext |- *.
    rewrite fmap_app, join_app in Htext. rewrite fmap_app, join_app.
    rewrite (contributions_ext s (alter f x s) N0).
    2:{ intros n Hn. apply contribution_ext. apply list_lookup_alter_ne.
        rewrite HN in Hsorted.
        pose proof (increasing_fresh N0 cur Hsorted n Hn). unfold x. lia. }
    rewrite <- Htext, <- app_assoc. f_equal. simpl. rewrite !app_nil_r.
    pose proof (Hbound cur Hcur) as Hlt. fold x in Hlt.
    destruct (lookup_lt_is_Some_2 s x Hlt) as [el Hel].
    specialize (Hcontrib el Hel).
    unfold contribution, txt, tl. fold x.
    rewrite list_lookup_alter_eq, Hel. simpl. exact Hcontrib.
  - intros n Hn Hb. rewrite Hnodes in Hn. rewrite Hkids. by apply Hleaf.
  - intros [b y] Hn Hb. simpl in Hb. subst b. rewrite Hnodes in Hn.
    pose proof (Hcont _ Hn eq_refl) as Ht. simpl in *.
    destruct (decide (x = y)) as [<-|Hne].
    + assert (Hrole : cur.1 = true).
      { destruct cur as [b x'] eqn:Ecur. simpl in *. subst x.
        symmetry. apply (increasing_role (nodes s C) true b x'); done. }
      unfold tl in *. rewrite list_lookup_alter_eq.
      destruct (s !! x) as [el|]; simpl in *; [|done].
      by rewrite (Htail Hrole el).
    + unfold tl in *. by rewrite list_lookup_alter_ne.
Qed.


Lemma contribution_same (s s' : list element) (n : bool * nat) :
  txt s' n.2 = txt s n.2 → tl s' n.2 = tl s n.2 →
  contribution s' n = contribution s n.
Proof. intros E1 E2. unfold contribution. by rewrite E1, E2. Qed.

Lemma last_container_node (s : list element) (C : list nat) (c : nat) :
  last C = Some c → (true, c) ∈ nodes s C.
Proof.
  intros (C0 & ->)%last_Some. apply elem_of_nodes. left. split; [done|].
  apply elem_of_app. right. left.
Qed.

(** A span opened under the last container becomes the last node; the
    text of the document is as before. *)
Lemma sub_element_under_last (s : list element) (C : list nat) (sib : option nat)
    (W : list char) (c : nat) (tag : str) (attrib : list (str * str)) :
  doc_inv s C sib W →
  last C = Some c →
  let n := length s in
  let s' := (with_child c tag attrib s).2 in
  doc_inv s' C (Some n) W ∧
  s' !! n = Some (Element tag attrib) ∧
  nodes s' C = nodes s C ++ [(false, n)] ∧
  (∀ y, (y < n)%nat → txt s' y = txt s y ∧ tl s' y = tl s y) ∧
  (∀ y, (y < n)%nat → y ≠ c → kids s' y = kids s y).
Proof.
  intros [Hsorted Hbound _ Htext Hleaf Hcont] Hc n s'.
  pose proof (last_container_node s C c Hc) as Hcnode.
  pose proof (Hbound _ Hcnode) as Hcn. simpl in Hcn. fold n in Hcn.
  assert (Es' : s' = alter (add_child n) c s ++ [Element tag attrib]) by reflexivity.
  assert (Hlook : ∀ y, (y < n)%nat → s' !! y = alter (add_child n) c s !! y).
  { intros y Hy. rewrite Es', lookup_app_l; [done|]. rewrite length_alter. done. }
  assert (Hnew : s' !! n = Some (Element tag attrib)).
  { rewrite Es', lookup_app_r by (rewrite length_alter; unfold n; lia).
    rewrite length_alter. unfold n. by rewrite Nat.sub_diag. }
  assert (Htt : ∀ y, (y < n)%nat → txt s' y = txt s y ∧ tl s' y = tl s y).
  { intros y Hy. unfold txt, tl. rewrite (Hlook y Hy).
    destruct (decide (c = y)) as [->|Hne].
    - rewrite list_lookup_alter_eq. by destruct (s !! y).
    - by rewrite list_lookup_alter_ne. }
  assert (Hkne : ∀ y, (y < n)%nat → y ≠ c → kids s' y = kids s y).
  { intros y Hy Hne. unfold kids. rewrite (Hlook y Hy).
    by rewrite list_lookup_alter_ne. }
  assert (Hkc : kids s' c = kids s c ++ [n]).
  { unfold kids. rewrite (Hlook c Hcn), list_lookup_alter_eq.
    destruct (lookup_lt_is_Some_2 s c Hcn) as [el ->]. done. }
  assert (Hkn : kids s' n = []) by (unfold kids; by rewrite Hnew).
  assert (Hnodes : nodes s' C = nodes s C ++ [(false, n)]).
  { apply last_Some in Hc as [C0 ->]. rewrite !nodes_snoc, Hkc.
    rewrite (nodes_ext s s' C0).
    - rewrite fmap_app. simpl. by rewrite <- app_assoc.
    - intros c' Hc'.
      assert (Hn' : (true, c') ∈ nodes s C0).
      { apply elem_of_nodes. by left. }
      assert (Hlt : (c' < c)%nat).
      { rewrite nodes_snoc in Hsorted.
        apply list_elem_of_lookup_1 in Hn' as [i Hi].
        apply (Hsorted i (length (nodes s C0))).
        - eapply lookup_lt_Some, Hi.
        - rewrite list_lookup_fmap, lookup_app_l by (eapply lookup_lt_Some, Hi).
          by rewrite Hi.
        - rewrite list_lookup_fmap, list_lookup_middle by done. done. }
      apply Hkne; lia. }
  split; [|done].
  split.
  - rewrite Hnodes, fmap_app. apply increasing_snoc; [done|].
    intros x (n0 & -> & Hn0)%list_elem_of_fmap. by apply Hbound.
  - intros n0 Hn0. rewrite Hnodes in Hn0. rewrite Es', length_app, length_alter.
    simpl. apply elem_of_app in Hn0 as [Hn0 | ->%list_elem_of_singleton].
    + pose proof (Hbound _ Hn0). lia.
    + simpl. fold n. lia.
  - exists (nodes s C), c. done.
  - unfold doc_text in *. rewrite Hnodes, fmap_app, join_app.
    rewrite (contributions_ext s s' (nodes s C)).
    + rewrite Htext. simpl. unfold contribution, txt, tl. simpl.
      rewrite Hnew. simpl. by rewrite !app_nil_r.
    + intros n0 Hn0. apply contribution_same; apply Htt, Hbound, Hn0.
  - intros [b y] Hn0 Hb. simpl in Hb. subst b. rewrite Hnodes in Hn0. simpl.
    apply elem_of_app in Hn0 as [Hn0 | [= ->]%list_elem_of_singleton]; [|done].
    rewrite Hkne.
    + by apply (Hleaf _ Hn0).
    + by apply (Hbound _ Hn0).
    + intros ->. pose proof (increasing_role _ _ _ _ Hsorted Hn0 Hcnode). done.
  - intros [b y] Hn0 Hb. simpl in Hb. subst b. rewrite Hnodes in Hn0. simpl.
    apply elem_of_app in Hn0 as [Hn0 | [=]%list_elem_of_singleton].
    rewrite (proj2 (Htt y (Hbound _ Hn0))). by apply (Hcont _ Hn0).
Qed.

(** A paragraph opened under the body becomes the last node. *)
Lemma new_paragraph_doc (s : list element) (C : list nat) (W : list char) :
  increasing (snd <$> nodes s C) →
  (∀ n, n ∈ nodes s C → (n.2 < length s)%nat) →
  doc_text s C = W →
  (∀ n, n ∈ nodes s C → n.1 = false → kids s n.2 = []) →
  (∀ n, n ∈ nodes s C → n.1 = true → tl s n.2 = []) →
  body_inv s C →
  let n := length s in
  let s' := (with_child body_el (TEI ++ lit "p") [] s).2 in
  doc_inv s' (C ++ [n]) None W ∧ body_inv s' (C ++ [n]).
Proof.
  intros Hsorted Hbound Htext Hleaf Hcont (Hbody & Hbk & Hbt & Hbelow) n s'.
  assert (Es' : s' = alter (add_child n) body_el s ++ [Element (TEI ++ lit "p") []])
    by reflexivity.
  assert (Hlook : ∀ y, (y < n)%nat → y ≠ body_el → s' !! y = s !! y).
  { intros y Hy Hne. rewrite Es', lookup_app_l by (by rewrite length_alter).
    by rewrite list_lookup_alter_ne. }
  assert (Hnew : s' !! n = Some (Element (TEI ++ lit "p") [])).
  { rewrite Es', lookup_app_r by (rewrite length_alter; unfold n; lia).
    rewrite length_alter. unfold n. by rewrite Nat.sub_diag. }
  assert (Hold : ∀ n0, n0 ∈ nodes s C → s' !! n0.2 = s !! n0.2).
  { intros n0 Hn0. apply Hlook; [by apply Hbound|].
    pose proof (Hbelow _ Hn0). lia. }
  assert (Hnodes : nodes s' (C ++ [n]) = nodes s C ++ [(true, n)]).
  { rewrite nodes_snoc.
    assert (kids s' n = []) as -> by (unfold kids; by rewrite Hnew).
    simpl. f_equal. apply nodes_ext. intros c Hc. unfold kids.
    assert (E : s' !! c = s !! c).
    { apply (Hold (true, c)). apply elem_of_nodes. by left. }
    by rewrite E. }
  assert (Hbody' : s' !! body_el = add_child n <$> s !! body_el).
  { rewrite Es', lookup_app_l by (by rewrite length_alter).
    by rewrite list_lookup_alter_eq. }
  split; [split|].
  - rewrite Hnodes, fmap_app. apply increasing_snoc; [done|].
    intros x (n0 & -> & Hn0)%list_elem_of_fmap. by apply Hbound.
  - intros n0 Hn0. rewrite Hnodes in Hn0. rewrite Es', length_app, length_alter.
    simpl. apply elem_of_app in Hn0 as [Hn0 | ->%list_elem_of_singleton].
    + pose proof (Hbound _ Hn0). lia.
    + simpl. fold n. lia.
  - exists (nodes s C), n. split; [apply last_snoc | done].
  - unfold doc_text in *. rewrite Hnodes, fmap_app, join_app.
    rewrite (contributions_ext s s' (nodes s C)).
    + rewrite Htext. simpl. unfold contribution, txt. simpl.
      rewrite Hnew. simpl. by rewrite !app_nil_r.
    + intros n0 Hn0. apply contribution_ext, Hold, Hn0.
  - intros [b y] Hn0 Hb. simpl in Hb. subst b. rewrite Hnodes in Hn0. simpl.
    apply elem_of_app in Hn0 as [Hn0 | [=]%list_elem_of_singleton].
    pose proof (Hold _ Hn0) as E. simpl in E.
    unfold kids. rewrite E. by apply (Hleaf _ Hn0).
  - intros [b y] Hn0 Hb. simpl in Hb. subst b. rewrite Hnodes in Hn0. simpl.
    apply elem_of_app in Hn0 as [Hn0 | [= ->]%list_elem_of_singleton].
    + pose proof (Hold _ Hn0) as E. simpl in E.
      unfold tl. rewrite E. by apply (Hcont _ Hn0).
    + unfold tl. by rewrite Hnew.
  - split; [|split; [|split]].
    + rewrite Es', length_app, length_alter. lia.
    + unfold kids in *. rewrite Hbody'.
      destruct (lookup_lt_is_Some_2 s body_el Hbody) as [b Hb]. rewrite Hb in *.
      simpl. by rewrite Hbk.
    + unfold txt in *. rewrite Hbody'. by destruct (s !! body_el).
    + intros n0 Hn0. rewrite Hnodes in Hn0.
      apply elem_of_app in Hn0 as [Hn0 | ->%list_elem_of_singleton];
        [by apply Hbelow | simpl; fold n; lia].
Qed.

Lemma body_inv_alter (s : list element) (C : list nat) (x : nat)
    (f : element → element) :
  body_inv s C → x ≠ body_el →
  (∀ el, el_children (f el) = el_children el) →
  body_inv (alter f x s) C.
Proof.
  intros (Hbody & Hbk & Hbt & Hbelow) Hx Hf.
  split; [by rewrite length_alter|]. split; [|split].
  - by rewrite lookup_alter_children.
  - unfold txt. by rewrite list_lookup_alter_ne.
  - intros n Hn. apply Hbelow. erewrite <- nodes_ext; [exact Hn|].
    intros c _. by rewrite lookup_alter_children.
Qed.


(** *** One token *)

Lemma span_token_spec rows idx row e s :
  xml_text (Token (basic row)) = true →
  ∃ s', span_token rows idx row e s = Ok s' ∧
    (((∃ r, rows !! S idx = Some r ∧ startswith tag_I (Tag r) = true) ∧
      s' = append_text e (Token (basic row) ++ [space]) s)
     ∨ ((∀ r, rows !! S idx = Some r → startswith tag_I (Tag r) = false) ∧
        s' = append_tail e [space] (append_text e (Token (basic row)) s))).
Proof.
  intros Hx. unfold span_token. rewrite Hx.
  destruct (bool_decide (Z.of_nat idx < Z.of_nat (length rows) - 1)) eqn:Hb.
  - apply bool_decide_eq_true in Hb.
    destruct (lookup_lt_is_Some_2 rows (S idx)) as [next Hn]; [lia|].
    rewrite Hn. cbn [bind]. destruct (startswith tag_I (Tag next)) eqn:HI.
    + eexists. split; [reflexivity|]. left. split; [by exists next | done].
    + eexists. split; [reflexivity|]. right. split; [|done].
      intros r [= <-]. done.
  - apply bool_decide_eq_false in Hb. eexists. split; [reflexivity|].
    right. split; [|done]. intros r Hr. apply lookup_lt_Some in Hr. lia.
Qed.

Lemma text_of_appended (x : option str) (t : str) :
  text_of (appended x t) = text_of x ++ t.
Proof. by destruct x. Qed.

(** A token written into the open span, whose tail is still empty, is
    added to the end of the text with its space. *)
Lemma span_token_doc rows idx row e s C (W : list char) c el :
  xml_text (Token (basic row)) = true →
  doc_inv s C (Some e) W → last C = Some c →
  s !! e = Some el → el_tail el = None →
  ∃ s', span_token rows idx row e s = Ok s' ∧
    doc_inv s' C (Some e) (W ++ Token (basic row) ++ [space]) ∧
    (∀ y, kids s' y = kids s y) ∧
    (∀ y, y ≠ e → s' !! y = s !! y) ∧
    length s' = length s ∧
    ((∃ r, rows !! S idx = Some r ∧ startswith tag_I (Tag r) = true) →
       ∃ el', s' !! e = Some el' ∧ el_tail el' = None).
Proof.
  intros Hx Hinv Hc Hel Htail.
  destruct (span_token_spec rows idx row e s Hx) as (s' & -> & [[Hnext ->] | [Hnext ->]]);
    eexists; (split; [reflexivity|]).
  - split; [|split; [|split; [|split]]].
    + apply (alter_at_cursor s C (Some e) W c _ (Token (basic row) ++ [space]) Hinv Hc).
      * done.
      * cbn [cursor fst snd el_text el_tail]. intros el0 Hel0.
        rewrite Hel in Hel0. injection Hel0 as <-.
        rewrite Htail, text_of_appended. cbn [text_of default]. by rewrite !app_nil_r.
      * discriminate.
    + intros y. by apply lookup_alter_children.
    + intros y Hy. unfold append_text. by rewrite list_lookup_alter_ne.
    + apply length_alter.
    + intros _. unfold append_text. rewrite list_lookup_alter_eq, Hel. simpl.
      eexists. split; [reflexivity | done].
  - assert (H1 : doc_inv (append_text e (Token (basic row)) s) C (Some e)
                   (W ++ Token (basic row))).
    { apply (alter_at_cursor s C (Some e) W c _ (Token (basic row)) Hinv Hc).
      - done.
      - cbn [cursor fst snd el_text el_tail]. intros el0 Hel0.
        rewrite Hel in Hel0. injection Hel0 as <-.
        rewrite Htail, text_of_appended. cbn [text_of default]. by rewrite !app_nil_r.
      - discriminate. }
    split; [|split; [|split; [|split]]].
    + replace (W ++ Token (basic row) ++ [space])
        with ((W ++ Token (basic row)) ++ [space]) by (by rewrite <- app_assoc).
      apply (alter_at_cursor _ C (Some e) _ c _ [space] H1 Hc).
      * done.
      * cbn [cursor fst snd el_text el_tail]. intros el0 _.
        rewrite text_of_appended. by rewrite app_assoc.
      * discriminate.
    + intros y. unfold append_tail, append_text.
      by rewrite !lookup_alter_children.
    + intros y Hy. unfold append_tail, append_text.
      by rewrite !list_lookup_alter_ne.
    + unfold append_tail, append_text. by rewrite !length_alter.
    + intros (r & Hr & HI). rewrite (Hnext r Hr) in HI. discriminate HI.
Qed.

Lemma body_inv_same (s s' : list element) (C : list nat) :
  body_inv s C →
  (∀ y, kids s' y = kids s y) →
  s' !! body_el = s !! body_el →
  length s' = length s →
  body_inv s' C.
Proof.
  intros (Hbody & Hbk & Hbt & Hbelow) Hk Hb Hl.
  split; [by rewrite Hl|]. split; [by rewrite Hk|]. split.
  - unfold txt in *. by rewrite Hb.
  - intros n Hn. apply Hbelow. erewrite <- nodes_ext; [exact Hn|].
    intros c _. apply Hk.
Qed.

Lemma needs_span_cases (row : tagged_row) :
  is_linebreak (Token (basic row)) = false →
  (Tag row = tag_O ∧ needs_span row = false ∧ opens_span row = false) ∨
  (Tag row ≠ tag_O ∧ startswith tag_B (Tag row) = true ∧
   needs_span row = false ∧ opens_span row = true) ∨
  (Tag row ≠ tag_O ∧ startswith tag_B (Tag row) = false ∧ needs_span row = true).
Proof.
  intros Hl. unfold needs_span, opens_span. rewrite Hl. cbn [negb andb].
  destruct (decide (Tag row = tag_O)) as [HO|HO].
  - left. by rewrite bool_decide_eq_true_2.
  - right. rewrite bool_decide_eq_false_2 by done. cbn [negb andb].
    destruct (startswith tag_B (Tag row)); [left | right]; done.
Qed.

(** Placing the token of row [idx]. *)
Lemma place_token_text ip rows idx row st (W : list char) :
  tight rows →
  writable row →
  rows !! idx = Some row →
  doc_inv (store st) (containers ip st) (_last_sibling_element st) W →
  (ip = true → body_inv (store st) (_paragraph_list st)) →
  (needs_span row = true →
     ∃ e el, _last_sibling_element st = Some e ∧ store st !! e = Some el ∧
             el_tail el = None) →
  ∃ st', place_token ip rows idx row st = Ok st' ∧
    doc_inv (store st') (containers ip st') (_last_sibling_element st')
      (W ++ token_piece row) ∧
    (ip = true → body_inv (store st') (_paragraph_list st')) ∧
    _paragraph_list st' = _paragraph_list st ∧
    (∀ r, rows !! S idx = Some r → needs_span r = true →
       ∃ e el, _last_sibling_element st' = Some e ∧ store st' !! e = Some el ∧
               el_tail el = None).
Proof.
  intros Htight [_ Hwr] Hrow Hinv Hbody Hopen.
  assert (Hnext : ∀ r, rows !! S idx = Some r → needs_span r = true →
            startswith tag_I (Tag r) = true ∧
            is_linebreak (Token (basic row)) = false ∧ Tag row ≠ tag_O).
  { intros r Hr Hn. destruct (Htight (S idx) r Hr Hn) as (HI & r' & _ & Hr' & Hl & HO).
    replace (S idx - 1)%nat with idx in Hr' by lia.
    rewrite Hrow in Hr'. injection Hr' as <-. done. }
  destruct (di_cursor _ _ _ _ Hinv) as (N0 & c & Hc & HN).
  assert (Hparent : (if ip then py_last (_paragraph_list st) else Ok body_el) = Ok c).
  { unfold containers in Hc. destruct ip.
    - unfold py_last. by rewrite Hc.
    - simpl in Hc. by injection Hc as <-. }
  assert (Hcb : ip = true → c ≠ body_el).
  { intros Hip. destruct (Hbody Hip) as (_ & _ & _ & Hbelow).
    subst ip. pose proof (Hbelow _ (last_container_node _ _ _ Hc)). simpl in *. lia. }
  unfold place_token, token_piece.
  destruct (is_linebreak (Token (basic row))) eqn:Hl.
  { exists st. rewrite app_nil_r. split; [done|]. split; [done|]. split; [done|].
    split; [done|]. intros r Hr Hn. destruct (Hnext r Hr Hn) as (_ & [=] & _). }
  destruct (Hwr eq_refl) as [Hx Hwo]. rewrite ?Hx.
  destruct (needs_span_cases row Hl)
    as [(HO & Hns & Hos) | [(HO & HB & Hns & Hos) | (HO & HB & Hns)]].
  - (* a token outside every annotation *)
    rewrite bool_decide_eq_true_2 by done. cbn [negb].
    destruct (_last_sibling_element st) as [e|] eqn:Esib.
    + eexists. split; [reflexivity|]. cbn [store _last_sibling_element _paragraph_list].
      assert (Hcont' : containers ip {| store := append_tail e (Token (basic row) ++ [space]) (store st);
                                         _paragraph_list := _paragraph_list st;
                                         _last_sibling_element := Some e |}
                       = containers ip st) by (by destruct ip).
      rewrite Hcont'.
      split; [|split; [|split; [done|]]].
      * apply (alter_at_cursor _ _ (Some e) W c _ (Token (basic row) ++ [space]) Hinv Hc).
        -- done.
        -- cbn [cursor fst snd el_text el_tail]. intros el0 _.
           rewrite text_of_appended. by rewrite app_assoc.
        -- discriminate.
      * intros Hip. apply body_inv_alter; [by apply Hbody | | done].
        destruct (Hbody Hip) as (_ & _ & _ & Hbelow). subst ip.
        assert (Hin : (false, e) ∈ nodes (store st) (_paragraph_list st)).
        { simpl in HN. rewrite HN. apply elem_of_app. right. left. }
        pose proof (Hbelow _ Hin). simpl in *. lia.
      * intros r Hr Hn. by destruct (Hnext r Hr Hn) as (_ & _ & ?).
    + rewrite Hparent. cbn [bind]. eexists. split; [reflexivity|].
      cbn [store _last_sibling_element _paragraph_list].
      assert (Hcont' : containers ip {| store := append_text c (Token (basic row) ++ [space]) (store st);
                                         _paragraph_list := _paragraph_list st;
                                         _last_sibling_element := None |}
                       = containers ip st) by (by destruct ip).
      rewrite Hcont'.
      split; [|split; [|split; [done|]]].
      * apply (alter_at_cursor _ _ None W c _ (Token (basic row) ++ [space]) Hinv Hc).
        -- done.
        -- cbn [cursor fst snd el_text el_tail]. intros el0 _.
           by rewrite text_of_appended.
        -- done.
      * intros Hip. apply body_inv_alter; [by apply Hbody | by apply Hcb | done].
      * intros r Hr Hn. by destruct (Hnext r Hr Hn) as (_ & _ & ?).
  - (* the first token of an annotation *)
    rewrite bool_decide_eq_false_2 by done. cbn [negb]. rewrite HB, Hparent. cbn [bind].
    rewrite TeiFacts.SubElement_span.
    destruct (Hwo Hos) as [-> ->]. cbn [andb bind].
    set (tagname := CS1 ++ drop 2 (Tag row)).
    set (attrib := [(CS1 ++ lit "annotation", Annotation_ID row)]).
    destruct (sub_element_under_last _ _ _ W c tagname attrib Hinv Hc)
      as (Hinv1 & Hnew & Hnodes1 & Htt1 & Hk1).
    set (n := length (store st)) in *.
    set (s1 := (with_child c tagname attrib (store st)).2) in *.
    change (with_child c tagname attrib (store st)).1 with n.
    destruct (span_token_doc rows idx row n s1 _ W c _ Hx Hinv1 Hc Hnew eq_refl)
      as (s2 & -> & Hinv2 & Hk2 & Hl2 & Hlen2 & Htail2).
    cbn [bind]. eexists. split; [reflexivity|].
    cbn [store _last_sibling_element _paragraph_list].
    assert (Hcont' : containers ip {| store := s2; _paragraph_list := _paragraph_list st;
                                      _last_sibling_element := Some n |}
                     = containers ip st) by (by destruct ip).
    rewrite Hcont'.
    split; [done|]. split; [|split; [done|]].
    + intros Hip. pose proof (Hbody Hip) as (Hb1 & Hb2 & Hb3 & Hb4).
      pose proof (Hcb Hip) as Hcne. subst ip. simpl in *.
      assert (Hbn : (body_el < n)%nat) by done.
      split; [rewrite Hlen2; unfold s1; simpl; rewrite length_app, length_alter; lia|].
      split; [|split].
      * rewrite Hk2, Hk1; [done | done | done].
      * unfold txt. rewrite Hl2 by lia. fold (txt s1 body_el).
        rewrite (proj1 (Htt1 body_el Hbn)). done.
      * intros n0 Hn0.
        rewrite (nodes_ext s1 s2) in Hn0 by (intros; apply Hk2).
        rewrite Hnodes1 in Hn0.
        apply elem_of_app in Hn0 as [Hn0 | ->%list_elem_of_singleton];
          [by apply Hb4 | done].
    + intros r Hr Hn. destruct (Hnext r Hr Hn) as (HI & _).
      destruct Htail2 as (el' & Hel' & Ht'); [by exists r|].
      by exists n, el'.
  - (* a further token of an annotation *)
    rewrite bool_decide_eq_false_2 by done. cbn [negb]. rewrite HB.
    destruct (Hopen Hns) as (e & el & Esib & Hel & Htl).
    rewrite Esib in *.
    destruct (span_token_doc rows idx row e _ _ W c el Hx Hinv Hc Hel Htl)
      as (s2 & -> & Hinv2 & Hk2 & Hl2 & Hlen2 & Htail2).
    cbn [bind]. eexists. split; [reflexivity|].
    cbn [store _last_sibling_element _paragraph_list].
    assert (Hcont' : containers ip {| store := s2; _paragraph_list := _paragraph_list st;
                                      _last_sibling_element := Some e |}
                     = containers ip st) by (by destruct ip).
    rewrite Hcont'.
    split; [done|]. split; [|split; [done|]].
    + intros Hip. apply (body_inv_same (store st)); [by apply Hbody | done | | done].
      apply Hl2. destruct (Hbody Hip) as (_ & _ & _ & Hbelow). subst ip.
      assert (Hin : (false, e) ∈ nodes (store st) (_paragraph_list st)).
      { simpl in HN. rewrite HN. apply elem_of_app. right. left. }
      pose proof (Hbelow _ Hin). simpl in *. lia.
    + intros r Hr Hn. destruct (Hnext r Hr Hn) as (HI & _).
      destruct Htail2 as (el' & Hel' & Ht'); [by exists r|].
      by exists e, el'.
Qed.


(** *** The traversal *)

Lemma tight_not_first rows row :
  tight rows → rows !! 0%nat = Some row → needs_span row = false.
Proof.
  intros Ht Hr. destruct (needs_span row) eqn:Hn; [|done].
  destruct (Ht 0%nat row Hr Hn) as (_ & r' & Hlt & _). lia.
Qed.

Lemma tight_no_boundary rows idx row :
  tight rows → rows !! idx = Some row → needs_span row = true →
  starts_paragraph idx row = false.
Proof.
  intros Ht Hr Hn. destruct (Ht idx row Hr Hn) as (_ & r' & Hlt & _).
  unfold starts_paragraph. rewrite bool_decide_eq_false_2 by lia.
  unfold needs_span in Hn. destruct (is_linebreak (Token (basic row))); [done|].
  done.
Qed.

(** The state in which the first token is placed. *)
Lemma first_row_state ip row :
  let st1 := if ip && starts_paragraph 0 row
             then with_new_paragraph 0 initial_state else initial_state in
  doc_inv (store st1) (containers ip st1) (_last_sibling_element st1) [] ∧
  (ip = true → body_inv (store st1) (_paragraph_list st1) ∧
               (length (_paragraph_list st1) ≤ 1)%nat).
Proof.
  assert (Hs : starts_paragraph 0 row = true).
  { unfold starts_paragraph. by rewrite bool_decide_eq_true_2. }
  rewrite Hs. destruct ip; cbn [andb].
  - destruct (new_paragraph_doc initial_store [] []) as [Hd Hb].
    + intros i j x y _ Hi. discriminate Hi.
    + intros n Hn. inversion Hn.
    + reflexivity.
    + intros n Hn. inversion Hn.
    + intros n Hn. inversion Hn.
    + split; [vm_compute; lia|]. split; [reflexivity|]. split; [reflexivity|].
      intros n Hn. inversion Hn.
    + split; [exact Hd|]. intros _. split; [exact Hb | simpl; lia].
  - split; [|discriminate]. split.
    + intros i j x y Hij Hi Hj. destruct j as [|j]; [lia | discriminate Hj].
    + intros n ->%list_elem_of_singleton. vm_compute. lia.
    + exists [], body_el. done.
    + reflexivity.
    + intros n ->%list_elem_of_singleton. discriminate.
    + intros n ->%list_elem_of_singleton _. reflexivity.
Qed.

Lemma joined_tokens_cons row rest :
  joined_tokens (row :: rest) = token_piece row ++ joined_tokens rest.
Proof. reflexivity. Qed.

(** A token that was placed passed the checks of lxml. *)
Lemma place_token_Ok_writable ip rows idx row st st' :
  place_token ip rows idx row st = Ok st' →
  is_linebreak (Token (basic row)) = false →
  xml_text (Token (basic row)) = true ∧
  (opens_span row = true →
     xml_name (drop 2 (Tag row)) = true ∧ xml_text (Annotation_ID row) = true).
Proof.
  intros Hp Hl. unfold place_token in Hp. unfold opens_span. rewrite Hl in *.
  cbn [negb andb].
  destruct (bool_decide (Tag row = tag_O)); cbn [negb andb] in *.
  { split; [|discriminate].
    destruct (_last_sibling_element st).
    - by destruct (xml_text (Token (basic row))).
    - destruct (if ip then py_last (_paragraph_list st) else Ok body_el);
        [|discriminate Hp].
      cbn [bind] in Hp. by destruct (xml_text (Token (basic row))). }
  destruct (startswith tag_B (Tag row)).
  - destruct (if ip then py_last (_paragraph_list st) else Ok body_el);
      [|discriminate Hp].
    cbn [bind] in Hp. rewrite TeiFacts.SubElement_span in Hp.
    destruct (xml_name (drop 2 (Tag row))); [|discriminate Hp].
    destruct (xml_text (Annotation_ID row)); [|discriminate Hp].
    cbn [andb bind] in Hp. unfold span_token in Hp.
    destruct (xml_text (Token (basic row))); [done | discriminate Hp].
  - split; [|discriminate].
    destruct (_last_sibling_element st); [|discriminate Hp].
    unfold span_token in Hp.
    destruct (xml_text (Token (basic row))); [done | discriminate Hp].
Qed.

(** A traversal that reaches the end met writable rows only. *)
Lemma tei_loop_Ok_writable ip rows :
  ∀ (rest : list tagged_row) idx st st',
    tei_loop ip eltec_deu rows idx rest st = Ok st' →
    Forall writable rest.
Proof.
  induction rest as [|row rest IH]; intros idx st st' Hloop; [constructor|].
  cbn [tei_loop] in Hloop. unfold tei_step in Hloop.
  destruct (read_as_nan (Token (basic row))) eqn:Hnan; [discriminate Hloop|].
  rewrite open_paragraph_eltec in Hloop. cbn [bind] in Hloop.
  destruct (place_token ip rows idx row _) as [st2|e] eqn:Hp; [|discriminate Hloop].
  cbn [bind] in Hloop. constructor; [|by eapply IH].
  split; [done|]. by eapply place_token_Ok_writable.
Qed.

(** The traversal from row [idx] on adds the tokens of the rows in their
    order, each with a space. *)
Lemma tei_loop_text ip rows :
  tight rows →
  ∀ (rest : list tagged_row) idx st (W : list char),
    Forall writable rest →
    drop idx rows = rest →
    text_inv ip rows idx st W →
    ∃ st', tei_loop ip eltec_deu rows idx rest st = Ok st' ∧
           text_inv ip rows (idx + length rest) st' (W ++ joined_tokens rest).
Proof.
  intros Htight. induction rest as [|row rest IH]; intros idx st W Hwr Hdrop Hinv.
  - exists st. simpl. rewrite app_nil_r, Nat.add_0_r. done.
  - apply Forall_cons in Hwr as [Hw Hwr].
    assert (Hrow : rows !! idx = Some row).
    { rewrite <- (Nat.add_0_r idx), <- lookup_drop, Hdrop. done. }
    assert (Hrest : drop (S idx) rows = rest).
    { rewrite (drop_S _ _ _ Hrow) in Hdrop. by injection Hdrop. }
    cbn [tei_loop]. unfold tei_step. rewrite (proj1 Hw).
    rewrite open_paragraph_eltec. cbn [bind].
    set (st1 := if ip && starts_paragraph idx row
                then with_new_paragraph idx st else st).
    assert (Hmid : doc_inv (store st1) (containers ip st1)
                     (_last_sibling_element st1) W ∧
                   (ip = true → body_inv (store st1) (_paragraph_list st1) ∧
                                (length (_paragraph_list st1) ≤ S idx)%nat) ∧
                   (needs_span row = true →
                      ∃ e el, _last_sibling_element st1 = Some e ∧
                              store st1 !! e = Some el ∧ el_tail el = None)).
    { destruct Hinv as [(-> & -> & ->) | (Hd & Hb & Ho)].
      - destruct (first_row_state ip row) as [Hd Hb]. fold st1 in Hd, Hb.
        split; [done|]. split; [done|].
        intros Hn. by rewrite (tight_not_first rows row Htight Hrow) in Hn.
      - unfold st1. destruct (ip && starts_paragraph idx row) eqn:Eb.
        + apply andb_prop in Eb as [-> Hs].
          destruct (Hb eq_refl) as [Hbody Hlen].
          destruct Hd as [Hsorted Hbound _ Htext Hleaf Hcont].
          destruct (new_paragraph_doc (store st) (_paragraph_list st) W
                      Hsorted Hbound Htext Hleaf Hcont Hbody) as [Hd' Hb'].
          unfold with_new_paragraph.
          cbn [store _paragraph_list _last_sibling_element containers].
          rewrite (py_insert_end idx _ _ Hlen).
          split; [exact Hd'|]. split.
          * intros _. split; [exact Hb'|]. rewrite length_app. simpl. lia.
          * intros Hn. by rewrite (tight_no_boundary rows idx row Htight Hrow Hn) in Hs.
        + split; [done|]. split; [|by apply Ho].
          intros Hip. destruct (Hb Hip). split; [done | lia]. }
    destruct Hmid as (Hd1 & Hb1 & Ho1).
    destruct (place_token_text ip rows idx row st1 W Htight Hw Hrow Hd1
                (λ Hip, proj1 (Hb1 Hip)) Ho1)
      as (st2 & -> & Hd2 & Hb2 & Hpl2 & Ho2).
    cbn [bind].
    destruct (IH (S idx) st2 (W ++ token_piece row) Hwr Hrest) as (st' & -> & Hinv').
    { right. split; [done|]. split; [|done].
      intros Hip. split; [by apply Hb2|]. rewrite Hpl2. by apply Hb1. }
    exists st'. split; [done|].
    rewrite joined_tokens_cons, app_assoc.
    replace (idx + length (row :: rest))%nat with (S idx + length rest)%nat
      by (simpl; lia).
    done.
Qed.

(** *** The text content of the body *)

Lemma itertext_leaf (fuel : nat) (s : list element) (e : nat) :
  kids s e = [] → itertext (S fuel) s e = txt s e.
Proof.
  unfold kids, txt. cbn [itertext]. destruct (s !! e) as [el|]; [|done].
  intros ->. simpl. by rewrite app_nil_r.
Qed.

Lemma itertext_container (fuel : nat) (s : list element) (c : nat) :
  (∀ e, e ∈ kids s c → kids s e = []) →
  itertext (S (S fuel)) s c
  = txt s c ++ mjoin ((λ e, txt s e ++ tl s e) <$> kids s c).
Proof.
  intros Hleaf. unfold kids, txt in *. 
  change (itertext (S (S fuel)) s c)
    with (match s !! c with
          | None => []
          | Some el =>
              text_of (el_text el)
              ++ mjoin ((λ child, itertext (S fuel) s child
                                  ++ match s !! child with
                                     | Some c => text_of (el_tail c)
                                     | None => []
                                     end) <$> el_children el)
          end).
  destruct (s !! c) as [el|]; [|done].
  f_equal. f_equal. apply list_fmap_ext. intros i e He.
  rewrite itertext_leaf by (apply Hleaf; eapply list_elem_of_lookup_2, He).
  reflexivity.
Qed.

Lemma doc_text_containers (s : list element) (C : list nat) :
  doc_text s C
  = mjoin ((λ c, txt s c ++ mjoin ((λ e, txt s e ++ tl s e) <$> kids s c)) <$> C).
Proof.
  assert (Hcons : ∀ (A : Type) (x : list A) (l : list (list A)),
            mjoin (x :: l) = x ++ mjoin l) by reflexivity.
  unfold doc_text, nodes. induction C as [|c C IH]; [done|].
  rewrite !fmap_cons, !Hcons, fmap_app, join_app, IH.
  f_equal. rewrite fmap_cons, Hcons. cbn [contribution fst snd]. f_equal.
  rewrite <- list_fmap_compose. reflexivity.
Qed.

Lemma body_text_without_paragraphs (s : list element) (sib : option nat)
    (W : list char) :
  doc_inv s [body_el] sib W → body_text s = W.
Proof.
  intros [_ Hbound _ Htext Hleaf _].
  assert (Hb : (body_el < length s)%nat).
  { apply (Hbound (true, body_el)). apply elem_of_nodes. left. split; [done | left]. }
  unfold body_text. destruct (length s) as [|[|fuel]] eqn:El; [unfold body_el in Hb; lia..|].
  rewrite itertext_container.
  - rewrite <- Htext, doc_text_containers. simpl. by rewrite app_nil_r.
  - intros e He. apply (Hleaf (false, e)); [|done].
    apply elem_of_nodes. right. split; [done|]. exists body_el. split; [left | done].
Qed.

Lemma body_text_with_paragraphs (s : list element) (C : list nat)
    (sib : option nat) (W : list char) :
  doc_inv s C sib W → body_inv s C → body_text s = W.
Proof.
  intros [_ Hbound _ Htext Hleaf Hcont] (Hb & Hbk & Hbt & _).
  unfold body_text.
  destruct (length s) as [|[|[|fuel]]] eqn:El; [unfold body_el in Hb; lia..|].
  change (itertext (S (S (S fuel))) s body_el)
    with (match s !! body_el with
          | None => []
          | Some el =>
              text_of (el_text el)
              ++ mjoin ((λ child, itertext (S (S fuel)) s child
                                  ++ match s !! child with
                                     | Some c => text_of (el_tail c)
                                     | None => []
                                     end) <$> el_children el)
          end).
  unfold kids, txt in Hbk, Hbt.
  destruct (s !! body_el) as [b|]; [|by rewrite <- Htext, <- Hbk].
  rewrite Hbt, Hbk. cbn [app].
  rewrite <- Htext, doc_text_containers. f_equal.
  apply list_fmap_ext. intros i c Hc.
  apply list_elem_of_lookup_2 in Hc.
  rewrite itertext_container.
  - assert (Ht : tl s c = []).
    { apply (Hcont (true, c)); [|done]. apply elem_of_nodes. by left. }
    unfold tl in Ht. rewrite Ht. by rewrite app_nil_r.
  - intros e He. apply (Hleaf (false, e)); [|done].
    apply elem_of_nodes. right. split; [done|]. by exists c.
Qed.

(** X21.  The text of the document is the text of the tokens: for a
    table in which every row that is written into the current span (no
    line break, a tag that is neither O nor a B- tag) has an I- tag and
    comes directly after a row of an annotation (a token that is no line
    break, with a tag other than O), whenever the traversal of
    [create_annotated_tei] with the text class 'eltec-deu', with or
    without paragraphs, builds the tree, the body of the tree has as its
    text content the tokens of the table without the line-break tokens,
    in their order, each followed by one space. *)
Theorem document_text_is_the_joined_tokens (insert_paragraphs : bool)
    (rows : list tagged_row) (st : state) :
  tight rows →
  build_body insert_paragraphs eltec_deu rows = Ok st →
  body_text (store st) = joined_tokens rows.
Proof.
  intros Htight Hbuild. unfold build_body in Hbuild.
  pose proof (tei_loop_Ok_writable _ _ _ _ _ _ Hbuild) as Hwr.
  destruct (tei_loop_text insert_paragraphs rows Htight rows 0 initial_state []
              Hwr)
    as (st0 & Hst & Hinv); [done | by left |].
  rewrite Hbuild in Hst. injection Hst as <-. simpl in Hinv.
  destruct Hinv as [(_ & -> & ->) | (Hd & Hb & _)].
  - vm_compute. reflexivity.
  - destruct insert_paragraphs.
    + destruct (Hb eq_refl) as [Hbody _].
      by apply (body_text_with_paragraphs _ _ _ _ Hd Hbody).
    + by apply (body_text_without_paragraphs _ _ _ Hd).
Qed.

Lemma document_text_is_the_joined_tokens_witness :
  ∃ st, build_body true eltec_deu Examples.red_fox_table = Ok st ∧
        body_text (store st) = joined_tokens Examples.red_fox_table.
Proof.
  eexists. split; [vm_compute; reflexivity|].
  apply (document_text_is_the_joined_tokens true Examples.red_fox_table);
    [|vm_compute; reflexivity].
  intros i r Hi Hn.
  destruct i as [|[|[|[|i]]]]; simpl in Hi; try discriminate Hi;
    injection Hi as <-; vm_compute in Hn; try discriminate Hn.
  split; [vm_compute; reflexivity|].
  eexists. split; [lia|]. split; [reflexivity|].
  split; [vm_compute; reflexivity|]. intros E. vm_compute in E. discriminate E.
Defined.

(** Without the condition the order of the text can break: an I- row
    after a line break that opens no paragraph is written into the span
    before the line break, behind whose text a space is already set. *)
Example glued_tokens :
  ∃ st, build_body false eltec_deu
          [ {| basic := {| Token_ID := 0; Text_Pointer := 0; Token := lit "red" |};
               Tag := lit "B-Animal"; Annotation_ID := lit "A3";
               Multi_Token_Annotation := 2 |};
            {| basic := {| Token_ID := 1; Text_Pointer := 3; Token := lit "\n" |};
               Tag := lit "O"; Annotation_ID := lit "none";
               Multi_Token_Annotation := 0 |};
            {| basic := {| Token_ID := 2; Text_Pointer := 4; Token := lit "fox" |};
               Tag := lit "I-Animal"; Annotation_ID := lit "A3";
               Multi_Token_Annotation := 2 |} ] = Ok st ∧
        body_text (store st) = lit "redfox  ".
Proof. eexists. split; vm_compute; reflexivity. Qed.


(** *** The elements of the document *)

Lemma labels_alter (f : element → element) (i : nat) (s : list element) :
  (∀ el, el_tag (f el) = el_tag el ∧ el_attrib (f el) = el_attrib el) →
  labels (alter f i s) = labels s.
Proof.
  intros Hf. unfold labels. revert i.
  induction s as [|el s IH]; intros [|i]; simpl; try done.
  - destruct (Hf el) as [-> ->]. done.
  - f_equal. apply IH.
Qed.

Lemma labels_with_child parent tag attrib s :
  labels (with_child parent tag attrib s).2 = labels s ++ [(tag, attrib)].
Proof.
  unfold with_child. cbn [snd]. unfold labels at 1. rewrite fmap_app.
  fold (labels (alter (add_child (length s)) parent s)).
  rewrite labels_alter by done. reflexivity.
Qed.

Lemma labels_span_token rows idx row e s s' :
  span_token rows idx row e s = Ok s' → labels s' = labels s.
Proof.
  destruct (xml_text (Token (basic row))) eqn:Hx;
    [|unfold span_token; rewrite Hx; discriminate].
  destruct (span_token_spec rows idx row e s Hx) as (s2 & -> & [[_ ->] | [_ ->]]);
    intros [= <-]; unfold append_tail, append_text;
    rewrite ?labels_alter; done.
Qed.

Lemma labels_place_token ip rows idx row st st' :
  place_token ip rows idx row st = Ok st' →
  labels (store st')
  = labels (store st)
    ++ (if opens_span row
        then [(CS1 ++ drop 2 (Tag row),
               [(CS1 ++ lit "annotation", Annotation_ID row)])]
        else []).
Proof.
  unfold place_token, opens_span.
  destruct (is_linebreak (Token (basic row))); cbn [negb andb].
  { intros [= <-]. by rewrite app_nil_r. }
  destruct (bool_decide (Tag row = tag_O)); cbn [negb andb].
  - destruct (_last_sibling_element st) as [e|].
    + destruct (xml_text (Token (basic row))); [|discriminate].
      intros [= <-]. cbn [store]. unfold append_tail.
      rewrite labels_alter by done. by rewrite app_nil_r.
    + destruct (if ip then py_last (_paragraph_list st) else Ok body_el) as [p|];
        cbn [bind]; [|discriminate].
      destruct (xml_text (Token (basic row))); [|discriminate].
      intros [= <-]. cbn [store]. unfold append_text.
      rewrite labels_alter by done. by rewrite app_nil_r.
  - destruct (startswith tag_B (Tag row)).
    + destruct (if ip then py_last (_paragraph_list st) else Ok body_el) as [p|];
        cbn [bind]; [|discriminate].
      rewrite TeiFacts.SubElement_span.
      destruct (xml_name (drop 2 (Tag row)) && xml_text (Annotation_ID row));
        cbn [bind]; [|discriminate].
      destruct (span_token _ _ _ _ _) as [s2|] eqn:Hs; cbn [bind]; [|discriminate].
      intros [= <-]. cbn [store].
      rewrite (labels_span_token _ _ _ _ _ _ Hs). apply labels_with_child.
    + destruct (_last_sibling_element st) as [e|]; [|discriminate].
      destruct (span_token _ _ _ _ _) as [s2|] eqn:Hs; cbn [bind]; [|discriminate].
      intros [= <-]. cbn [store].
      rewrite (labels_span_token _ _ _ _ _ _ Hs). by rewrite app_nil_r.
Qed.

Lemma labels_tei_loop ip rows (rest : list tagged_row) : ∀ idx st st',
  tei_loop ip eltec_deu rows idx rest st = Ok st' →
  labels (store st')
  = labels (store st)
    ++ mjoin (imap (λ i row, created ip (idx + i) row) rest).
Proof.
  induction rest as [|row rest IH]; intros idx st st'.
  - simpl. intros [= <-]. by rewrite app_nil_r.
  - cbn [tei_loop]. unfold tei_step.
    destruct (read_as_nan (Token (basic row))); [discriminate|].
    rewrite open_paragraph_eltec. cbn [bind].
    set (st1 := if ip && starts_paragraph idx row
                then with_new_paragraph idx st else st).
    destruct (place_token ip rows idx row st1) as [st2|] eqn:Hp; cbn [bind];
      [|discriminate].
    intros Hl. apply IH in Hl. rewrite Hl.
    rewrite (labels_place_token _ _ _ _ _ _ Hp).
    assert (H1 : labels (store st1)
                 = labels (store st)
                   ++ (if ip && starts_paragraph idx row
                       then [(TEI ++ lit "p", [])] else [])).
    { unfold st1. destruct (ip && starts_paragraph idx row).
      - unfold with_new_paragraph. cbn [store].
        apply (labels_with_child body_el (TEI ++ lit "p") [] (store st)).
      - by rewrite app_nil_r. }
    rewrite H1, imap_cons.
    assert (Hcons : ∀ (A : Type) (x : list A) (l : list (list A)),
              mjoin (x :: l) = x ++ mjoin l) by reflexivity.
    rewrite Hcons. unfold created at 2. rewrite Nat.add_0_r, <- !app_assoc.
    do 4 f_equal. apply imap_ext. intros i r _. simpl. f_equal. lia.
Qed.

(** X22.  The elements of the document: whenever [create_annotated_tei]
    (text class 'eltec-deu') has built its tree, the tree holds, after
    the seven elements of the empty document and in the order of the
    rows, one p element for every row that opens a paragraph and one
    element for every B- row whose token is no line break, named after
    the class of the row in the CS1 namespace and carrying the row's
    Annotation_ID as its annotation attribute; no other element is
    created, and none for an I- or O row. *)
Theorem document_elements_follow_the_rows (insert_paragraphs : bool)
    (rows : list tagged_row) (st : state) :
  build_body insert_paragraphs eltec_deu rows = Ok st →
  labels (store st)
  = labels initial_store ++ mjoin (imap (created insert_paragraphs) rows).
Proof.
  intros Hb. unfold build_body in Hb.
  apply labels_tei_loop in Hb. rewrite Hb. reflexivity.
Qed.

Lemma document_elements_follow_the_rows_witness :
  ∃ st, build_body true eltec_deu Examples.red_fox_table = Ok st ∧
        labels (store st)
        = labels initial_store
          ++ [ (TEI ++ lit "p", []);
               (CS1 ++ lit "Animal", [(CS1 ++ lit "annotation", lit "A3")]);
               (TEI ++ lit "p", []) ].
Proof.
  eexists. split; [vm_compute; reflexivity|].
  apply (document_elements_follow_the_rows true Examples.red_fox_table _ eq_refl).
Defined.

End TeiTextTheorems.

(* ===================================================================== *)
(** ** Properties of the loading of annotation files *)
(* ===================================================================== *)

Module LoadingTheorems.
Import Align Analyzer AnalyzerSpec.

Lemma check_paths_Returns path_exists (l : list (option str)) : ∀ paths,
  check_paths path_exists l = Returns paths →
  l = Some <$> paths ∧ ∀ p, p ∈ paths → path_exists p = true.
Proof.
  induction l as [|[p|] l IH]; intros paths; simpl.
  - intros [= <-]. split; [done|]. intros p Hp. inversion Hp.
  - destruct (path_exists p) eqn:Hp; simpl; [|discriminate].
    destruct (check_paths path_exists l) as [ps|]; simpl; [|discriminate].
    intros [= <-]. destruct (IH ps eq_refl) as [-> Hall]. split; [done|].
    intros q [->|Hq]%elem_of_cons; [done | by apply Hall].
  - discriminate.
Qed.

Lemma elem_of_unique (values : list str) (x : str) :
  x ∈ unique values ↔ x ∈ values.
Proof.
  unfold unique.
  assert (H : ∀ met, x ∈ foldl (λ met x, if decide (x ∈ met) then met
                                          else met ++ [x]) met values
                     ↔ x ∈ met ∨ x ∈ values).
  { induction values as [|y values IH]; intros met; simpl.
    - split; [by left | intros [H|H]; [done | inversion H]].
    - rewrite IH. destruct (decide (y ∈ met)) as [Hy|Hy].
      + rewrite elem_of_cons. split; [tauto|].
        intros [H | [-> | H]]; tauto.
      + rewrite elem_of_app, list_elem_of_singleton, elem_of_cons. tauto. }
  rewrite H. split; [intros [E|E]; [inversion E | done] | by right].
Qed.

Lemma check_frame_Returns classes df df' :
  check_frame classes df = Returns df' →
  df' = df ∧ frame_rows df ≠ [] ∧
  (∀ c, c ∈ canspin_annotation_tsv_columns → c ∈ columns df) ∧
  ∀ row, row ∈ frame_rows df →
    Tag row = tag_O ∨ drop 2 (Tag row) = tag_O ∨ drop 2 (Tag row) ∈ classes.
Proof.
  unfold check_frame.
  destruct (decide (filter _ canspin_annotation_tsv_columns ≠ [])) as [|Hcols];
    [discriminate|].
  destruct (decide (frame_rows df = [])) as [|Hrows]; [discriminate|].
  destruct (decide (filter _ (filter _ (unique _)) ≠ [])) as [|Hout];
    [discriminate|].
  intros [= <-]. split; [done|]. split; [done|]. split.
  - intros c Hc. destruct (decide (c ∈ columns df)) as [|Hn]; [done|].
    exfalso. apply Hcols. intros E.
    eapply AlignFacts.filter_nil_iff in E; [|exact Hc]. by apply E.
  - intros row Hrow.
    destruct (decide (Tag row = tag_O)) as [|HO]; [by left|]. right.
    destruct (decide (drop 2 (Tag row) = tag_O)) as [|HO']; [by left|]. right.
    destruct (decide (drop 2 (Tag row) ∈ classes)) as [|Hn]; [done|].
    exfalso. apply Hout. intros E.
    eapply AlignFacts.filter_nil_iff in E; [by apply E|].
    apply list_elem_of_filter. split; [done|].
    apply elem_of_unique, list_elem_of_fmap. exists row.
    split; [|done]. by rewrite decide_True.
Qed.

Lemma load_frames_Returns read_csv classes (paths : list str) : ∀ dataframes,
  load_frames read_csv classes paths = Returns dataframes →
  dataframes = read_csv <$> paths ∧
  ∀ p, p ∈ paths → check_frame classes (read_csv p) = Returns (read_csv p).
Proof.
  induction paths as [|p paths IH]; intros dataframes; simpl.
  - intros [= <-]. split; [done|]. intros p Hp. inversion Hp.
  - destruct (check_frame classes (read_csv p)) as [df|] eqn:Hc; simpl; [|discriminate].
    destruct (load_frames read_csv classes paths) as [dfs|]; simpl; [|discriminate].
    intros [= <-]. destruct (IH dfs eq_refl) as [-> Hall].
    destruct (check_frame_Returns _ _ _ Hc) as [-> _].
    split; [done|]. intros q [->|Hq]%elem_of_cons; [done | by apply Hall].
Qed.

(** What a loaded table is. *)
Lemma load_tsv_files_Returns path_exists read_csv classes l rows :
  _load_tsv_files path_exists read_csv classes l = Returns rows →
  ∃ paths, l = Some <$> paths ∧ paths ≠ [] ∧
    rows = mjoin ((λ p, frame_rows (read_csv p)) <$> paths) ∧
    ∀ p, p ∈ paths →
      path_exists p = true ∧
      check_frame classes (read_csv p) = Returns (read_csv p).
Proof.
  unfold _load_tsv_files. case_decide as Hlen; [discriminate|].
  destruct (check_paths path_exists l) as [paths|] eqn:Hp; simpl; [|discriminate].
  destruct (load_frames read_csv classes paths) as [dfs|] eqn:Hl; simpl; [|discriminate].
  destruct (check_paths_Returns _ _ _ Hp) as [-> Hex].
  destruct (load_frames_Returns _ _ _ _ Hl) as [-> Hfr].
  intros Hrows. exists paths. split; [done|]. split.
  { intros ->. simpl in Hlen. done. }
  split.
  - destruct paths as [|p [|q paths]]; simpl in *; injection Hrows as <-;
      [done | by rewrite app_nil_r |].
    by rewrite <- list_fmap_compose.
  - intros p Hp'. split; [by apply Hex | by apply Hfr].
Qed.

(** X23.  A table that [_load_tsv_files] returns is made of the rows of
    the listed files, in the order of the list; every listed file exists,
    has the six columns of the CANSpiN annotation schema and at least one
    row; and every row's tag is O, or the tag without its first two
    characters is a class of the chosen class system, or is the text O,
    which the check passes over. *)
Theorem loaded_table_fits_the_class_system path_exists read_csv classes l rows :
  _load_tsv_files path_exists read_csv classes l = Returns rows →
  rows ≠ [] ∧
  (∃ paths, l = Some <$> paths ∧
     rows = mjoin ((λ p, frame_rows (read_csv p)) <$> paths) ∧
     ∀ p, p ∈ paths →
       path_exists p = true ∧ frame_rows (read_csv p) ≠ [] ∧
       ∀ c, c ∈ canspin_annotation_tsv_columns → c ∈ columns (read_csv p)) ∧
  (∀ row, row ∈ rows →
     Tag row = tag_O ∨ drop 2 (Tag row) = tag_O ∨ drop 2 (Tag row) ∈ classes).
Proof.
  intros (paths & -> & Hne & -> & Hall)%load_tsv_files_Returns.
  split; [|split].
  - destruct paths as [|p paths]; [done|].
    destruct (Hall p) as [_ Hc]; [left|].
    destruct (check_frame_Returns _ _ _ Hc) as (_ & Hrows & _).
    simpl. intros E. apply app_eq_nil in E as [E _]. done.
  - exists paths. split; [done|]. split; [done|]. intros p Hp.
    destruct (Hall p Hp) as [Hex Hc].
    destruct (check_frame_Returns _ _ _ Hc) as (_ & Hrows & Hcols & _). done.
  - intros row (rs & Hrow & (p & -> & Hp)%list_elem_of_fmap)%list_elem_of_join.
    destruct (Hall p Hp) as [_ Hc].
    destruct (check_frame_Returns _ _ _ Hc) as (_ & _ & _ & Htags). by apply Htags.
Qed.

Lemma loaded_table_fits_the_class_system_witness :
  Examples.red_fox_table ≠ [] ∧
  (∃ paths, [Some (lit "a.tsv")] = Some <$> paths ∧
     Examples.red_fox_table
     = mjoin ((λ p, frame_rows
                      ((λ _, {| columns := canspin_annotation_tsv_columns;
                                frame_rows := Examples.red_fox_table |}) p))
                <$> paths) ∧
     ∀ p, p ∈ paths →
       (λ _ : str, true) p = true ∧
       frame_rows ((λ _, {| columns := canspin_annotation_tsv_columns;
                            frame_rows := Examples.red_fox_table |}) p) ≠ [] ∧
       ∀ c, c ∈ canspin_annotation_tsv_columns →
            c ∈ columns ((λ _, {| columns := canspin_annotation_tsv_columns;
                                  frame_rows := Examples.red_fox_table |}) p)) ∧
  (∀ row, row ∈ Examples.red_fox_table →
     Tag row = tag_O ∨ drop 2 (Tag row) = tag_O
     ∨ drop 2 (Tag row) ∈ [lit "Animal"]).
Proof.
  apply (loaded_table_fits_the_class_system (λ _, true)
           (λ _, {| columns := canspin_annotation_tsv_columns;
                    frame_rows := Examples.red_fox_table |})
           [lit "Animal"] [Some (lit "a.tsv")] Examples.red_fox_table).
  vm_compute. reflexivity.
Defined.

(** X24.  Loading and charting together: a table that [_load_tsv_files]
    returns passes [_transform_with_token_separation] for the classes of
    the same class system and every unit size a >= 1, unless a B- row
    carries the class O, which the check of the loader passes over. *)
Theorem loaded_table_passes_the_bar_chart path_exists read_csv classes l rows
    (a : Z) :
  _load_tsv_files path_exists read_csv classes l = Returns rows →
  (∀ row, row ∈ rows → startswith tag_B (Tag row) = true →
          drop 2 (Tag row) ≠ tag_O) →
  0 < a →
  ∃ st, _transform_with_token_separation classes rows a = Returns st ∧
        (class_instance_counter st).*1 = classes.
Proof.
  intros (paths & -> & Hne & -> & Hall)%load_tsv_files_Returns HnoO Ha.
  set (rows := mjoin ((λ p, frame_rows (read_csv p)) <$> paths)) in *.
  assert (Hknown : classes_known classes rows).
  { intros row Hrow HB.
    pose proof Hrow as (rs & Hrs & (p & -> & Hp)%list_elem_of_fmap)%list_elem_of_join.
    destruct (Hall p Hp) as [_ Hc].
    destruct (check_frame_Returns _ _ _ Hc) as (_ & _ & _ & Htags).
    destruct (Htags row Hrs) as [HO | [HO | Hin]]; [| |done].
    - rewrite HO in HB. vm_compute in HB. discriminate HB.
    - by destruct (HnoO row Hrow HB). }
  destruct (AnalyzerTheorems.token_separation_Returns classes rows a Ha Hknown)
    as (st & Hst & _ & Hk & _).
  by exists st.
Qed.

Lemma loaded_table_passes_the_bar_chart_witness :
  ∃ st, _transform_with_token_separation [lit "Animal"] Examples.red_fox_table 2
        = Returns st ∧
        (class_instance_counter st).*1 = [lit "Animal"].
Proof.
  apply (loaded_table_passes_the_bar_chart (λ _, true)
           (λ _, {| columns := canspin_annotation_tsv_columns;
                    frame_rows := Examples.red_fox_table |})
           [lit "Animal"] [Some (lit "a.tsv")] Examples.red_fox_table 2).
  - vm_compute. reflexivity.
  - intros row Hrow HB. unfold Examples.red_fox_table in Hrow.
    repeat (apply elem_of_cons in Hrow as [-> | Hrow]);
      [ first [ vm_compute in HB; discriminate HB
              | intros E; vm_compute in E; discriminate E ] .. | inversion Hrow ].
  - lia.
Defined.

End LoadingTheorems.

(* ===================================================================== *)
(** ** Properties of the dict helpers *)
(* ===================================================================== *)

Module HelperTheorems.
Import Align Analyzer Helper HelperSpec.

Lemma dict_set_fresh {V} (k : str) (v : V) (d : list (str * V)) :
  k ∉ d.*1 → dict_set k v d = d ++ [(k, v)].
Proof.
  induction d as [|[k' v'] d IH]; simpl; [done|].
  intros Hk. apply not_elem_of_cons in Hk as [Hne Hk].
  rewrite decide_False by done. by rewrite IH.
Qed.

Lemma dict_of_from {V} (pairs : list (str * V)) : ∀ d,
  NoDup (d.*1 ++ pairs.*1) →
  foldl (λ d kv, dict_set kv.1 kv.2 d) d pairs = d ++ pairs.
Proof.
  induction pairs as [|[k v] pairs IH]; intros d Hnd; simpl.
  - by rewrite app_nil_r.
  - rewrite dict_set_fresh.
    + rewrite IH; [by rewrite <- app_assoc|].
      rewrite fmap_app. simpl. by rewrite <- app_assoc.
    + simpl in Hnd. apply NoDup_app in Hnd as (_ & Hd & _).
      intros Hk. apply (Hd k Hk). left.
Qed.

Lemma dict_of_NoDup {V} (pairs : list (str * V)) :
  NoDup pairs.*1 → dict_of pairs = pairs.
Proof. intros Hnd. unfold dict_of. by rewrite dict_of_from. Qed.

Lemma renamed_Dict {A} translation (items : list (str * value A)) :
  renamed translation (Dict items) = Dict (renamed_items translation items).
Proof.
  reflexivity.
Qed.

Lemma collision_free_Dict {A} translation (items : list (str * value A)) :
  collision_free translation (Dict items) ↔
  NoDup (translated_key translation <$> items.*1) ∧
  ∀ kv, kv ∈ items → collision_free translation kv.2.
Proof.
  simpl. apply and_iff_compat_l.
  induction items as [|kv items IH].
  - split; [intros _ kv Hkv; inversion Hkv | done].
  - rewrite IH. split.
    + intros [H1 H2] kv' [->|Hin]%elem_of_cons; [done | by apply H2].
    + intros H. split; [apply H; left | intros kv' Hkv'; apply H; by right].
Qed.

Lemma nesting_Dict {A} (items : list (str * value A)) (n : nat) :
  (nesting (Dict items) ≤ S n)%nat ↔
  ∀ kv, kv ∈ items → (nesting kv.2 ≤ n)%nat.
Proof.
  simpl. rewrite <- Nat.succ_le_mono.
  induction items as [|kv items IH].
  - split; [intros _ kv Hkv; inversion Hkv | intros _; lia].
  - rewrite Nat.max_lub_iff, IH. split.
    + intros [H1 H2] kv' [->|Hin]%elem_of_cons; [done | by apply H2].
    + intros H. split; [apply H; left | intros kv' Hkv'; apply H; by right].
Qed.

Lemma travel_Dict {A} (is_type : A → bool) (items : list (str * value A)) :
  travel is_type (Dict items)
  = mjoin ((λ kv : str * value A, travel is_type kv.2) <$> items).
Proof.
  simpl. induction items as [|kv items IH]; simpl; [done|]. by rewrite IH.
Qed.

Lemma travel_renamed {A} (is_type : A → bool) translation (n : nat) :
  ∀ v : value A, (nesting v ≤ n)%nat →
    travel is_type (renamed translation v) = travel is_type v.
Proof.
  induction n as [|n IH]; intros [a|items] Hn; try done.
  - simpl in Hn. lia.
  - rewrite renamed_Dict, !travel_Dict. f_equal.
    rewrite nesting_Dict in Hn. unfold renamed_items.
    rewrite <- list_fmap_compose. apply list_fmap_ext.
    intros i kv Hkv. simpl. apply IH, Hn. by eapply list_elem_of_lookup_2.
Qed.

Lemma translate_dict_renamed {A} translation (depth : nat) :
  ∀ input : list (str * value A),
    (nesting (Dict input) ≤ depth)%nat →
    collision_free translation (Dict input) →
    translate_dict depth input translation
    = Some (renamed_items translation input).
Proof.
  induction depth as [|n IH]; intros input Hn Hcf.
  { simpl in Hn. lia. }
  rewrite nesting_Dict in Hn. rewrite collision_free_Dict in Hcf.
  destruct Hcf as [Hnd Hcf].
  cbn [translate_dict]. rewrite dict_of_NoDup.
  2:{ rewrite <- list_fmap_compose.
      rewrite <- list_fmap_compose in Hnd. exact Hnd. }
  clear Hnd. unfold renamed_items.
  induction input as [|[k v] input IHl]; [done|].
  rewrite !fmap_cons. cbn [mapM fst snd].
  assert (Hv : (nesting v ≤ n)%nat) by (apply (Hn (k, v)); left).
  assert (Hc : collision_free translation v) by (apply (Hcf (k, v)); left).
  rewrite IHl.
  2:{ intros kv Hkv. apply Hn. by right. }
  2:{ intros kv Hkv. apply Hcf. by right. }
  destruct v as [a|items]; [done|].
  rewrite (IH items Hv Hc). reflexivity.
Qed.

(** X26.  [translate_dict] renames the keys and nothing else: when no two
    keys of one dict are translated to the same key, at any depth, and the
    nesting of the dicts stays within the recursion limit, the result has
    every key replaced by its translation (a key without one stays), with
    items and values in their places, and [dict_travel_generator] yields
    from it what it yields from the input. *)
Theorem translate_dict_renames_the_keys {A} (translation : list (str * str))
    (input : list (str * value A)) (depth : nat) (is_type : A → bool) :
  collision_free translation (Dict input) →
  (nesting (Dict input) ≤ depth)%nat →
  ∃ translated,
    translate_dict depth input translation = Some translated ∧
    Dict translated = renamed translation (Dict input) ∧
    translated.*1 = translated_key translation <$> input.*1 ∧
    dict_travel_generator translated is_type
    = dict_travel_generator input is_type.
Proof.
  intros Hcf Hn. exists (renamed_items translation input).
  split; [by apply translate_dict_renamed|].
  split; [by rewrite renamed_Dict|]. split.
  - unfold renamed_items. rewrite <- !list_fmap_compose. done.
  - unfold dict_travel_generator. rewrite <- renamed_Dict.
    by apply (travel_renamed _ _ depth).
Qed.

Lemma translate_dict_renames_the_keys_witness :
  ∃ translated,
    translate_dict 2
      [(lit "Ort", Dict [(lit "Richtung", Other 1)]); (lit "Text_Unit", Other 2)]
      [(lit "Ort", lit "Place"); (lit "Richtung", lit "Direction")]
    = Some translated ∧
    Dict translated
    = renamed [(lit "Ort", lit "Place"); (lit "Richtung", lit "Direction")]
        (Dict [(lit "Ort", Dict [(lit "Richtung", Other 1)]);
               (lit "Text_Unit", Other 2)]) ∧
    translated.*1
    = translated_key [(lit "Ort", lit "Place"); (lit "Richtung", lit "Direction")]
        <$> [(lit "Ort", Dict [(lit "Richtung", Other 1)]);
             (lit "Text_Unit", Other 2)].*1 ∧
    dict_travel_generator translated (λ _ : Z, true)
    = dict_travel_generator
        [(lit "Ort", Dict [(lit "Richtung", Other 1)]); (lit "Text_Unit", Other 2)]
        (λ _ : Z, true).
Proof.
  apply (translate_dict_renames_the_keys
           [(lit "Ort", lit "Place"); (lit "Richtung", lit "Direction")]
           [(lit "Ort", Dict [(lit "Richtung", Other 1)]); (lit "Text_Unit", Other 2)]
           2 (λ _ : Z, true)).
  - simpl. repeat split; apply (bool_decide_unpack _); vm_compute; reflexivity.
  - simpl. lia.
Defined.

(** Two keys with the same translation are merged: the item stays where
    the first of them was and holds the value of the last. *)
Example translate_dict_merges_colliding_keys :
  translate_dict 1 [(lit "a", Other 1); (lit "c", Other 2); (lit "b", Other 3)]
                   [(lit "a", lit "b")]
  = Some [(lit "b", Other 3); (lit "c", Other 2)].
Proof. vm_compute. reflexivity. Qed.

End HelperTheorems.

(* ===================================================================== *)
(** ** Properties of the matches of the gold standard *)
(* ===================================================================== *)

Module GoldTheorems.
Import Align Gold GoldSpec.

Section Facts.
Context {Annotation : Type} (uuid : Annotation → str).

Implicit Types (acs : list (@collection Annotation))
               (output : list (@segmentation Annotation)).

Lemma foldl_frames {B} (f : B → row → B) acs : ∀ b,
  foldl (λ b (ac : @collection Annotation), foldl f b ac.2) b acs
  = foldl f b (all_df acs).
Proof.
  unfold all_df. induction acs as [|ac acs IH]; intros b; simpl; [done|].
  by rewrite foldl_app, IH.
Qed.

Lemma several_collections acs :
  (2 ≤ length acs)%nat →
  _compare_for_strict_segmentation uuid acs
  = Ok (foldl (compare_row uuid (all_df acs) (all_an acs)) [] (all_df acs)).
Proof.
  intros Hlen. destruct acs as [|[ans df] [|ac acs]]; simpl in Hlen; try lia.
  unfold _compare_for_strict_segmentation. by rewrite foldl_frames.
Qed.

Lemma segments_in output (m : @segmentation Annotation) :
  m ∈ output →
  m.1.2 ∈ (λ m : segmentation, m.1.2) <$> output ∧
  m.2 ∈ (λ m : segmentation, m.2) <$> output.
Proof.
  intros Hm. split; apply list_elem_of_fmap; by exists m.
Qed.

Lemma compare_row_gathered acs output r :
  gathered uuid acs output →
  gathered uuid acs (compare_row uuid (all_df acs) (all_an acs) output r).
Proof.
  intros [Hnd Hall]. unfold compare_row.
  case_decide as Hcount; [|done]. case_decide as Hnew; [|done].
  split.
  - rewrite fmap_app. apply NoDup_app. split; [done|]. split.
    + intros p Hp [E|E]%elem_of_cons; [|inversion E]. subst p.
      apply list_elem_of_fmap in Hp as (m & Em & Hm).
      unfold segments_of in Em. injection Em as Es Ee.
      destruct Hnew as [Hlen | Hnot].
      * destruct output; [inversion Hm | discriminate Hlen].
      * apply Hnot. rewrite Es, Ee. by apply segments_in.
    + apply NoDup_singleton.
  - intros m [Hm | Hm]%elem_of_app; [by apply Hall|].
    apply list_elem_of_singleton in Hm as ->. simpl. split; [|done].
    unfold rows_with. lia.
Qed.

Lemma compare_rows_gathered acs (l : list row) : ∀ output,
  gathered uuid acs output →
  gathered uuid acs (foldl (compare_row uuid (all_df acs) (all_an acs)) output l).
Proof.
  induction l as [|r l IH]; intros output H; simpl; [done|].
  by apply IH, compare_row_gathered.
Qed.

Lemma copied_total output :
  (∀ m, m ∈ output → m.1.1 ≠ []) →
  ∃ copies, copied output = Ok copies ∧ length copies = length output.
Proof.
  induction output as [|m output IH]; intros Hne; simpl.
  - by exists [].
  - destruct (m.1.1) as [|an ans] eqn:E.
    { destruct (Hne m); [left | done]. }
    destruct IH as (copies & -> & Hlen).
    { intros m' Hm'. apply Hne. by right. }
    exists (an :: copies). simpl. by rewrite Hlen.
Qed.

Lemma compare_row_found acs output done_rows r :
  starts_determine_ends (all_df acs) ∨ ends_determine_starts (all_df acs) →
  r ∈ all_df acs →
  found acs output done_rows →
  found acs (compare_row uuid (all_df acs) (all_an acs) output r)
        (done_rows ++ [r]).
Proof.
  intros Hdet Hr [Hsrc Hdone]. unfold compare_row.
  fold (rows_with acs (start_point r) (end_point r)).
  assert (Hold : ∀ output', (∀ m, m ∈ output → m ∈ output') →
            ∀ r', r' ∈ done_rows →
              (2 ≤ length (rows_with acs (start_point r') (end_point r')))%nat →
              (start_point r', end_point r') ∈ segments_of <$> output').
  { intros output' Hsub r' Hr' Hc.
    apply (Hdone r' Hr') in Hc. apply list_elem_of_fmap in Hc as (m & Em & Hm).
    apply list_elem_of_fmap. exists m. split; [done | by apply Hsub]. }
  case_decide as Hcount; [case_decide as Hnew|].
  - split.
    + intros m [Hm | Hm]%elem_of_app; [by apply Hsrc|].
      apply list_elem_of_singleton in Hm as ->. by exists r.
    + intros r' [Hr' | Hr']%elem_of_app Hc.
      * apply (Hold _ (λ m Hm, proj2 (elem_of_app _ _ m) (or_introl Hm)) r' Hr' Hc).
      * apply list_elem_of_singleton in Hr' as ->.
        rewrite fmap_app. apply elem_of_app. right. simpl. left.
  - split; [done|].
    intros r' [Hr' | Hr']%elem_of_app Hc; [by apply (Hold output)|].
    apply list_elem_of_singleton in Hr' as ->.
    destruct (decide (start_point r ∈ (λ m : segmentation, m.1.2) <$> output
                      ∧ end_point r ∈ (λ m : segmentation, m.2) <$> output))
      as [[Hs He] | Hn]; [|destruct Hnew; by right].
    apply list_elem_of_fmap.
    destruct Hdet as [Hdet | Hdet].
    + apply list_elem_of_fmap in Hs as (m & Es & Hm). exists m. split; [|done].
      destruct (Hsrc m Hm) as (r0 & Hr0 & E0).
      unfold segments_of in *. injection E0 as E1 E2.
      rewrite E2, <- Es. f_equal. symmetry. apply Hdet; [done..|]. congruence.
    + apply list_elem_of_fmap in He as (m & Ee & Hm). exists m. split; [|done].
      destruct (Hsrc m Hm) as (r0 & Hr0 & E0).
      unfold segments_of in *. injection E0 as E1 E2.
      rewrite E1, <- Ee. f_equal. symmetry. apply Hdet; [done..|]. congruence.
  - split; [done|].
    intros r' [Hr' | Hr']%elem_of_app Hc; [by apply (Hold output)|].
    apply list_elem_of_singleton in Hr' as ->. lia.
Qed.

Lemma compare_rows_found acs (l : list row) : ∀ output done_rows,
  starts_determine_ends (all_df acs) ∨ ends_determine_starts (all_df acs) →
  (∀ r, r ∈ l → r ∈ all_df acs) →
  found acs output done_rows →
  found acs (foldl (compare_row uuid (all_df acs) (all_an acs)) output l)
        (done_rows ++ l).
Proof.
  induction l as [|r l IH]; intros output done_rows Hdet Hl H; simpl.
  - by rewrite app_nil_r.
  - replace (done_rows ++ r :: l) with ((done_rows ++ [r]) ++ l)
      by (by rewrite <- app_assoc).
    apply IH; [done | intros r' Hr'; apply Hl; by right |].
    apply compare_row_found; [done | apply Hl; left | done].
Qed.

(** X27.  For two or more collections every match handed on to be copied
    into the gold standard has segments that two or more rows of the
    frames carry, holds exactly the annotations whose uuid is that of such
    a row, and these are more than half as many as there are collections;
    no two matches have the same segments, and the copying finds a first
    annotation in every match. *)
Theorem gold_matches_are_agreed_segmentations acs :
  (2 ≤ length acs)%nat →
  ∃ matches,
    gold_matches uuid acs = Ok matches ∧
    NoDup (segments_of <$> matches) ∧
    (∀ m, m ∈ matches →
       (2 ≤ length (rows_with acs m.1.2 m.2))%nat ∧
       m.1.1 = agreeing uuid acs m.1.2 m.2 ∧
       (length acs < 2 * length m.1.1)%nat) ∧
    ∃ copies, copied matches = Ok copies ∧ length copies = length matches.
Proof.
  intros Hlen. unfold gold_matches. rewrite (several_collections acs Hlen).
  cbn [bind].
  set (output := foldl _ [] (all_df acs)).
  assert (Hg : gathered uuid acs output).
  { apply compare_rows_gathered. split; [constructor|].
    intros m Hm. inversion Hm. }
  destruct Hg as [Hnd Hall].
  eexists. split; [reflexivity|]. unfold majority. split; [|split].
  - eapply sublist_NoDup; first [exact Hnd | apply fmap_sublist, sublist_filter].
  - intros m [Hmaj Hm]%list_elem_of_filter.
    destruct (Hall m Hm) as [H2 Heq]. done.
  - apply copied_total. intros m [Hmaj Hm]%list_elem_of_filter E.
    rewrite E in Hmaj. simpl in Hmaj. lia.
Qed.

(** X28.  For two or more collections whose rows never start alike and
    end differently, or never end alike and start differently, the strict
    segmentation finds every agreement: the segments of every row that
    another row shares are the segments of a match. *)
Theorem agreed_segmentations_are_found acs :
  (2 ≤ length acs)%nat →
  starts_determine_ends (all_df acs) ∨ ends_determine_starts (all_df acs) →
  ∃ output,
    _compare_for_strict_segmentation uuid acs = Ok output ∧
    ∀ r, r ∈ all_df acs →
      (2 ≤ length (rows_with acs (start_point r) (end_point r)))%nat →
      (start_point r, end_point r) ∈ segments_of <$> output.
Proof.
  intros Hlen Hdet. rewrite (several_collections acs Hlen).
  eexists. split; [reflexivity|].
  assert (Hf : found acs [] []).
  { split; [intros m Hm; inversion Hm | intros r Hr; inversion Hr]. }
  apply (compare_rows_found acs (all_df acs) [] [] Hdet (λ r Hr, Hr)) in Hf.
  apply Hf.
Qed.

End Facts.

Lemma gold_matches_are_agreed_segmentations_witness :
  ∃ matches,
    gold_matches id nested_collections = Ok matches ∧
    NoDup (segments_of <$> matches) ∧
    (∀ m, m ∈ matches →
       (2 ≤ length (rows_with nested_collections m.1.2 m.2))%nat ∧
       m.1.1 = agreeing id nested_collections m.1.2 m.2 ∧
       (length nested_collections < 2 * length m.1.1)%nat) ∧
    ∃ copies, copied matches = Ok copies ∧ length copies = length matches.
Proof.
  apply (gold_matches_are_agreed_segmentations id nested_collections).
  simpl. lia.
Defined.

Lemma agreed_segmentations_are_found_witness :
  ∃ output,
    _compare_for_strict_segmentation id plain_collections = Ok output ∧
    ∀ r, r ∈ all_df plain_collections →
      (2 ≤ length (rows_with plain_collections (start_point r) (end_point r)))%nat →
      (start_point r, end_point r) ∈ segments_of <$> output.
Proof.
  apply (agreed_segmentations_are_found id plain_collections).
  - simpl. lia.
  - left. intros r1 r2 H1 H2 E.
    unfold all_df, plain_collections in H1, H2. simpl in H1, H2.
    repeat (apply elem_of_cons in H1 as [-> | H1]);
      repeat (apply elem_of_cons in H2 as [-> | H2]);
      try (by inversion H1); try (by inversion H2);
      first [reflexivity | discriminate E].
Defined.

(** Where rows start alike and end differently an agreement can be
    passed over: both annotators mark the passage from 0 to 11, and no
    match has these segments, its start being the start of one earlier
    match and its end the end of another. *)
Example agreement_passed_over :
  gold_matches id nested_collections
  = Ok [ ([lit "a"; lit "d"], [0], [7]); ([lit "b"; lit "e"], [8], [11]) ].
Proof. vm_compute. reflexivity. Qed.

End GoldTheorems.

(* ===================================================================== *)
(** ** Properties of the statistics by class *)
(* ===================================================================== *)

Module ByClassTheorems.
Import Align Analyzer AnalyzerSpec ByClass ByClassSpec.

Lemma sum_of_counts_fresh (summary : gmap str Z) (k : str) (n : Z) :
  summary !! k = None →
  sum_of_counts (<[k := n]> summary) = n + sum_of_counts summary.
Proof.
  intros Hk. unfold sum_of_counts.
  rewrite map_fold_insert_L; [done | intros; lia | done].
Qed.

Lemma sum_of_counts_delete (summary : gmap str Z) (k : str) :
  sum_of_counts (delete k summary)
  = sum_of_counts summary - default 0 (summary !! k).
Proof.
  destruct (summary !! k) as [n|] eqn:Hk; simpl.
  - rewrite <- (insert_delete_id summary k n Hk) at 2.
    rewrite sum_of_counts_fresh by apply lookup_delete_eq. lia.
  - rewrite delete_id by done. lia.
Qed.

Lemma sum_of_counts_insert (summary : gmap str Z) (k : str) (n : Z) :
  sum_of_counts (<[k := n]> summary)
  = n + sum_of_counts summary - default 0 (summary !! k).
Proof.
  rewrite <- insert_delete_eq.
  rewrite sum_of_counts_fresh by apply lookup_delete_eq.
  rewrite sum_of_counts_delete. lia.
Qed.

Lemma count_step (counts : gmap str Z) (v c : str) :
  default 0 (<[v := default 0 (counts !! v) + 1]> counts !! c)
  = default 0 (counts !! c) + (if decide (v = c) then 1 else 0).
Proof.
  destruct (decide (v = c)) as [->|Hne].
  - by rewrite lookup_insert_eq.
  - rewrite lookup_insert_ne by done. lia.
Qed.

Lemma value_counts_from (values : list str) : ∀ counts : gmap str Z,
  let counted :=
    foldl (λ counts v, <[v := default 0 (counts !! v) + 1]> counts)
          counts values in
  sum_of_counts counted = sum_of_counts counts + Z.of_nat (length values) ∧
  ∀ c, default 0 (counted !! c)
       = default 0 (counts !! c)
         + Z.of_nat (length (filter (λ v, v = c) values)).
Proof.
  induction values as [|v values IH]; intros counts; simpl.
  - split; [lia | intros c; lia].
  - destruct (IH (<[v := default 0 (counts !! v) + 1]> counts)) as [Hs Hc].
    split.
    + rewrite Hs, sum_of_counts_insert. lia.
    + intros c. rewrite Hc, count_step.
      unfold filter; cbn [list_filter]. fold (filter (λ v, v = c) values).
      destruct (decide (v = c)); simpl; lia.
Qed.

Lemma value_counts_spec (values : list str) :
  sum_of_counts (value_counts values) = Z.of_nat (length values) ∧
  ∀ c, default 0 (value_counts values !! c)
       = Z.of_nat (length (filter (λ v, v = c) values)).
Proof.
  destruct (value_counts_from values ∅) as [Hs Hc]. split.
  - unfold value_counts. rewrite Hs. unfold sum_of_counts.
    by rewrite map_fold_empty.
  - intros c. unfold value_counts. rewrite Hc, lookup_empty. done.
Qed.

Lemma add_missing_classes_spec (classes : list str) : ∀ summary : gmap str Z,
  sum_of_counts (add_missing_classes classes summary) = sum_of_counts summary ∧
  (∀ c, default 0 (add_missing_classes classes summary !! c)
        = default 0 (summary !! c)) ∧
  (∀ c, is_Some (summary !! c) →
        is_Some (add_missing_classes classes summary !! c)) ∧
  (∀ c, c ∈ classes → is_Some (add_missing_classes classes summary !! c)).
Proof.
  unfold add_missing_classes.
  induction classes as [|k classes IH]; intros summary; simpl.
  - repeat split; try done. intros c Hc. inversion Hc.
  - set (summary' := match summary !! k with
                     | Some _ => summary
                     | None => <[k := 0]> summary
                     end).
    assert (Hsum : sum_of_counts summary' = sum_of_counts summary).
    { unfold summary'. destruct (summary !! k) eqn:Hk; [done|].
      rewrite sum_of_counts_fresh by done. lia. }
    assert (Hget : ∀ c, default 0 (summary' !! c) = default 0 (summary !! c)).
    { intros c. unfold summary'. destruct (summary !! k) eqn:Hk; [done|].
      destruct (decide (k = c)) as [->|Hne].
      - by rewrite lookup_insert_eq, Hk.
      - by rewrite lookup_insert_ne. }
    assert (Hkeep : ∀ c, is_Some (summary !! c) → is_Some (summary' !! c)).
    { intros c Hc. unfold summary'. destruct (summary !! k) eqn:Hk; [done|].
      destruct (decide (k = c)) as [->|Hne].
      - by rewrite lookup_insert_eq.
      - by rewrite lookup_insert_ne. }
    assert (Hk' : is_Some (summary' !! k)).
    { unfold summary'. destruct (summary !! k) eqn:Hk.
      - by rewrite Hk.
      - by rewrite lookup_insert_eq. }
    destruct (IH summary') as (Hs & Hg & Hp & Hc).
    split; [by rewrite Hs|]. split; [intros c; by rewrite Hg|].
    split; [intros c Hin; by apply Hp, Hkeep|].
    intros c [->|Hin]%elem_of_cons; [by apply Hp | by apply Hc].
Qed.

Lemma length_filter_class {A} (f : A → str) (c : str) (l : list A) :
  length (filter (λ v, v = c) (f <$> l)) = length (filter (λ x, f x = c) l).
Proof.
  induction l as [|x l IH]; [done|].
  rewrite fmap_cons. unfold filter; cbn [list_filter].
  fold (filter (λ v, v = c) (f <$> l)). fold (filter (λ x, f x = c) l).
  destruct (decide (f x = c)); simpl; by rewrite IH.
Qed.

Lemma length_filter_split {A} (P : A → Prop) `{∀ x, Decision (P x)}
    (l : list A) :
  (length l = length (filter P l) + length (filter (λ x, ¬ P x) l))%nat.
Proof.
  rewrite <- length_app. by rewrite filter_app_complement.
Qed.

(** X29.  The counts by class of a file add up to its amount of
    annotations, for every token window and whether or not the classes
    without an instance are entered: the count of a class is the number
    of the file's annotations (B- rows, one per Annotation_ID) of that
    class, a class that is no key counting 0, and every class of a
    determined class system is a key. *)
Theorem counts_by_class_add_up (classes : option (list str))
    (input : list tagged_row) (text_borders : option (Z * Z)) :
  sum_of_counts (amount_of_annotations_by_class classes input text_borders)
  = amount_of_annotations input text_borders ∧
  (∀ c, default 0 (amount_of_annotations_by_class classes input text_borders !! c)
        = Z.of_nat (length (rows_of_class c
            (filtered_df_with_annotations
               (_get_df_with_text_borders input text_borders))))) ∧
  (∀ cs c, classes = Some cs → c ∈ cs →
     is_Some (amount_of_annotations_by_class classes input text_borders !! c)).
Proof.
  unfold amount_of_annotations_by_class, amount_of_annotations, rows_of_class.
  set (filtered_df := filtered_df_with_annotations _).
  set (tags := (λ row, without_iob_schema (Tag row)) <$> filtered_df).
  destruct (value_counts_spec tags) as [Hs Hc].
  assert (Hlen : length tags = length filtered_df) by apply length_fmap.
  assert (Hcls : ∀ c, length (filter (λ v, v = c) tags)
                      = length (filter (λ row, without_iob_schema (Tag row) = c)
                                       filtered_df))
    by (intros c; apply length_filter_class).
  destruct classes as [cs|].
  - destruct (add_missing_classes_spec cs (value_counts tags))
      as (Hs' & Hg' & _ & Hk').
    split; [by rewrite Hs', Hs, Hlen|].
    split; [intros c; by rewrite Hg', Hc, Hcls|].
    intros cs' c [= <-] Hin. by apply Hk'.
  - split; [by rewrite Hs, Hlen|]. split; [intros c; by rewrite Hc, Hcls|].
    intros cs c [=].
Qed.

(** X30.  On a table that [create_annotated_token_tsv] emitted (no
    annotation id being the sentinel "none") and in which no tag other
    than O stands for a class named O, the counts of annotated token by
    class add up to the amount of annotated token, for every token
    window. *)
Theorem token_counts_by_class_add_up anns tokens tb mode rows
    (classes : option (list str)) (text_borders : option (Z * Z)) :
  create_annotated_token_tsv anns tokens tb mode = Ok rows →
  ids_distinct_from_none anns →
  (∀ row, row ∈ rows → Tag row ≠ tag_O → without_iob_schema (Tag row) ≠ tag_O) →
  sum_of_counts (amount_of_annotated_token_by_class classes rows text_borders)
  = amount_of_annotated_token rows text_borders.
Proof.
  intros Hc Hdist HnoO.
  unfold amount_of_annotated_token_by_class, amount_of_annotated_token.
  set (file_df := _get_df_with_text_borders rows text_borders).
  set (tags := (λ row, without_iob_schema (Tag row)) <$> file_df).
  assert (Hsum : sum_of_counts (delete tag_O (value_counts tags))
                 = Z.of_nat (length (filter (λ row, Multi_Token_Annotation row > 0)
                                            file_df))).
  { destruct (value_counts_spec tags) as [Hs Hcount].
    rewrite sum_of_counts_delete, Hs, Hcount.
    unfold tags. rewrite length_filter_class, length_fmap.
    rewrite (length_filter_split
               (λ row, without_iob_schema (Tag row) = tag_O) file_df).
    replace (length (filter (λ row, Multi_Token_Annotation row > 0) file_df))
      with (length (filter (λ row, ¬ without_iob_schema (Tag row) = tag_O) file_df));
      [lia|].
    assert (Hrow : ∀ row, row ∈ file_df →
              (¬ without_iob_schema (Tag row) = tag_O
               ↔ Multi_Token_Annotation row > 0)).
    { intros row Hr.
      assert (Hin : row ∈ rows) by (eapply AnalyzerTheorems.elem_of_statistics_window, Hr).
      destruct (AnalyzerTheorems.emitted_row_annotated _ _ _ _ _ _ Hc Hdist Hin)
        as [Hiff _].
      rewrite Hiff. split.
      - intros Hn HO. apply Hn. by rewrite HO.
      - intros HO. by apply HnoO. }
    apply Nat.le_antisymm; apply AnalyzerTheorems.length_filter_le_impl;
      intros x Hx; by apply Hrow. }
  destruct classes as [cs|]; [|done].
  destruct (add_missing_classes_spec cs (delete tag_O (value_counts tags)))
    as (Hs' & _). by rewrite Hs'.
Qed.

Lemma token_counts_by_class_add_up_witness :
  sum_of_counts
    (amount_of_annotated_token_by_class (Some [lit "Color"; lit "Shape"])
       [ {| basic := {| Token_ID := 0; Text_Pointer := 0; Token := lit "The" |};
            Tag := lit "B-Color"; Annotation_ID := lit "C0FFEE";
            Multi_Token_Annotation := 2 |};
         {| basic := {| Token_ID := 1; Text_Pointer := 4; Token := lit "red" |};
            Tag := lit "O"; Annotation_ID := lit "none";
            Multi_Token_Annotation := 0 |};
         {| basic := {| Token_ID := 2; Text_Pointer := 8; Token := lit "fox" |};
            Tag := lit "B-Color"; Annotation_ID := lit "C0FFEE";
            Multi_Token_Annotation := 2 |} ] None)
  = amount_of_annotated_token
      [ {| basic := {| Token_ID := 0; Text_Pointer := 0; Token := lit "The" |};
           Tag := lit "B-Color"; Annotation_ID := lit "C0FFEE";
           Multi_Token_Annotation := 2 |};
        {| basic := {| Token_ID := 1; Text_Pointer := 4; Token := lit "red" |};
           Tag := lit "O"; Annotation_ID := lit "none";
           Multi_Token_Annotation := 0 |};
        {| basic := {| Token_ID := 2; Text_Pointer := 8; Token := lit "fox" |};
           Tag := lit "B-Color"; Annotation_ID := lit "C0FFEE";
           Multi_Token_Annotation := 2 |} ] None.
Proof.
  pose proof (token_counts_by_class_add_up [Examples.color_two_segments]
                Examples.the_red_fox None true _
                (Some [lit "Color"; lit "Shape"]) None eq_refl) as H.
  apply H; [solve_ids_distinct|].
  intros row Hrow HO.
  apply elem_of_cons in Hrow as [-> | Hrow];
    [intros E; vm_compute in E; discriminate E|].
  apply elem_of_cons in Hrow as [-> | Hrow];
    [exfalso; apply HO; reflexivity|].
  apply elem_of_cons in Hrow as [-> | Hrow];
    [intros E; vm_compute in E; discriminate E|].
  inversion Hrow.
Defined.

End ByClassTheorems.
